(** * Resource permission store and tuple synchronisation

    A shallow embedding of Grafana's RBAC resource-permission store
    (package [resourcepermissions]: [SetResourcePermission] and friends,
    the managed-role resolver, the permission differ, the flat-permission
    classifier) and of the org-membership resync of package [database]
    ([syncOrgMembership]).

    The relational store is a record of tables (lists of rows); every
    session statement may fail, as decided by an oracle carried by the
    world, and the external authorization engine is a log of accepted
    [Write] RPCs with its own failure oracle.  Go's [int64] identifiers
    are [Z]; no arithmetic is performed on them by the embedded code.
    The [Created]/[Updated] timestamp columns are left out: no embedded
    function reads them back. *)

From stdpp Require Import base decidable option list sets gmap strings pretty.
From Stdlib Require Import Ascii String ZArith Lia.

#[local] Set Warnings "-clear-no-such-hyp".

Local Open Scope string_scope.
Local Open Scope Z_scope.
Local Open Scope list_scope.

(** ** Data model *)

Record Role := mkRole {
  role_ID : Z;
  role_OrgID : Z;
  role_UID : string;
  role_Name : string;
}.

Record Permission := mkPermission {
  perm_ID : Z;
  perm_RoleID : Z;
  perm_Action : string;
  perm_Scope : string;
  perm_Kind : string;
  perm_Attribute : string;
  perm_Identifier : string;
}.

Record UserRole := mkUserRole {
  ur_OrgID : Z;
  ur_UserID : Z;
  ur_RoleID : Z;
}.

Record TeamRole := mkTeamRole {
  tr_OrgID : Z;
  tr_TeamID : Z;
  tr_RoleID : Z;
}.

Record BuiltinRole := mkBuiltinRole {
  br_RoleID : Z;
  br_OrgID : Z;
  br_Role : string;
}.

(** Rows of the [user] and [team] tables, as far as [getPermissions]
    projects them. *)
Record UserRow := mkUserRow {
  u_id : Z;
  u_login : string;
  u_email : string;
  u_is_service_account : bool;
}.

Record TeamRow := mkTeamRow {
  t_id : Z;
  t_name : string;
  t_email : string;
}.

(** A row of [org_user], the [membership] struct of [syncOrgMembership]. *)
Record membership := mkMembership {
  memb_OrgId : Z;
  memb_UserId : Z;
  memb_Role : string;
}.

Record flatResourcePermission := mkFlat {
  frp_ID : Z;
  frp_RoleName : string;
  frp_Action : string;
  frp_Scope : string;
  frp_UserId : Z;
  frp_UserLogin : string;
  frp_UserEmail : string;
  frp_TeamId : Z;
  frp_TeamEmail : string;
  frp_Team : string;
  frp_BuiltInRole : string;
  frp_IsServiceAccount : bool;
}.

Record ResourcePermission := mkResourcePermission {
  rp_ID : Z;
  rp_RoleName : string;
  rp_Actions : list string;
  rp_Scope : string;
  rp_UserId : Z;
  rp_UserLogin : string;
  rp_UserEmail : string;
  rp_TeamId : Z;
  rp_TeamEmail : string;
  rp_Team : string;
  rp_BuiltInRole : string;
  rp_IsManaged : bool;
  rp_IsInherited : bool;
  rp_IsServiceAccount : bool;
}.

(** [openfgav1.TupleKey]; [tk_Condition] records whether a (here always
    empty) relationship condition is attached. *)
Record TupleKey := mkTupleKey {
  tk_User : string;
  tk_Relation : string;
  tk_Object : string;
  tk_Condition : bool;
}.

Global Instance Permission_eq_dec : EqDecision Permission.
Proof. solve_decision. Defined.
Global Instance Role_eq_dec : EqDecision Role.
Proof. solve_decision. Defined.
Global Instance TupleKey_eq_dec : EqDecision TupleKey.
Proof. solve_decision. Defined.
Global Instance flatResourcePermission_eq_dec : EqDecision flatResourcePermission.
Proof. solve_decision. Defined.

(** The zero value [accesscontrol.ResourcePermission{}]. *)
Definition emptyResourcePermission : ResourcePermission :=
  mkResourcePermission 0 "" [] "" 0 "" "" 0 "" "" "" false false false.

(** ** Strings *)

(** [strings.HasPrefix s prefix]. *)
Definition HasPrefix (s pre : string) : bool := String.prefix pre s.

(** [strings.Join]. *)
Definition Join (parts : list string) (sep : string) : string :=
  String.concat sep parts.

(** [strings.ToLower], on the ASCII letters. *)
Definition lower_ascii (c : ascii) : ascii :=
  let n := Ascii.nat_of_ascii c in
  if (Nat.leb 65 n && Nat.leb n 90)%bool then Ascii.ascii_of_nat (n + 32) else c.

Fixpoint ToLower (s : string) : string :=
  match s with
  | EmptyString => EmptyString
  | String c s' => String (lower_ascii c) (ToLower s')
  end.

(** [strconv.FormatInt x 10]. *)
Definition FormatInt (x : Z) : string := pretty x.

(** Modelled from the spec: [accesscontrol.ManagedRolePrefix] is declared
    in package [accesscontrol]; managed roles "have names prefixed with a reserved
    managed: marker" (the [LIKE 'managed:%'] filter of
    [getResourcePermissions] uses the same literal). *)
Definition ManagedRolePrefix : string := "managed:".

(** Modelled from the spec: [accesscontrol.Scope] is declared in package
    [accesscontrol]; the scope string is its parts joined by a colon,
    [<kind>:<attribute>:<identifier>]. *)
Definition Scope (parts : list string) : string := Join parts ":".

(** ** Classification of flat permission rows *)

Definition IsManaged (p : flatResourcePermission) (scope : string) : bool :=
  HasPrefix (frp_RoleName p) ManagedRolePrefix && bool_decide (frp_Scope p = scope).

(** Managed permissions whose scope does not directly match the required
    scope (managed permissions on a parent resource). *)
Definition IsInherited (p : flatResourcePermission) (scope : string) : bool :=
  HasPrefix (frp_RoleName p) ManagedRolePrefix && negb (bool_decide (frp_Scope p = scope)).

Definition flatPermissionsToResourcePermission
    (scope : string) (permissions : list flatResourcePermission)
    : option ResourcePermission :=
  match permissions with
  | [] => None
  | first :: _ =>
      Some {| rp_ID := frp_ID first;
              rp_RoleName := frp_RoleName first;
              rp_Actions := frp_Action <$> permissions;
              rp_Scope := frp_Scope first;
              rp_UserId := frp_UserId first;
              rp_UserLogin := frp_UserLogin first;
              rp_UserEmail := frp_UserEmail first;
              rp_TeamId := frp_TeamId first;
              rp_TeamEmail := frp_TeamEmail first;
              rp_Team := frp_Team first;
              rp_BuiltInRole := frp_BuiltInRole first;
              rp_IsManaged := IsManaged first scope;
              rp_IsInherited := IsInherited first scope;
              rp_IsServiceAccount := frp_IsServiceAccount first |}
  end.

(** The three accumulators of [flatPermissionsToResourcePermissions]. *)
Record Buckets := mkBuckets {
  managed : list flatResourcePermission;
  inherited : list flatResourcePermission;
  provisioned : list flatResourcePermission;
}.

(** One iteration of the classification loop. *)
Definition bucket_step (scope : string) (b : Buckets) (p : flatResourcePermission) : Buckets :=
  if IsManaged p scope then
    mkBuckets (managed b ++ [p]) (inherited b) (provisioned b)
  else if IsInherited p scope then
    mkBuckets (managed b) (inherited b ++ [p]) (provisioned b)
  else
    mkBuckets (managed b) (inherited b) (provisioned b ++ [p]).

Definition buckets (scope : string) (permissions : list flatResourcePermission) : Buckets :=
  foldl (bucket_step scope) (mkBuckets [] [] []) permissions.

Definition appendPermission (result : list ResourcePermission) (g : option ResourcePermission)
    : list ResourcePermission :=
  match g with
  | Some g => result ++ [g]
  | None => result
  end.

Definition flatPermissionsToResourcePermissions
    (scope : string) (permissions : list flatResourcePermission)
    : list ResourcePermission :=
  let b := buckets scope permissions in
  let result := [] in
  let result := appendPermission result (flatPermissionsToResourcePermission scope (managed b)) in
  let result := appendPermission result (flatPermissionsToResourcePermission scope (inherited b)) in
  let result := appendPermission result (flatPermissionsToResourcePermission scope (provisioned b)) in
  result.

(** The three classes of rows, as propositions. *)
Definition managedRow (scope : string) (p : flatResourcePermission) : Prop :=
  HasPrefix (frp_RoleName p) ManagedRolePrefix = true ∧ frp_Scope p = scope.

Definition inheritedRow (scope : string) (p : flatResourcePermission) : Prop :=
  HasPrefix (frp_RoleName p) ManagedRolePrefix = true ∧ frp_Scope p ≠ scope.

Definition provisionedRow (p : flatResourcePermission) : Prop :=
  HasPrefix (frp_RoleName p) ManagedRolePrefix = false.

Global Instance managedRow_dec scope p : Decision (managedRow scope p).
Proof. unfold managedRow. apply _. Defined.
Global Instance inheritedRow_dec scope p : Decision (inheritedRow scope p).
Proof. unfold inheritedRow. apply _. Defined.
Global Instance provisionedRow_dec p : Decision (provisionedRow p).
Proof. unfold provisionedRow. apply _. Defined.

(** ** The permission differ *)

(** The second loop of [setResourcePermission]: a stored permission whose
    action is still in [missing] is kept and its action struck from
    [missing]; any other stored permission is scheduled for removal. *)
Definition diff_step (acc : gset string * list Z) (p : Permission) : gset string * list Z :=
  let '(missing, remove) := acc in
  if bool_decide (perm_Action p ∈ missing) then (missing ∖ {[perm_Action p]}, remove)
  else (missing, remove ++ [perm_ID p]).

(** The first loop fills [missing] with the requested actions; the second
    folds [diff_step] over the stored permissions. *)
Definition setResourcePermission_diff (actions : list string) (current : list Permission)
    : gset string * list Z :=
  foldl diff_step (list_to_set actions, []) current.

(** What the second loop schedules for removal, by recursion on the
    stored permissions: the closed form of the [remove] component. *)
Fixpoint removed (missing : gset string) (current : list Permission) : list Z :=
  match current with
  | [] => []
  | p :: current' =>
      if bool_decide (perm_Action p ∈ missing)
      then removed (missing ∖ {[perm_Action p]}) current'
      else perm_ID p :: removed missing current'
  end.

(** ** The relational store and the outside world *)

Record Tables := mkTables {
  tbl_role : list Role;
  tbl_permission : list Permission;
  tbl_user_role : list UserRole;
  tbl_team_role : list TeamRole;
  tbl_builtin_role : list BuiltinRole;
  tbl_user : list UserRow;
  tbl_team : list TeamRow;
  tbl_org_user : list membership;
}.

Inductive Error :=
  | ErrUserNotFound               (* user.ErrUserNotFound *)
  | ErrTeamNotFound               (* team.ErrTeamNotFound *)
  | ErrMsg (msg : string)         (* fmt.Errorf *)
  | ErrStorage                    (* an error returned by a session statement *)
  | ErrWrite.                     (* an error returned by the engine's Write RPC *)

Inductive Result (A : Type) :=
  | Ok (a : A)
  | Err (e : Error).
Arguments Ok {A} a.
Arguments Err {A} e.

(** The world a store operation runs in.  [db_fault n] tells whether the
    [n]-th session statement fails, [zfault n] whether the [n]-th [Write]
    RPC fails, [uid_gen n] is the [n]-th value of [util.GenerateShortUID];
    the counters say how many of each were consumed.  [zlog] is the list
    of accepted [Write] requests, oldest first. *)
Record World := mkWorld {
  tables : Tables;
  db_calls : nat;
  db_fault : nat → bool;
  zlog : list (list TupleKey);
  zcalls : nat;
  zfault : nat → bool;
  uid_calls : nat;
  uid_gen : nat → string;
}.

Definition set_tables (t : Tables) (w : World) : World :=
  mkWorld t (db_calls w) (db_fault w) (zlog w) (zcalls w) (zfault w) (uid_calls w) (uid_gen w).

Definition tick_db (w : World) : World :=
  mkWorld (tables w) (S (db_calls w)) (db_fault w) (zlog w) (zcalls w) (zfault w)
    (uid_calls w) (uid_gen w).

Definition tick_z (w : World) : World :=
  mkWorld (tables w) (db_calls w) (db_fault w) (zlog w) (S (zcalls w)) (zfault w)
    (uid_calls w) (uid_gen w).

Definition log_z (tuples : list TupleKey) (w : World) : World :=
  mkWorld (tables w) (db_calls w) (db_fault w) (zlog w ++ [tuples]) (zcalls w) (zfault w)
    (uid_calls w) (uid_gen w).

Definition tick_uid (w : World) : World :=
  mkWorld (tables w) (db_calls w) (db_fault w) (zlog w) (zcalls w) (zfault w)
    (S (uid_calls w)) (uid_gen w).

(** State and error monad of the store operations. *)
Definition M (A : Type) : Type := World → Result A * World.

Definition ret {A} (a : A) : M A := λ w, (Ok a, w).

Definition fail {A} (e : Error) : M A := λ w, (Err e, w).

Definition bind {A B} (m : M A) (k : A → M B) : M B := λ w,
  match m w with
  | (Ok a, w') => k a w'
  | (Err e, w') => (Err e, w')
  end.

Notation "x <- m ;; k" := (bind m (λ x, k))
  (at level 100, m at next level, right associativity).
Notation "m ;;; k" := (bind m (λ _, k))
  (at level 100, right associativity).

(** A session statement: it fails when the oracle says so, and otherwise
    evaluates on the tables. *)
Definition statement {A} (q : Tables → A * Tables) : M A := λ w,
  let w' := tick_db w in
  if db_fault w (db_calls w) then (Err ErrStorage, w')
  else (Ok (q (tables w)).1, set_tables (q (tables w)).2 w').

Definition query {A} (q : Tables → A) : M A := statement (λ t, (q t, t)).

Definition exec (q : Tables → Tables) : M unit := statement (λ t, (tt, q t)).

(** [util.GenerateShortUID]. *)
Definition GenerateShortUID : M string := λ w, (Ok (uid_gen w (uid_calls w)), tick_uid w).

(** [zClient.Write]: one RPC carrying [tuples]. *)
Definition zClient_Write (tuples : list TupleKey) : M unit := λ w,
  let w' := tick_z w in
  if zfault w (zcalls w) then (Err ErrWrite, w') else (Ok tt, log_z tuples w').

(** Modelled from the spec: [db.WithTransactionalDbSession] is declared
    in package [db].  Each operation runs "inside one atomic
    transaction"; an error returned by the callback aborts the enclosing
    transaction, "causing full rollback of relational mutations", and
    otherwise the mutations are committed.  Effects outside the relational
    store (RPCs already sent, identifiers already drawn) are not undone. *)
Definition WithTransactionalDbSession {A} (callback : M A) : M A := λ w,
  match callback w with
  | (Ok a, w') => (Ok a, w')
  | (Err e, w') => (Err e, set_tables (tables w) w')
  end.

(** [db.WithDbSession]: a session without a transaction around it. *)
Definition WithDbSession {A} (callback : M A) : M A := callback.

(** The identifier an auto-increment primary key gives to the next row. *)
Definition next_id (ids : list Z) : Z := 1 + foldr Z.max 0 ids.

(** *** Statements *)

(** [sess.Where("org_id = ? AND name = ?", orgID, name).Get(&role)]. *)
Definition get_role_by_name (orgID : Z) (name : string) (t : Tables) : option Role :=
  head (filter (λ r, role_OrgID r = orgID ∧ role_Name r = name) (tbl_role t)).

(** [sess.Where("org_id=? AND uid=?", orgID, uid).Get(&accesscontrol.Role{})]. *)
Definition role_uid_exists (orgID : Z) (uid : string) (t : Tables) : bool :=
  bool_decide (Exists (λ r, role_OrgID r = orgID ∧ role_UID r = uid) (tbl_role t)).

(** [sess.Insert(&role)]: the store assigns the identifier. *)
Definition insert_role (r : Role) (t : Tables) : Role * Tables :=
  let r' := mkRole (next_id (role_ID <$> tbl_role t)) (role_OrgID r) (role_UID r) (role_Name r) in
  (r', mkTables (tbl_role t ++ [r']) (tbl_permission t) (tbl_user_role t) (tbl_team_role t)
         (tbl_builtin_role t) (tbl_user t) (tbl_team t) (tbl_org_user t)).

Definition set_permissions (ps : list Permission) (t : Tables) : Tables :=
  mkTables (tbl_role t) ps (tbl_user_role t) (tbl_team_role t)
    (tbl_builtin_role t) (tbl_user t) (tbl_team t) (tbl_org_user t).

Definition insert_permission (t : Tables) (p : Permission) : Tables :=
  set_permissions
    (tbl_permission t ++
       [mkPermission (next_id (perm_ID <$> tbl_permission t)) (perm_RoleID p) (perm_Action p)
          (perm_Scope p) (perm_Kind p) (perm_Attribute p) (perm_Identifier p)])
    t.

(** [sess.InsertMulti(&permissions)]. *)
Definition insert_permissions (ps : list Permission) (t : Tables) : Tables :=
  foldl insert_permission t ps.

(** [DELETE FROM permission WHERE id IN (ids)]. *)
Definition delete_permissions_in (ids : list Z) (t : Tables) : Tables :=
  set_permissions (filter (λ p, perm_ID p ∉ ids) (tbl_permission t)) t.

(** [SELECT p.* FROM permission as p INNER JOIN role r on r.id = p.role_id
    WHERE r.id = ? AND p.scope = ?]. *)
Definition select_current (roleID : Z) (scope : string) (t : Tables) : list Permission :=
  p ← tbl_permission t;
  r ← tbl_role t;
  if bool_decide (role_ID r = perm_RoleID p ∧ role_ID r = roleID ∧ perm_Scope p = scope)
  then [p] else [].

(** [SELECT permission.id FROM permission INNER JOIN role
    ON permission.role_id = role.id
    WHERE permission.scope = ? AND role.org_id = ?]. *)
Definition select_ids_by_scope (scope : string) (orgID : Z) (t : Tables) : list Z :=
  p ← tbl_permission t;
  r ← tbl_role t;
  if bool_decide (perm_RoleID p = role_ID r ∧ perm_Scope p = scope ∧ role_OrgID r = orgID)
  then [perm_ID p] else [].

(** The right-hand side of a [LEFT JOIN]: the matching rows, or a single
    all-NULL row when there is none. *)
Definition left_join {A} (matching : list A) : list (option A) :=
  match matching with
  | [] => [None]
  | _ => Some <$> matching
  end.

(** The query of [getPermissions]; a NULL column scans as the zero value. *)
Definition select_flat (roleID : Z) (scope : string) (t : Tables) : list flatResourcePermission :=
  p ← tbl_permission t;
  r ← filter (λ r, perm_RoleID p = role_ID r ∧ role_ID r = roleID ∧ perm_Scope p = scope)
        (tbl_role t);
  tr ← left_join (filter (λ tr, role_ID r = tr_RoleID tr) (tbl_team_role t));
  tm ← match tr with
       | Some tr => left_join (filter (λ tm, tr_TeamID tr = t_id tm) (tbl_team t))
       | None => [None]
       end;
  ur ← left_join (filter (λ ur, role_ID r = ur_RoleID ur) (tbl_user_role t));
  u ← match ur with
      | Some ur => left_join (filter (λ u, ur_UserID ur = u_id u) (tbl_user t))
      | None => [None]
      end;
  br ← left_join (filter (λ br, role_ID r = br_RoleID br) (tbl_builtin_role t));
  [ {| frp_ID := perm_ID p;
       frp_RoleName := role_Name r;
       frp_Action := perm_Action p;
       frp_Scope := perm_Scope p;
       frp_UserId := from_option ur_UserID 0 ur;
       frp_UserLogin := from_option u_login "" u;
       frp_UserEmail := from_option u_email "" u;
       frp_TeamId := from_option tr_TeamID 0 tr;
       frp_TeamEmail := from_option t_email "" tm;
       frp_Team := from_option t_name "" tm;
       frp_BuiltInRole := from_option br_Role "" br;
       frp_IsServiceAccount := false |} ].

(** ** Invariants of store computations *)

(** What every store computation respects about the engine: the failure
    oracle is left alone, the RPC counter only grows, a successful run has
    seen every RPC it sent succeed, and a run whose first RPC would fail
    adds nothing to the engine's log. *)
Definition engine_ok {A} (m : M A) : Prop :=
  ∀ w r w', m w = (r, w') →
    zfault w' = zfault w
    ∧ (zcalls w ≤ zcalls w')%nat
    ∧ (∀ a, r = Ok a → ∀ n, (zcalls w ≤ n < zcalls w')%nat → zfault w n = false)
    ∧ (zfault w (zcalls w) = true → zlog w' = zlog w).

(** A successful run has sent at least one RPC. *)
Definition writes {A} (m : M A) : Prop :=
  ∀ w a w', m w = (Ok a, w') → (zcalls w < zcalls w')%nat.

(** ** Collaborators from other packages *)

(** Helpers of packages [accesscontrol], [org] and [zclient] that the store
    calls.  The development is parametric in them. *)
Class External := {
  ManagedUserRoleName : Z → string;
  ManagedTeamRoleName : Z → string;
  ManagedBuiltInRoleName : string → string;
  (** [org.RoleType(r).IsValid()] *)
  RoleType_IsValid : string → bool;
  RoleGrafanaAdmin : string;
  (** [Permission.SplitScope], applied to the permission's scope *)
  SplitScope : string → string * string * string;
  FolderContainer : string;
  ConvertToRelationObject : string → string → string → string → string * string;
  GenerateBasicRoleResource : string → Z → string;
}.

(** [accesscontrol.User], of which the store reads the identifier. *)
Record User := mkUser { User_ID : Z }.

Record SetResourcePermissionCommand := mkCmd {
  cmd_Actions : list string;
  cmd_Resource : string;
  cmd_ResourceAttribute : string;
  cmd_ResourceID : string;
  cmd_Permission : string;
}.

Record SetResourcePermissionsCommand := mkCmds {
  cmds_User : User;
  cmds_TeamID : Z;
  cmds_BuiltinRole : string;
  cmds_Command : SetResourcePermissionCommand;
}.

(** The hooks receive the session, the org, the subject, the resource id
    and the permission name; [None] is Go's [nil]. *)
Definition UserResourceHookFunc := option (Z → User → string → string → M unit).
Definition TeamResourceHookFunc := option (Z → Z → string → string → M unit).
Definition BuiltinResourceHookFunc := option (Z → string → string → string → M unit).

Record ResourceHooks := mkHooks {
  hooks_User : UserResourceHookFunc;
  hooks_Team : TeamResourceHookFunc;
  hooks_BuiltInRole : BuiltinResourceHookFunc;
}.

(** The [store]: of its fields only the feature toggle
    [FlagAccessActionSets] is configuration; the session, the engine
    client and the logger are part of the world. *)
Record store := mkStore { FlagAccessActionSets : bool }.

Definition roleAdder := Role → M unit.

(** [InMemoryActionSets.GetActionSetName]. *)
Definition GetActionSetName (resource permission : string) : string :=
  ToLower resource +:+ ":" +:+ ToLower permission.

Section Store.
Context `{External}.

Definition managedPermission (action resource resourceID resourceAttribute : string) : Permission :=
  mkPermission 0 0 action (Scope [resource; resourceAttribute; resourceID]) "" "" "".

(** The loop body of [createPermissions]: stamp the role and the
    decomposed scope. *)
Definition stampPermission (roleID : Z) (p : Permission) : Permission :=
  let '(kind, attribute, identifier) := SplitScope (perm_Scope p) in
  mkPermission (perm_ID p) roleID (perm_Action p) (perm_Scope p) kind attribute identifier.

Definition deletePermissions (ids : list Z) : M unit :=
  if bool_decide (List.length ids = 0%nat) then ret tt
  else exec (delete_permissions_in ids).

(** [actions] is a Go map used as a set; it is ranged over in the order
    of [elements]. *)
Definition createPermissions (s : store) (roleID : Z)
    (resource resourceID resourceAttribute : string)
    (actions : gset string) (permission : string) : M unit :=
  if bool_decide (size actions = 0%nat) then ret tt
  else
    let permissions :=
      (λ action, stampPermission roleID
                   (managedPermission action resource resourceID resourceAttribute))
        <$> elements actions in
    let permissions :=
      if FlagAccessActionSets s then
        permissions ++
          [stampPermission roleID
             (managedPermission (GetActionSetName resource permission)
                resource resourceID resourceAttribute)]
      else permissions in
    exec (insert_permissions permissions).

Definition getPermissions (resource resourceID resourceAttribute : string) (roleID : Z)
    : M (list flatResourcePermission) :=
  query (select_flat roleID (Scope [resource; resourceAttribute; resourceID])).

Fixpoint generateNewRoleUID_loop (attempts : nat) (orgID : Z) : M string :=
  match attempts with
  | O => fail (ErrMsg "failed to generate uid")
  | S attempts' =>
      uid <- GenerateShortUID ;;
      exists_ <- query (role_uid_exists orgID uid) ;;
      if exists_ then generateNewRoleUID_loop attempts' orgID else ret uid
  end.

Definition generateNewRoleUID (orgID : Z) : M string :=
  generateNewRoleUID_loop 3 orgID.

(** The body of the [if !has] branch of [getOrCreateManagedRole]. *)
Definition createManagedRole (orgID : Z) (name : string) (add : roleAdder) : M Role :=
  uid <- generateNewRoleUID orgID ;;
  role <- statement (insert_role (mkRole 0 orgID uid name)) ;;
  add role ;;;
  ret role.

(** [Get] answers [has, err]; [has] is false when the statement failed,
    so the creation branch runs also in that case, and [err] is looked at
    only afterwards. *)
Definition getOrCreateManagedRole (orgID : Z) (name : string) (add : roleAdder) : M Role := λ w,
  match query (get_role_by_name orgID name) w with
  | (Ok (Some role), w1) => (Ok role, w1)
  | (Ok None, w1) => createManagedRole orgID name add w1
  | (Err err, w1) =>
      match createManagedRole orgID name add w1 with
      | (Ok _, w2) => (Err err, w2)
      | (Err e, w2) => (Err e, w2)
      end
  end.

Definition insert_user_role (x : UserRole) (t : Tables) : Tables :=
  mkTables (tbl_role t) (tbl_permission t) (tbl_user_role t ++ [x]) (tbl_team_role t)
    (tbl_builtin_role t) (tbl_user t) (tbl_team t) (tbl_org_user t).

Definition insert_team_role (x : TeamRole) (t : Tables) : Tables :=
  mkTables (tbl_role t) (tbl_permission t) (tbl_user_role t) (tbl_team_role t ++ [x])
    (tbl_builtin_role t) (tbl_user t) (tbl_team t) (tbl_org_user t).

Definition insert_builtin_role (x : BuiltinRole) (t : Tables) : Tables :=
  mkTables (tbl_role t) (tbl_permission t) (tbl_user_role t) (tbl_team_role t)
    (tbl_builtin_role t ++ [x]) (tbl_user t) (tbl_team t) (tbl_org_user t).

Definition userAdder (orgID userID : Z) : roleAdder := λ role,
  res <- query (λ t, filter (λ x, ur_OrgID x = orgID ∧ ur_UserID x = userID
                                   ∧ ur_RoleID x = role_ID role) (tbl_user_role t)) ;;
  if bool_decide (List.length res = 1%nat) then fail (ErrMsg "role is already added to this user")
  else
    exec (insert_user_role (mkUserRole orgID userID (role_ID role))) ;;;
    zClient_Write [mkTupleKey ("user:" +:+ FormatInt userID) "assignee"
                     ("role:" +:+ role_UID role) false].

Definition teamAdder (orgID teamID : Z) : roleAdder := λ role,
  res <- query (λ t, filter (λ x, tr_OrgID x = orgID ∧ tr_TeamID x = teamID
                                   ∧ tr_RoleID x = role_ID role) (tbl_team_role t)) ;;
  if bool_decide (List.length res = 1%nat) then fail (ErrMsg "role is already added to this team")
  else
    exec (insert_team_role (mkTeamRole orgID teamID (role_ID role))) ;;;
    zClient_Write [mkTupleKey ("team:" +:+ FormatInt teamID) "assignee"
                     ("role:" +:+ role_UID role) false].

Definition builtInRoleAdder (orgID : Z) (builtinRole : string) : roleAdder := λ role,
  res <- query (λ t, filter (λ x, br_RoleID x = role_ID role ∧ br_Role x = builtinRole
                                   ∧ br_OrgID x = orgID) (tbl_builtin_role t)) ;;
  if bool_decide (List.length res = 1%nat)
  then fail (ErrMsg "built-in role already has the role granted")
  else
    exec (insert_builtin_role (mkBuiltinRole (role_ID role) orgID builtinRole)) ;;;
    zClient_Write [mkTupleKey (GenerateBasicRoleResource builtinRole orgID) "assignee"
                     ("role:" +:+ role_UID role) false].

(** The tuples built by the first loop of [setResourcePermission]. *)
Definition grantTuples (role : Role) (scope : string) (cmd : SetResourcePermissionCommand)
    : list TupleKey :=
  (λ a,
     let container :=
       if bool_decide (cmd_Resource cmd ≠ "folders") then "" else FolderContainer in
     let '(relation, object) := ConvertToRelationObject a scope (cmd_ResourceID cmd) container in
     mkTupleKey ("role:" +:+ role_UID role) relation object true)
    <$> cmd_Actions cmd.

Definition setResourcePermission (s : store) (orgID : Z) (roleName : string)
    (adder : roleAdder) (cmd : SetResourcePermissionCommand) : M ResourcePermission :=
  role <- getOrCreateManagedRole orgID roleName adder ;;
  let scope := Scope [cmd_Resource cmd; cmd_ResourceAttribute cmd; cmd_ResourceID cmd] in
  current <- query (select_current (role_ID role) scope) ;;
  let tuples := grantTuples role scope cmd in
  let '(missing, remove) := setResourcePermission_diff (cmd_Actions cmd) current in
  deletePermissions remove ;;;
  createPermissions s (role_ID role) (cmd_Resource cmd) (cmd_ResourceID cmd)
    (cmd_ResourceAttribute cmd) missing (cmd_Permission cmd) ;;;
  zClient_Write tuples ;;;
  permissions <- getPermissions (cmd_Resource cmd) (cmd_ResourceID cmd)
                   (cmd_ResourceAttribute cmd) (role_ID role) ;;
  match flatPermissionsToResourcePermission scope permissions with
  | None => ret emptyResourcePermission
  | Some permission => ret permission
  end.

Definition run_hook {S} (hook : option (Z → S → string → string → M unit))
    (orgID : Z) (subject : S) (cmd : SetResourcePermissionCommand) : M unit :=
  match hook with
  | Some h => h orgID subject (cmd_ResourceID cmd) (cmd_Permission cmd)
  | None => ret tt
  end.

Definition setUserResourcePermission (s : store) (orgID : Z) (user : User)
    (cmd : SetResourcePermissionCommand) (hook : UserResourceHookFunc) : M ResourcePermission :=
  permission <- setResourcePermission s orgID (ManagedUserRoleName (User_ID user))
                  (userAdder orgID (User_ID user)) cmd ;;
  run_hook hook orgID user cmd ;;;
  ret permission.

Definition SetUserResourcePermission (s : store) (orgID : Z) (usr : User)
    (cmd : SetResourcePermissionCommand) (hook : UserResourceHookFunc) : M ResourcePermission :=
  if bool_decide (User_ID usr = 0) then fail ErrUserNotFound
  else WithTransactionalDbSession (setUserResourcePermission s orgID usr cmd hook).

Definition setTeamResourcePermission (s : store) (orgID teamID : Z)
    (cmd : SetResourcePermissionCommand) (hook : TeamResourceHookFunc) : M ResourcePermission :=
  permission <- setResourcePermission s orgID (ManagedTeamRoleName teamID)
                  (teamAdder orgID teamID) cmd ;;
  run_hook hook orgID teamID cmd ;;;
  ret permission.

Definition SetTeamResourcePermission (s : store) (orgID teamID : Z)
    (cmd : SetResourcePermissionCommand) (hook : TeamResourceHookFunc) : M ResourcePermission :=
  if bool_decide (teamID = 0) then fail ErrTeamNotFound
  else WithTransactionalDbSession (setTeamResourcePermission s orgID teamID cmd hook).

Definition setBuiltInResourcePermission (s : store) (orgID : Z) (builtInRole : string)
    (cmd : SetResourcePermissionCommand) (hook : BuiltinResourceHookFunc)
    : M ResourcePermission :=
  permission <- setResourcePermission s orgID (ManagedBuiltInRoleName builtInRole)
                  (builtInRoleAdder orgID builtInRole) cmd ;;
  run_hook hook orgID builtInRole cmd ;;;
  ret permission.

Definition SetBuiltInResourcePermission (s : store) (orgID : Z) (builtInRole : string)
    (cmd : SetResourcePermissionCommand) (hook : BuiltinResourceHookFunc)
    : M ResourcePermission :=
  if negb (RoleType_IsValid builtInRole) || bool_decide (builtInRole = RoleGrafanaAdmin)
  then fail (ErrMsg ("invalid role: " +:+ builtInRole))
  else WithTransactionalDbSession (setBuiltInResourcePermission s orgID builtInRole cmd hook).

(** The subject dispatch of the batch loop: [None] when the command
    matches none of the three branches, in which case [p] stays [nil] and
    [err] keeps the [nil] it had. *)
Definition dispatch (s : store) (orgID : Z) (cmd : SetResourcePermissionsCommand)
    (hooks : ResourceHooks) : option (M ResourcePermission) :=
  if bool_decide (User_ID (cmds_User cmd) ≠ 0) then
    Some (setUserResourcePermission s orgID (cmds_User cmd) (cmds_Command cmd) (hooks_User hooks))
  else if bool_decide (cmds_TeamID cmd ≠ 0) then
    Some (setTeamResourcePermission s orgID (cmds_TeamID cmd) (cmds_Command cmd)
            (hooks_Team hooks))
  else if RoleType_IsValid (cmds_BuiltinRole cmd)
          || bool_decide (cmds_BuiltinRole cmd = RoleGrafanaAdmin) then
    Some (setBuiltInResourcePermission s orgID (cmds_BuiltinRole cmd) (cmds_Command cmd)
            (hooks_BuiltInRole hooks))
  else None.

(** The callback of [SetResourcePermissions]; [permissions] is the slice
    captured from the enclosing function, returned next to the callback's
    own result. *)
Fixpoint SetResourcePermissions_loop (s : store) (orgID : Z)
    (commands : list SetResourcePermissionsCommand) (hooks : ResourceHooks)
    (permissions : list ResourcePermission) (w : World)
    : list ResourcePermission * (Result unit * World) :=
  match commands with
  | [] => (permissions, (Ok tt, w))
  | cmd :: commands' =>
      match dispatch s orgID cmd hooks with
      | None => SetResourcePermissions_loop s orgID commands' hooks permissions w
      | Some m =>
          match m w with
          | (Err err, w') => (permissions, (Err err, w'))
          | (Ok p, w') => SetResourcePermissions_loop s orgID commands' hooks (permissions ++ [p]) w'
          end
      end
  end.

(** [SetResourcePermissions] returns the captured slice together with the
    transaction's error, if any. *)
Definition SetResourcePermissions (s : store) (orgID : Z)
    (commands : list SetResourcePermissionsCommand) (hooks : ResourceHooks) (w : World)
    : (list ResourcePermission * Result unit) * World :=
  let run := SetResourcePermissions_loop s orgID commands hooks [] in
  let '(err, w') := WithTransactionalDbSession (λ w0, (run w0).2) w in
  (((run w).1, err), w').

Record DeleteResourcePermissionsCmd := mkDeleteCmd {
  del_Resource : string;
  del_ResourceAttribute : string;
  del_ResourceID : string;
}.

Definition DeleteResourcePermissions (orgID : Z) (cmd : DeleteResourcePermissionsCmd) : M unit :=
  let scope := Scope [del_Resource cmd; del_ResourceAttribute cmd; del_ResourceID cmd] in
  WithTransactionalDbSession
    (permissionIDs <- query (select_ids_by_scope scope orgID) ;;
     deletePermissions permissionIDs).

(** ** Full resync of org memberships *)

(** The two tuples [syncOrgMembership] derives from one [org_user] row. *)
Definition memberTuple (memb : membership) : TupleKey :=
  mkTupleKey ("user:" +:+ FormatInt (memb_UserId memb)) "member"
    ("org:" +:+ FormatInt (memb_OrgId memb)) false.

Definition basicRoleTuple (memb : membership) : TupleKey :=
  mkTupleKey ("user:" +:+ FormatInt (memb_UserId memb)) "assignee"
    (GenerateBasicRoleResource (memb_Role memb) (memb_OrgId memb)) false.

(** The key of the [tupleKeys] map. *)
Definition tupleMapKey (key : TupleKey) : string :=
  tk_User key +:+ tk_Relation key +:+ tk_Object key.

(** The body of the [rows.Next()] loop. *)
Definition collect_step (tupleKeys : gmap string TupleKey) (memb : membership)
    : gmap string TupleKey :=
  let key := memberTuple memb in
  let tupleKeys := <[tupleMapKey key := key]> tupleKeys in
  let key := basicRoleTuple memb in
  <[tupleMapKey key := key]> tupleKeys.

Definition collectTuples (rows : list membership) : gmap string TupleKey :=
  foldl collect_step ∅ rows.

(** "Convert map to slice": the map is ranged over in the order of
    [map_to_list]. *)
Definition flattenTuples (tupleKeys : gmap string TupleKey) : list TupleKey :=
  (map_to_list tupleKeys).*2.

(** The batch loop [for i := 0; i < len(flatTuples); i += batchSize];
    [fuel] bounds the number of iterations. *)
Fixpoint writeBatches (fuel : nat) (batchSize : nat) (flatTuples : list TupleKey) (i : nat)
    : M unit :=
  match fuel with
  | O => ret tt
  | S fuel' =>
      if bool_decide (i < List.length flatTuples)%nat then
        let end_ := (i + batchSize)%nat in
        let end_ := if bool_decide (List.length flatTuples < end_)%nat
                    then List.length flatTuples else end_ in
        zClient_Write (take (end_ - i) (drop i flatTuples)) ;;;
        writeBatches fuel' batchSize flatTuples (i + batchSize)
      else ret tt
  end.

(** A failed [rows.Scan] returns from the callback like a failed
    statement, so reading the rows is one fallible statement. *)
Definition syncOrgMembership : M unit :=
  rows <- WithDbSession (query tbl_org_user) ;;
  let tupleKeys := collectTuples rows in
  let flatTuples := flattenTuples tupleKeys in
  let batchSize := 100%nat in
  writeBatches (List.length flatTuples) batchSize flatTuples 0.

(** A hook that respects the engine the way the store does; [nil] does. *)
Definition hook_engine_ok {S} (hook : option (Z → S → string → string → M unit)) : Prop :=
  ∀ h, hook = Some h → ∀ orgID subject resourceID permission,
    engine_ok (h orgID subject resourceID permission).

(** The shape shared by the three session-level grants. *)
Definition grantCallback (s : store) (orgID : Z) (roleName : string) (adder : roleAdder)
    (cmd : SetResourcePermissionCommand) (hook : M unit) : M ResourcePermission :=
  permission <- setResourcePermission s orgID roleName adder cmd ;;
  hook ;;;
  ret permission.

(** The outcome of a grant [m] run in [w] when a write to the engine
    fails: any error leaves the tables as they were, and a run whose first
    RPC fails is an error that adds nothing to the engine's log. *)
Definition failedWriteOutcome (m : M ResourcePermission) (w : World) : Prop :=
  (∀ e, (m w).1 = Err e → tables (m w).2 = tables w)
  ∧ (zfault w (zcalls w) = true →
     (∃ e, (m w).1 = Err e) ∧ tables (m w).2 = tables w ∧ zlog (m w).2 = zlog w).

(** A batch command that names no subject: no user, no team, and a
    built-in role that is neither a valid role type nor the Grafana admin
    role. *)
Definition noSubject (cmd : SetResourcePermissionsCommand) : Prop :=
  User_ID (cmds_User cmd) = 0 ∧ cmds_TeamID cmd = 0
  ∧ RoleType_IsValid (cmds_BuiltinRole cmd) = false
  ∧ cmds_BuiltinRole cmd ≠ RoleGrafanaAdmin.

(** The tuples derived from the membership rows, before deduplication. *)
Definition derivedTuples (rows : list membership) : list TupleKey :=
  rows ≫= (λ memb, [memberTuple memb; basicRoleTuple memb]).


End Store.

(** The rows [DeleteResourcePermissions] selects: those at the scope whose
    owning role exists and belongs to the org. *)
Definition selectedForDelete (scope : string) (orgID : Z) (t : Tables) (p : Permission) : Prop :=
  perm_Scope p = scope
  ∧ Exists (λ r, perm_RoleID p = role_ID r ∧ role_OrgID r = orgID) (tbl_role t).

Global Instance selectedForDelete_dec scope orgID t p :
  Decision (selectedForDelete scope orgID t p).
Proof. unfold selectedForDelete. apply _. Defined.

(** The world after [dbn] more successful read-only statements and [uidn]
    more identifiers drawn. *)
Definition consumed (dbn uidn : nat) (w : World) : World :=
  mkWorld (tables w) (dbn + db_calls w) (db_fault w) (zlog w) (zcalls w) (zfault w)
    (uidn + uid_calls w) (uid_gen w).

(** No session statement fails. *)
Definition noStorageFault (w : World) : Prop := ∀ n, db_fault w n = false.

(** Primary keys are unique. *)
Definition wf_tables (t : Tables) : Prop :=
  NoDup (role_ID <$> tbl_role t) ∧ NoDup (perm_ID <$> tbl_permission t).

(** A computation that writes neither roles nor permissions. *)
Definition keeps_roles_permissions {A} (m : M A) : Prop :=
  ∀ w r w', m w = (r, w') →
    tbl_role (tables w') = tbl_role (tables w)
    ∧ tbl_permission (tables w') = tbl_permission (tables w).

Definition adder_frame (add : roleAdder) : Prop :=
  ∀ role, keeps_roles_permissions (add role).

(** The stored permissions of a role at a scope. *)
Definition storedAt (roleID : Z) (scope : string) (t : Tables) : list Permission :=
  filter (λ p, perm_RoleID p = roleID ∧ perm_Scope p = scope) (tbl_permission t).

(** What [setResourcePermission] returns on success. *)
Definition grantResult (roleID : Z) (scope : string) (t : Tables) : ResourcePermission :=
  match flatPermissionsToResourcePermission scope (select_flat roleID scope t) with
  | None => emptyResourcePermission
  | Some permission => permission
  end.

(** The characters [strconv.FormatInt] produces in base 10. *)
Definition is_num_char (c : ascii) : bool :=
  bool_decide (c ∈ ["0"; "1"; "2"; "3"; "4"; "5"; "6"; "7"; "8"; "9"; "-"]%char).

Fixpoint all_num (s : string) : bool :=
  match s with
  | EmptyString => true
  | String c s' => is_num_char c && all_num s'
  end.

(** The string does not go on with a character of a number. *)
Definition starts_non_num (s : string) : Prop :=
  match s with
  | EmptyString => False
  | String c _ => is_num_char c = false
  end.

(** The subject, relation and object of a tuple. *)
Definition tripleOf (key : TupleKey) : string * string * string :=
  (tk_User key, tk_Relation key, tk_Object key).

(** [l] cut into consecutive batches of [n] elements, the last one
    possibly shorter; [fuel] bounds the number of batches. *)
Fixpoint chunks {A} (fuel n : nat) (l : list A) : list (list A) :=
  match fuel with
  | O => []
  | S fuel' =>
      match l with
      | [] => []
      | _ => take n l :: chunks fuel' n (drop n l)
      end
  end.

(** One RPC per batch, in order, stopping at the first error. *)
Definition writeAll (batches : list (list TupleKey)) : M unit :=
  foldr (λ batch rest, zClient_Write batch ;;; rest) (ret tt) batches.

(** The world after [n] more RPCs of which those in [log] were accepted. *)
Definition engineAfter (log : list (list TupleKey)) (n : nat) (w : World) : World :=
  mkWorld (tables w) (db_calls w) (db_fault w) (zlog w ++ log) (n + zcalls w) (zfault w)
    (uid_calls w) (uid_gen w).


(** ** The in-memory action sets *)

(** [InMemoryActionSets]: the [actionSets] map from action-set name to
    its actions (the logger is left out). *)
Record InMemoryActionSets := mkInMemoryActionSets {
  actionSets : gmap string (list string);
}.

(** [NewActionSetService]. *)
Definition NewActionSetService : InMemoryActionSets := mkInMemoryActionSets ∅.

(** [GetActionSet]; Go's [nil] slice is the empty list. *)
Definition GetActionSet (s : InMemoryActionSets) (actionName : string) : list string :=
  match actionSets s !! actionName with
  | None => []
  | Some actionSet => actionSet
  end.

(** [StoreActionSet]. *)
Definition StoreActionSet (s : InMemoryActionSets) (resource permission : string)
    (actions : list string) : InMemoryActionSets :=
  let name := GetActionSetName resource permission in
  mkInMemoryActionSets (<[name := actions]> (actionSets s)).

(** A sequence of [StoreActionSet] calls on a fresh service. *)
Definition storeAll (calls : list (string * string * list string)) : InMemoryActionSets :=
  foldl (λ s call, StoreActionSet s call.1.1 call.1.2 call.2) NewActionSetService calls.

(** ** Grouping query results by assignment *)

(** [m[k] = append(m[k], x)] on a Go map of slices. *)
Definition appendAt {K} `{Countable K} {A} (m : gmap K (list A)) (k : K) (x : A)
    : gmap K (list A) :=
  <[k := default [] (m !! k) ++ [x]]> m.

(** The three maps of [groupPermissionsByAssignment]. *)
Record Grouped := mkGrouped {
  grp_users : gmap Z (list flatResourcePermission);
  grp_teams : gmap Z (list flatResourcePermission);
  grp_builtins : gmap string (list flatResourcePermission);
}.

Definition group_step (g : Grouped) (p : flatResourcePermission) : Grouped :=
  if bool_decide (frp_UserId p ≠ 0) then
    mkGrouped (appendAt (grp_users g) (frp_UserId p) p) (grp_teams g) (grp_builtins g)
  else if bool_decide (frp_TeamId p ≠ 0) then
    mkGrouped (grp_users g) (appendAt (grp_teams g) (frp_TeamId p) p) (grp_builtins g)
  else if bool_decide (frp_BuiltInRole p ≠ "") then
    mkGrouped (grp_users g) (grp_teams g) (appendAt (grp_builtins g) (frp_BuiltInRole p) p)
  else g.

Definition groupPermissionsByAssignment (permissions : list flatResourcePermission)
    : Grouped :=
  foldl group_step (mkGrouped ∅ ∅ ∅) permissions.

(** The tail of [getResourcePermissions], from the rows of the query to
    the result: the groups of users, then of teams, then of built-in
    roles, each map ranged over in the order of [map_to_list]. *)
Definition getResourcePermissions_result (scope : string)
    (queryResults : list flatResourcePermission) : list ResourcePermission :=
  let g := groupPermissionsByAssignment queryResults in
  let result := [] in
  let result :=
    foldl (λ result p, result ++ flatPermissionsToResourcePermissions scope p)
      result (map_to_list (grp_users g)).*2 in
  let result :=
    foldl (λ result p, result ++ flatPermissionsToResourcePermissions scope p)
      result (map_to_list (grp_teams g)).*2 in
  let result :=
    foldl (λ result p, result ++ flatPermissionsToResourcePermissions scope p)
      result (map_to_list (grp_builtins g)).*2 in
  result.

(** The row that carries a subject: a user, else a team, else a built-in
    role. *)
Definition hasSubject (p : flatResourcePermission) : Prop :=
  frp_UserId p ≠ 0 ∨ frp_TeamId p ≠ 0 ∨ frp_BuiltInRole p ≠ "".

Global Instance hasSubject_dec p : Decision (hasSubject p).
Proof. unfold hasSubject. apply _. Defined.

(** [None] for the empty list. *)
Definition nonempty {A} (l : list A) : option (list A) :=
  match l with
  | [] => None
  | _ => Some l
  end.

(** ** Package [database]: indexing query results by user *)

(** The row type [UserRBACPermission] of [SearchUsersPermissions]. *)
Record UserRBACPermission := mkUserRBACPermission {
  urp_UserID : Z;
  urp_Action : string;
  urp_Scope : string;
}.

(** The [accesscontrol.Permission] values [SearchUsersPermissions] builds
    carry an action and a scope only. *)
Definition actionScope (action scope : string) : Permission :=
  mkPermission 0 0 action scope "" "" "".

(** The last loop of [SearchUsersPermissions]. *)
Definition SearchUsersPermissions_mapped (dbPerms : list UserRBACPermission)
    : gmap Z (list Permission) :=
  foldl (λ mapped row,
           appendAt mapped (urp_UserID row) (actionScope (urp_Action row) (urp_Scope row)))
    ∅ dbPerms.

(** The row type [UserOrgRole] of [GetUsersBasicRoles]. *)
Record UserOrgRole := mkUserOrgRole {
  uor_UserID : Z;
  uor_OrgRole : string;
  uor_IsAdmin : bool;
}.

(** ** Package [database]: deleting a subject's permissions *)

(** Modelled from the spec: [accesscontrol.GlobalOrgID] is declared in
    package [accesscontrol]; "OrgID = 0 denotes a global (cross-org)
    assignment". *)
Definition GlobalOrgID : Z := 0.

Definition set_roles (rs : list Role) (t : Tables) : Tables :=
  mkTables rs (tbl_permission t) (tbl_user_role t) (tbl_team_role t)
    (tbl_builtin_role t) (tbl_user t) (tbl_team t) (tbl_org_user t).

Definition set_user_roles (xs : list UserRole) (t : Tables) : Tables :=
  mkTables (tbl_role t) (tbl_permission t) xs (tbl_team_role t)
    (tbl_builtin_role t) (tbl_user t) (tbl_team t) (tbl_org_user t).

Definition set_team_roles (xs : list TeamRole) (t : Tables) : Tables :=
  mkTables (tbl_role t) (tbl_permission t) (tbl_user_role t) xs
    (tbl_builtin_role t) (tbl_user t) (tbl_team t) (tbl_org_user t).

(** [DELETE FROM user_role WHERE user_id = ?], with [AND org_id = ?] when
    the org is not the global one. *)
Definition delete_user_roles (orgID userID : Z) (t : Tables) : Tables :=
  if bool_decide (orgID ≠ GlobalOrgID) then
    set_user_roles
      (filter (λ x, ¬ (ur_UserID x = userID ∧ ur_OrgID x = orgID)) (tbl_user_role t)) t
  else
    set_user_roles (filter (λ x, ¬ (ur_UserID x = userID)) (tbl_user_role t)) t.

(** [DELETE FROM team_role WHERE team_id = ? AND org_id = ?]. *)
Definition delete_team_roles (orgID teamID : Z) (t : Tables) : Tables :=
  set_team_roles
    (filter (λ x, ¬ (tr_TeamID x = teamID ∧ tr_OrgID x = orgID)) (tbl_team_role t)) t.

(** [DELETE FROM permission WHERE scope = ?]. *)
Definition delete_permissions_at (scope : string) (t : Tables) : Tables :=
  set_permissions (filter (λ p, ¬ (perm_Scope p = scope)) (tbl_permission t)) t.

(** [SELECT id FROM role WHERE name = ?]. *)
Definition select_role_ids (name : string) (t : Tables) : list Z :=
  role_ID <$> filter (λ r, role_Name r = name) (tbl_role t).

(** [SELECT id FROM role WHERE name = ? AND org_id = ?]. *)
Definition select_role_ids_in_org (name : string) (orgID : Z) (t : Tables) : list Z :=
  role_ID <$> filter (λ r, role_Name r = name ∧ role_OrgID r = orgID) (tbl_role t).

(** [DELETE FROM permission WHERE role_id IN (roleIDs)]. *)
Definition delete_permissions_of_roles (roleIDs : list Z) (t : Tables) : Tables :=
  set_permissions (filter (λ p, perm_RoleID p ∉ roleIDs) (tbl_permission t)) t.

(** [DELETE FROM role WHERE id IN (roleIDs)]. *)
Definition delete_roles_in (roleIDs : list Z) (t : Tables) : Tables :=
  set_roles (filter (λ r, role_ID r ∉ roleIDs) (tbl_role t)) t.

Section Database.
Context `{External}.

(** The end shared by [DeleteUserPermissions] and [DeleteTeamPermissions]:
    nothing more when no managed role was found, else its permissions and
    then the roles themselves are deleted. *)
Definition deleteManagedRoles (roleIDs : list Z) : M unit :=
  if bool_decide (List.length roleIDs = 0%nat) then ret tt
  else
    exec (delete_permissions_of_roles roleIDs) ;;;
    exec (delete_roles_in roleIDs).

Definition DeleteUserPermissions (orgID userID : Z) : M unit :=
  WithDbSession
    (exec (delete_user_roles orgID userID) ;;;
     (if bool_decide (orgID = GlobalOrgID)
      then exec (delete_permissions_at (Scope ["users"; "id"; FormatInt userID]))
      else ret tt) ;;;
     roleIDs <- (if bool_decide (orgID ≠ GlobalOrgID)
                 then query (select_role_ids_in_org (ManagedUserRoleName userID) orgID)
                 else query (select_role_ids (ManagedUserRoleName userID))) ;;
     deleteManagedRoles roleIDs).

Definition DeleteTeamPermissions (orgID teamID : Z) : M unit :=
  WithDbSession
    (exec (delete_team_roles orgID teamID) ;;;
     exec (delete_permissions_at (Scope ["teams"; "id"; FormatInt teamID])) ;;;
     roleIDs <- query (select_role_ids_in_org (ManagedTeamRoleName teamID) orgID) ;;
     deleteManagedRoles roleIDs).

(** One iteration of the last loop of [GetUsersBasicRoles]. *)
Definition basicRoles_step (roles : gmap Z (list string)) (row : UserOrgRole)
    : gmap Z (list string) :=
  let roles :=
    if bool_decide (uor_OrgRole row ≠ "")
    then <[uor_UserID row := [uor_OrgRole row]]> roles else roles in
  if uor_IsAdmin row then appendAt roles (uor_UserID row) RoleGrafanaAdmin else roles.

(** The last loop of [GetUsersBasicRoles]. *)
Definition GetUsersBasicRoles_roles (dbRoles : list UserOrgRole) : gmap Z (list string) :=
  foldl basicRoles_step ∅ dbRoles.

(** What one more row of a user makes of the roles collected for that
    user so far. *)
Definition userRoles_step (collected : list string) (row : UserOrgRole) : list string :=
  (if bool_decide (uor_OrgRole row ≠ "") then [uor_OrgRole row] else collected)
  ++ (if uor_IsAdmin row then [RoleGrafanaAdmin] else []).

End Database.

(** Grouping by an optional key: the map that sends a key to the values
    of the elements grouped under it, in input order. *)
Definition groupBy {A B K} `{Countable K} (key : A → option K) (f : A → B) (l : list A)
    : gmap K (list B) :=
  foldl (λ m x, match key x with Some k => appendAt m k (f x) | None => m end) ∅ l.

(** The keys under which [groupPermissionsByAssignment] files a row. *)
Definition userKey (p : flatResourcePermission) : option Z :=
  if bool_decide (frp_UserId p ≠ 0) then Some (frp_UserId p) else None.

Definition teamKey (p : flatResourcePermission) : option Z :=
  if bool_decide (frp_UserId p ≠ 0) then None
  else if bool_decide (frp_TeamId p ≠ 0) then Some (frp_TeamId p) else None.

Definition builtinKey (p : flatResourcePermission) : option string :=
  if bool_decide (frp_UserId p ≠ 0) then None
  else if bool_decide (frp_TeamId p ≠ 0) then None
  else if bool_decide (frp_BuiltInRole p ≠ "") then Some (frp_BuiltInRole p) else None.

(** The managed roles [DeleteUserPermissions] looks up: those of the
    user's managed name, in the org unless the org is the global one. *)
Definition managedUserRole `{External} (orgID userID : Z) (r : Role) : Prop :=
  role_Name r = ManagedUserRoleName userID ∧ (orgID ≠ GlobalOrgID → role_OrgID r = orgID).

Global Instance managedUserRole_dec `{External} orgID userID r :
  Decision (managedUserRole orgID userID r).
Proof. unfold managedUserRole. apply _. Defined.

(** The managed roles [DeleteTeamPermissions] looks up. *)
Definition managedTeamRole `{External} (orgID teamID : Z) (r : Role) : Prop :=
  role_Name r = ManagedTeamRoleName teamID ∧ role_OrgID r = orgID.

Global Instance managedTeamRole_dec `{External} orgID teamID r :
  Decision (managedTeamRole orgID teamID r).
Proof. unfold managedTeamRole. apply _. Defined.

(** The tables other than role, permission and the one assignment table
    a deletion works on. *)
Definition sameSubjects (t t' : Tables) : Prop :=
  tbl_builtin_role t' = tbl_builtin_role t ∧ tbl_user t' = tbl_user t
  ∧ tbl_team t' = tbl_team t ∧ tbl_org_user t' = tbl_org_user t.

(** Every permission whose role was a row of [t] still has its role in
    [t']. *)
Definition noNewOrphan (t t' : Tables) : Prop :=
  Forall (λ p, perm_RoleID p ∈ role_ID <$> tbl_role t → perm_RoleID p ∈ role_ID <$> tbl_role t')
    (tbl_permission t').

(** ** The three grants side by side *)

(** The tuple an adder writes for a new managed role. *)
Definition assigneeTuple (subject : string) (role : Role) : TupleKey :=
  mkTupleKey subject "assignee" ("role:" +:+ role_UID role) false.

(** A grant operation run without hook, with the subject as the engine
    names it, the name of its managed role, the assignment row its adder
    inserts, and the adder. *)
Record Grant := mkGrant {
  g_subject : string;
  g_roleName : string;
  g_assign : Role → Tables → Tables;
  g_adder : roleAdder;
  g_run : M ResourcePermission;
}.

Section Grants.
Context `{External}.

Definition userGrant (s : store) (orgID : Z) (usr : User) (cmd : SetResourcePermissionCommand)
    : Grant :=
  mkGrant ("user:" +:+ FormatInt (User_ID usr)) (ManagedUserRoleName (User_ID usr))
    (λ role, insert_user_role (mkUserRole orgID (User_ID usr) (role_ID role)))
    (userAdder orgID (User_ID usr))
    (SetUserResourcePermission s orgID usr cmd None).

Definition teamGrant (s : store) (orgID teamID : Z) (cmd : SetResourcePermissionCommand)
    : Grant :=
  mkGrant ("team:" +:+ FormatInt teamID) (ManagedTeamRoleName teamID)
    (λ role, insert_team_role (mkTeamRole orgID teamID (role_ID role)))
    (teamAdder orgID teamID)
    (SetTeamResourcePermission s orgID teamID cmd None).

Definition builtInGrant (s : store) (orgID : Z) (builtInRole : string)
    (cmd : SetResourcePermissionCommand) : Grant :=
  mkGrant (GenerateBasicRoleResource builtInRole orgID) (ManagedBuiltInRoleName builtInRole)
    (λ role, insert_builtin_role (mkBuiltinRole (role_ID role) orgID builtInRole))
    (builtInRoleAdder orgID builtInRole)
    (SetBuiltInResourcePermission s orgID builtInRole cmd None).

Definition grants (s : store) (orgID : Z) (usr : User) (teamID : Z) (builtInRole : string)
    (cmd : SetResourcePermissionCommand) : list Grant :=
  [userGrant s orgID usr cmd; teamGrant s orgID teamID cmd;
   builtInGrant s orgID builtInRole cmd].

End Grants.

(** What a successful adder has done: one assignment row, one tuple. *)
Definition adder_assigns (add : roleAdder) (subject : string)
    (assign : Role → Tables → Tables) : Prop :=
  ∀ role w u w', add role w = (Ok u, w') →
    tables w' = assign role (tables w) ∧ zlog w' = zlog w ++ [[assigneeTuple subject role]].

(** All tables but [permission] agree. *)
Definition sameExceptPermissions (t t' : Tables) : Prop :=
  tbl_role t' = tbl_role t ∧ tbl_user_role t' = tbl_user_role t
  ∧ tbl_team_role t' = tbl_team_role t ∧ tbl_builtin_role t' = tbl_builtin_role t
  ∧ tbl_user t' = tbl_user t ∧ tbl_team t' = tbl_team t ∧ tbl_org_user t' = tbl_org_user t.

(** The stored row [n] is the inserted value [p] under the identifier the
    store gave it. *)
Definition storedAs (n p : Permission) : Prop :=
  n = mkPermission (perm_ID n) (perm_RoleID p) (perm_Action p) (perm_Scope p) (perm_Kind p)
        (perm_Attribute p) (perm_Identifier p).

(** The permissions that are not those of the role at the scope. *)
Definition storedElsewhere (roleID : Z) (scope : string) (t : Tables) : list Permission :=
  filter (λ p, ¬ (perm_RoleID p = roleID ∧ perm_Scope p = scope)) (tbl_permission t).

Global Instance noSubject_dec `{External} cmd : Decision (noSubject cmd).
Proof. unfold noSubject. apply _. Defined.

(** The batch's view of the outcome of one grant. *)
Definition asBatch (out : Result ResourcePermission * World)
    : (list ResourcePermission * Result unit) * World :=
  match out with
  | (Ok p, w') => (([p], Ok tt), w')
  | (Err e, w') => (([], Err e), w')
  end.

(** ** A concrete choice of the collaborators

    Used where a closed example needs the store to run.  The built-in role
    names are those listed in the comments of package [database]: the
    basic roles Admin, Editor, Viewer and None, and Grafana Admin. *)
Definition sampleExternal : External := {|
  ManagedUserRoleName := λ id, "managed:users:" +:+ FormatInt id +:+ ":permissions";
  ManagedTeamRoleName := λ id, "managed:teams:" +:+ FormatInt id +:+ ":permissions";
  ManagedBuiltInRoleName := λ r, "managed:builtins:" +:+ ToLower r +:+ ":permissions";
  RoleType_IsValid := λ r, bool_decide (r ∈ ["Viewer"; "Editor"; "Admin"; "None"]);
  RoleGrafanaAdmin := "Grafana Admin";
  SplitScope := λ scope, (scope, "", "");
  FolderContainer := "folder";
  ConvertToRelationObject := λ action scope resourceID container, (action, scope);
  GenerateBasicRoleResource := λ role orgID,
    "role:basic_" +:+ ToLower role +:+ "_" +:+ FormatInt orgID;
|}.

(** ** Sample worlds for the closed examples *)

Definition emptyTables : Tables := mkTables [] [] [] [] [] [] [] [].

(** A world over [t] in which no statement fails, the RPCs fail as [zf]
    says, and the drawn identifiers are uid0, uid1, ... *)
Definition sampleWorld (t : Tables) (zf : nat → bool) : World :=
  mkWorld t 0 (λ _, false) [] 0 zf 0 (λ n, "uid" +:+ pretty n).

Definition sampleCmd : SetResourcePermissionCommand :=
  mkCmd ["dashboards:read"; "dashboards:write"] "dashboards" "uid" "abc" "Edit".

Definition noHooks : ResourceHooks := mkHooks None None None.

(** A role table in which org 1 holds roles under uid0, uid1 and uid2. *)
Definition takenUIDs : Tables :=
  mkTables [mkRole 1 1 "uid0" "a"; mkRole 2 1 "uid1" "b"; mkRole 3 1 "uid2" "c"]
    [] [] [] [] [] [] [].

(** 120 members of org 1. *)
Definition manyRows : list membership :=
  (λ i, mkMembership 1 (Z.of_nat i) "Viewer") <$> seq 0 120.

(** A store of org 1 with the managed role of user 7 and that of team 3,
    each assigned and holding permissions on dashboard abc, and a custom
    role that holds a permission scoped to the user and one scoped to the
    team and is assigned to user 8 and to team 4. *)
Definition sampleStore : Tables :=
  mkTables
    [mkRole 1 1 "r1" "managed:users:7:permissions"; mkRole 2 1 "r2" "custom";
     mkRole 3 1 "r3" "managed:teams:3:permissions"]
    [mkPermission 1 1 "dashboards:read" "dashboards:uid:abc" "" "" "";
     mkPermission 2 1 "dashboards:delete" "dashboards:uid:abc" "" "" "";
     mkPermission 3 2 "users:read" "users:id:7" "" "" "";
     mkPermission 4 2 "teams:read" "teams:id:3" "" "" "";
     mkPermission 5 3 "dashboards:read" "dashboards:uid:abc" "" "" ""]
    [mkUserRole 1 7 1; mkUserRole 1 8 2]
    [mkTeamRole 1 3 3; mkTeamRole 1 4 2]
    []
    [mkUserRow 7 "u7" "u7@example.org" false]
    [mkTeamRow 3 "t3" "t3@example.org"]
    [].

(** A world over [t] in which the statements fail as [df] says and every
    RPC is accepted. *)
Definition faultyWorld (t : Tables) (df : nat → bool) : World :=
  mkWorld t 0 df [] 0 (λ _, false) 0 (λ n, "uid" +:+ pretty n).

(** * Properties *)

(** ** The permission differ *)

Lemma diff_fold missing remove current :
  foldl diff_step (missing, remove) current
  = (missing ∖ list_to_set (perm_Action <$> current), remove ++ removed missing current).
Proof.
  revert missing remove. induction current as [|p current IH]; intros missing remove; simpl.
  - f_equal; [set_solver | by rewrite app_nil_r].
  - case_bool_decide; rewrite IH; f_equal.
    + set_solver.
    + set_solver.
    + by rewrite <- app_assoc.
Qed.

Lemma removed_elem_of missing current id :
  id ∈ removed missing current ↔
  ∃ (i : nat) p, current !! i = Some p ∧ perm_ID p = id ∧
    (perm_Action p ∉ missing ∨
     ∃ (j : nat) q, (j < i)%nat ∧ current !! j = Some q ∧ perm_Action q = perm_Action p).
Proof.
  revert missing. induction current as [|p current IH]; intros missing; simpl.
  - split; [by intros ?%elem_of_nil | by intros (i & q & ? & _)].
  - case_bool_decide as Hin.
    + rewrite IH. split.
      * intros (i & q & Hi & Hid & Hq). exists (S i), q. split_and!; [done..|].
        destruct Hq as [Hq | (j & q' & Hj & Hq' & Heq)].
        -- destruct (decide (perm_Action q = perm_Action p)) as [Heq|Hne].
           ++ right. exists 0%nat, p. split_and!; [lia | done | done].
           ++ left. set_solver.
        -- right. exists (S j), q'. split_and!; [lia | done | done].
      * intros (i & q & Hi & Hid & Hq). destruct i as [|i]; simpl in Hi.
        -- simplify_eq. destruct Hq as [Hq | (j & _ & Hj & _)]; [done | lia].
        -- exists i, q. split_and!; [done..|].
           destruct Hq as [Hq | (j & q' & Hj & Hq' & Heq)]; [left; set_solver|].
           destruct j as [|j]; simpl in Hq'.
           ++ simplify_eq. left. set_solver.
           ++ right. exists j, q'. split_and!; [lia | done | done].
    + rewrite elem_of_cons, IH. split.
      * intros [-> | (i & q & Hi & Hid & Hq)].
        -- exists 0%nat, p. split_and!; [done..|]. by left.
        -- exists (S i), q. split_and!; [done..|].
           destruct Hq as [Hq | (j & q' & Hj & Hq' & Heq)]; [by left|].
           right. exists (S j), q'. split_and!; [lia | done | done].
      * intros (i & q & Hi & Hid & Hq). destruct i as [|i]; simpl in Hi.
        -- simplify_eq. by left.
        -- right. exists i, q. split_and!; [done..|].
           destruct Hq as [Hq | (j & q' & Hj & Hq' & Heq)]; [by left|].
           destruct j as [|j]; simpl in Hq'.
           ++ simplify_eq. left. congruence.
           ++ right. exists j, q'. split_and!; [lia | done | done].
Qed.

Lemma filter_ext_elem {A} (P Q : A → Prop) `{∀ x, Decision (P x)} `{∀ x, Decision (Q x)}
    (l : list A) :
  (∀ x, x ∈ l → (P x ↔ Q x)) → filter P l = filter Q l.
Proof.
  induction l as [|x l IH]; intros HPQ; [done|].
  rewrite !filter_cons. rewrite IH by (intros y Hy; apply HPQ; by right).
  pose proof (HPQ x ltac:(by left)) as Hx.
  destruct (decide (P x)), (decide (Q x)); tauto.
Qed.

Lemma removed_NoDup (missing : gset string) current :
  NoDup (perm_Action <$> current) →
  removed missing current = perm_ID <$> filter (λ p, perm_Action p ∉ missing) current.
Proof.
  revert missing. induction current as [|p current IH]; intros missing Hnd; [done|].
  simpl in Hnd. apply NoDup_cons in Hnd as [Hp Hnd]. simpl.
  rewrite filter_cons. case_bool_decide as Hin.
  - destruct (decide (perm_Action p ∉ missing)); [done|].
    rewrite IH by done. f_equal. apply filter_ext_elem. intros q Hq.
    assert (perm_Action q ≠ perm_Action p).
    { intros Heq. apply Hp. rewrite <- Heq. by apply list_elem_of_fmap_2. }
    set_solver.
  - destruct (decide (perm_Action p ∉ missing)); [|done].
    simpl. by rewrite IH.
Qed.

Lemma removed_empty current : removed ∅ current = perm_ID <$> current.
Proof. induction current as [|p current IH]; [done|]. simpl. by rewrite IH. Qed.

(** C2, as the code has it.  [missing] is the set of requested actions
    that no stored permission carries.  [remove] holds the identifier of
    every stored permission whose action was not requested, and also of
    every stored permission that repeats the action of an earlier one
    (only the first row of a requested action is kept).  When the stored
    actions are pairwise distinct, [remove] is exactly the identifiers of
    the permissions whose action was not requested; with no requested
    action, every stored permission is removed. *)
Theorem setResourcePermission_diff_spec (actions : list string) (current : list Permission) :
  let '(missing, remove) := setResourcePermission_diff actions current in
  missing = list_to_set actions ∖ list_to_set (perm_Action <$> current)
  ∧ (∀ id, id ∈ remove ↔
       ∃ (i : nat) p, current !! i = Some p ∧ perm_ID p = id ∧
         (perm_Action p ∉ actions ∨
          ∃ (j : nat) q, (j < i)%nat ∧ current !! j = Some q ∧ perm_Action q = perm_Action p))
  ∧ (NoDup (perm_Action <$> current) →
       remove = perm_ID <$> filter (λ p, perm_Action p ∉ actions) current)
  ∧ (actions = [] → remove = perm_ID <$> current).
Proof.
  unfold setResourcePermission_diff. rewrite diff_fold. simpl. split_and!.
  - done.
  - intros id. rewrite removed_elem_of. by setoid_rewrite elem_of_list_to_set.
  - intros Hnd. rewrite removed_NoDup by done. f_equal. apply filter_ext_elem.
    intros q _. by rewrite elem_of_list_to_set.
  - intros ->. apply removed_empty.
Qed.

(** The differ on a requested action stored once and on a revoke. *)
Lemma setResourcePermission_diff_spec_witness :
  let current := [mkPermission 1 1 "write" "s" "" "" ""; mkPermission 2 1 "delete" "s" "" "" ""] in
  NoDup (perm_Action <$> current)
  ∧ setResourcePermission_diff ["read"; "write"] current = ({["read"]}, [2])
  ∧ (setResourcePermission_diff ["read"; "write"] current).2
    = perm_ID <$> filter (λ p, perm_Action p ∉ ["read"; "write"]) current.
Proof.
  assert (NoDup (perm_Action <$>
    [mkPermission 1 1 "write" "s" "" "" ""; mkPermission 2 1 "delete" "s" "" "" ""])) as Hnd.
  { simpl. repeat constructor; set_solver. }
  split_and!; [exact Hnd | by vm_compute |].
  pose proof (setResourcePermission_diff_spec ["read"; "write"]
    [mkPermission 1 1 "write" "s" "" "" ""; mkPermission 2 1 "delete" "s" "" "" ""]) as Hspec.
  destruct (setResourcePermission_diff _ _) as [missing remove].
  destruct Hspec as (_ & _ & Hrm & _). exact (Hrm Hnd).
Defined.

(** C2 as stated fails on two stored rows of one requested action: the
    second row is removed although its action is in the desired set. *)
Lemma setResourcePermission_diff_duplicate :
  let current := [mkPermission 1 1 "read" "s" "" "" ""; mkPermission 2 1 "read" "s" "" "" ""] in
  (setResourcePermission_diff ["read"] current).2 = [2]
  ∧ perm_ID <$> filter (λ p, perm_Action p ∉ ["read"]) current = [].
Proof. split; by vm_compute. Qed.

(** ** Classification of flat permission rows *)


Lemma IsManaged_true p scope : IsManaged p scope = true ↔ managedRow scope p.
Proof.
  unfold IsManaged, managedRow. rewrite andb_true_iff, bool_decide_eq_true. done.
Qed.

Lemma IsInherited_true p scope : IsInherited p scope = true ↔ inheritedRow scope p.
Proof.
  unfold IsInherited, inheritedRow.
  rewrite andb_true_iff, negb_true_iff, bool_decide_eq_false. done.
Qed.

Lemma row_class_cases scope p :
  (managedRow scope p ∧ ¬ inheritedRow scope p ∧ ¬ provisionedRow p)
  ∨ (¬ managedRow scope p ∧ inheritedRow scope p ∧ ¬ provisionedRow p)
  ∨ (¬ managedRow scope p ∧ ¬ inheritedRow scope p ∧ provisionedRow p).
Proof.
  unfold managedRow, inheritedRow, provisionedRow.
  destruct (HasPrefix (frp_RoleName p) ManagedRolePrefix);
    destruct (decide (frp_Scope p = scope)); intuition congruence.
Qed.

Lemma buckets_fold scope b permissions :
  foldl (bucket_step scope) b permissions
  = mkBuckets (managed b ++ filter (managedRow scope) permissions)
      (inherited b ++ filter (inheritedRow scope) permissions)
      (provisioned b ++ filter provisionedRow permissions).
Proof.
  revert b. induction permissions as [|p permissions IH]; intros [m i v]; simpl.
  - by rewrite !app_nil_r.
  - rewrite IH. unfold bucket_step. rewrite !filter_cons.
    destruct (row_class_cases scope p) as [(Hm & Hi & Hp) | [(Hm & Hi & Hp) | (Hm & Hi & Hp)]].
    + rewrite (proj2 (IsManaged_true p scope) Hm). simpl.
      rewrite decide_True, (decide_False (P := inheritedRow scope p)),
        (decide_False (P := provisionedRow p)) by done.
      by rewrite <- app_assoc.
    + destruct (IsManaged p scope) eqn:EM; [by apply IsManaged_true in EM|].
      rewrite (proj2 (IsInherited_true p scope) Hi). simpl.
      rewrite (decide_False (P := managedRow scope p)), (decide_True (P := inheritedRow scope p)),
        (decide_False (P := provisionedRow p)) by done.
      by rewrite <- app_assoc.
    + destruct (IsManaged p scope) eqn:EM; [by apply IsManaged_true in EM|].
      destruct (IsInherited p scope) eqn:EI; [by apply IsInherited_true in EI|].
      simpl.
      rewrite (decide_False (P := managedRow scope p)),
        (decide_False (P := inheritedRow scope p)),
        (decide_True (P := provisionedRow p)) by done.
      by rewrite <- app_assoc.
Qed.

Lemma filter_three_way {A} (P Q R : A → Prop)
    `{∀ x, Decision (P x)} `{∀ x, Decision (Q x)} `{∀ x, Decision (R x)} (l : list A) :
  (∀ x, (P x ∧ ¬ Q x ∧ ¬ R x) ∨ (¬ P x ∧ Q x ∧ ¬ R x) ∨ (¬ P x ∧ ¬ Q x ∧ R x)) →
  filter P l ++ filter Q l ++ filter R l ≡ₚ l.
Proof.
  intros Hc. induction l as [|x l IH]; [done|].
  rewrite !filter_cons.
  destruct (Hc x) as [(? & ? & ?) | [(? & ? & ?) | (? & ? & ?)]];
    destruct (decide (P x)), (decide (Q x)), (decide (R x)); try tauto; simpl.
  - by rewrite IH.
  - rewrite <- Permutation_middle. by rewrite IH.
  - rewrite app_assoc, <- Permutation_middle, <- app_assoc. by rewrite IH.
Qed.

(** C5.  A row counts as managed exactly when its role name has the
    managed prefix and its scope is the queried scope, as inherited
    exactly when its role name has the managed prefix and its scope
    differs, and as provisioned otherwise; every row falls in exactly one
    of the three classes, the three buckets of
    [flatPermissionsToResourcePermissions] are the rows of each class in
    input order, together they hold every input row once, and the result
    is the aggregate of each non-empty bucket. *)
Theorem flatPermissionsToResourcePermissions_partition
    (scope : string) (permissions : list flatResourcePermission) :
  (∀ p, (IsManaged p scope = true ↔ managedRow scope p)
        ∧ (IsInherited p scope = true ↔ inheritedRow scope p)
        ∧ (IsManaged p scope = false ∧ IsInherited p scope = false ↔ provisionedRow p)
        ∧ ((managedRow scope p ∧ ¬ inheritedRow scope p ∧ ¬ provisionedRow p)
           ∨ (¬ managedRow scope p ∧ inheritedRow scope p ∧ ¬ provisionedRow p)
           ∨ (¬ managedRow scope p ∧ ¬ inheritedRow scope p ∧ provisionedRow p)))
  ∧ managed (buckets scope permissions) = filter (managedRow scope) permissions
  ∧ inherited (buckets scope permissions) = filter (inheritedRow scope) permissions
  ∧ provisioned (buckets scope permissions) = filter provisionedRow permissions
  ∧ managed (buckets scope permissions) ++ inherited (buckets scope permissions)
      ++ provisioned (buckets scope permissions) ≡ₚ permissions
  ∧ flatPermissionsToResourcePermissions scope permissions
    = omap (flatPermissionsToResourcePermission scope)
        [managed (buckets scope permissions); inherited (buckets scope permissions);
         provisioned (buckets scope permissions)].
Proof.
  split_and!.
  - intros p. split_and!.
    + apply IsManaged_true.
    + apply IsInherited_true.
    + pose proof (IsManaged_true p scope) as HM. pose proof (IsInherited_true p scope) as HI.
      destruct (row_class_cases scope p) as [(? & ? & ?) | [(? & ? & ?) | (? & ? & ?)]];
        destruct (IsManaged p scope), (IsInherited p scope); intuition congruence.
    + apply row_class_cases.
  - unfold buckets. by rewrite buckets_fold.
  - unfold buckets. by rewrite buckets_fold.
  - unfold buckets. by rewrite buckets_fold.
  - unfold buckets. rewrite buckets_fold. simpl.
    apply filter_three_way. intros p. apply row_class_cases.
  - unfold flatPermissionsToResourcePermissions, appendPermission. simpl.
    destruct (flatPermissionsToResourcePermission scope (managed _)),
      (flatPermissionsToResourcePermission scope (inherited _)),
      (flatPermissionsToResourcePermission scope (provisioned _)); done.
Qed.

(** ** Running the store monad *)

Lemma bind_Ok_inv {A B} (m : M A) (k : A → M B) w b w' :
  bind m k w = (Ok b, w') → ∃ a w1, m w = (Ok a, w1) ∧ k a w1 = (Ok b, w').
Proof.
  unfold bind. destruct (m w) as [[a|e] w1]; intros Hk; [by exists a, w1 | done].
Qed.

Lemma bind_Ok {A B} (m : M A) (k : A → M B) w a w1 :
  m w = (Ok a, w1) → bind m k w = k a w1.
Proof. unfold bind. by intros ->. Qed.

Lemma bind_Err {A B} (m : M A) (k : A → M B) w e w1 :
  m w = (Err e, w1) → bind m k w = (Err e, w1).
Proof. unfold bind. by intros ->. Qed.

Lemma statement_Ok {A} (q : Tables → A * Tables) w :
  db_fault w (db_calls w) = false →
  statement q w = (Ok (q (tables w)).1, set_tables (q (tables w)).2 (tick_db w)).
Proof. unfold statement. by intros ->. Qed.

Lemma statement_Ok_inv {A} (q : Tables → A * Tables) w a w' :
  statement q w = (Ok a, w') →
  db_fault w (db_calls w) = false
  ∧ a = (q (tables w)).1 ∧ w' = set_tables (q (tables w)).2 (tick_db w).
Proof. unfold statement. destruct (db_fault w (db_calls w)); naive_solver. Qed.

Lemma zClient_Write_Ok_inv tuples w u w' :
  zClient_Write tuples w = (Ok u, w') →
  zfault w (zcalls w) = false ∧ w' = log_z tuples (tick_z w).
Proof. unfold zClient_Write. destruct (zfault w (zcalls w)); naive_solver. Qed.

Lemma zClient_Write_fault tuples w :
  zfault w (zcalls w) = true → zClient_Write tuples w = (Err ErrWrite, tick_z w).
Proof. unfold zClient_Write. by intros ->. Qed.

(** ** Deleting the permissions of a scope *)

Lemma select_ids_by_scope_elem scope orgID t id :
  id ∈ select_ids_by_scope scope orgID t ↔
  ∃ p, p ∈ tbl_permission t ∧ perm_ID p = id ∧ selectedForDelete scope orgID t p.
Proof.
  unfold select_ids_by_scope, selectedForDelete. rewrite list_elem_of_bind. split.
  - intros (p & Hid & Hp). apply list_elem_of_bind in Hid as (r & Hid & Hr).
    case_bool_decide as Hc; [|by apply elem_of_nil in Hid].
    apply list_elem_of_singleton in Hid as ->. destruct Hc as (? & ? & ?).
    exists p. split_and!; [done..|]. apply Exists_exists. by exists r.
  - intros (p & Hp & <- & Hs & Hex). apply Exists_exists in Hex as (r & Hr & ? & ?).
    exists p. split; [|done]. apply list_elem_of_bind. exists r. split; [|done].
    rewrite bool_decide_eq_true_2 by done. by left.
Qed.

Lemma NoDup_fmap_eq {A B} (f : A → B) (l : list A) x y :
  NoDup (f <$> l) → x ∈ l → y ∈ l → f x = f y → x = y.
Proof.
  induction l as [|z l IH]; intros Hnd Hx Hy Hf; [by apply elem_of_nil in Hx|].
  simpl in Hnd. apply NoDup_cons in Hnd as [Hz Hnd].
  apply elem_of_cons in Hx as [->|Hx]; apply elem_of_cons in Hy as [->|Hy].
  - done.
  - destruct Hz. rewrite Hf. by apply list_elem_of_fmap_2.
  - destruct Hz. rewrite <- Hf. by apply list_elem_of_fmap_2.
  - by apply IH.
Qed.

Lemma filter_not_elem_nil {A B} `{EqDecision B} (f : A → B) (l : list A) :
  filter (λ x, f x ∉ []) l = l.
Proof.
  induction l as [|x l IH]; [done|].
  rewrite filter_cons_True by apply not_elem_of_nil. by rewrite IH.
Qed.

Lemma delete_selected scope orgID t :
  NoDup (perm_ID <$> tbl_permission t) →
  filter (λ p, perm_ID p ∉ select_ids_by_scope scope orgID t) (tbl_permission t)
  = filter (λ p, ¬ selectedForDelete scope orgID t p) (tbl_permission t).
Proof.
  intros Hnd. apply filter_ext_elem. intros p Hp.
  rewrite select_ids_by_scope_elem. split.
  - intros Hn Hsel. apply Hn. by exists p.
  - intros Hn (q & Hq & Hid & Hsel). apply Hn.
    by rewrite <- (NoDup_fmap_eq perm_ID _ q p Hnd Hq Hp Hid).
Qed.

Lemma consumed_0 w : consumed 0 0 w = w.
Proof. by destruct w. Qed.

Lemma query_Ok {A} (q : Tables → A) w :
  db_fault w (db_calls w) = false → query q w = (Ok (q (tables w)), consumed 1 0 w).
Proof. intros Hf. unfold query. rewrite statement_Ok by done. by destruct w. Qed.

Section StoreProperties.
Context `{External}.

(** ** Subject guards *)

(** C7.  A grant to user 0 or to team 0 returns the not-found error and
    hands back the world it was given: no statement was issued, no
    transaction opened, no RPC sent. *)
Theorem zero_subject_rejected (s : store) (orgID : Z) (cmd : SetResourcePermissionCommand)
    (userHook : UserResourceHookFunc) (teamHook : TeamResourceHookFunc) (w : World) :
  SetUserResourcePermission s orgID (mkUser 0) cmd userHook w = (Err ErrUserNotFound, w)
  ∧ SetTeamResourcePermission s orgID 0 cmd teamHook w = (Err ErrTeamNotFound, w).
Proof. split; reflexivity. Qed.

(** ** The batch call *)


Lemma dispatch_noSubject s orgID cmd hooks :
  noSubject cmd → dispatch s orgID cmd hooks = None.
Proof.
  intros (Hu & Ht & Hv & Ha). unfold dispatch.
  rewrite bool_decide_eq_false_2 by (intros Hne; exact (Hne Hu)).
  rewrite bool_decide_eq_false_2 by (intros Hne; exact (Hne Ht)).
  rewrite Hv. by rewrite bool_decide_eq_false_2.
Qed.

Lemma SetResourcePermissions_loop_skip s orgID pre cmd post hooks permissions w :
  noSubject cmd →
  SetResourcePermissions_loop s orgID (pre ++ cmd :: post) hooks permissions w
  = SetResourcePermissions_loop s orgID (pre ++ post) hooks permissions w.
Proof.
  intros Hcmd. revert permissions w.
  induction pre as [|c pre IH]; intros permissions w; simpl.
  - by rewrite dispatch_noSubject.
  - destruct (dispatch s orgID c hooks) as [m|]; [|apply IH].
    destruct (m w) as [[p|e] w']; [apply IH | done].
Qed.

(** C10.  A batch command that matches none of the three subject kinds
    is skipped: the batch behaves as if the command were not there (same
    returned permissions, same error, same world), and a batch made of
    that command alone returns no permission and no error and leaves the
    world as it was. *)
Theorem SetResourcePermissions_skips_unmatched (s : store) (orgID : Z)
    (pre post : list SetResourcePermissionsCommand) (cmd : SetResourcePermissionsCommand)
    (hooks : ResourceHooks) (w : World) :
  noSubject cmd →
  SetResourcePermissions s orgID (pre ++ cmd :: post) hooks w
  = SetResourcePermissions s orgID (pre ++ post) hooks w
  ∧ SetResourcePermissions s orgID [cmd] hooks w = (([], Ok tt), w).
Proof.
  intros Hcmd. split.
  - unfold SetResourcePermissions, WithTransactionalDbSession.
    by rewrite !SetResourcePermissions_loop_skip.
  - unfold SetResourcePermissions, WithTransactionalDbSession. simpl.
    by rewrite dispatch_noSubject.
Qed.

(** C8, as the code has it.  The single call rejects a built-in role
    name that is not a valid role type or is the Grafana admin role, and
    hands back the world it was given.  The batch call decides
    differently: a command without user and team is granted when its
    role name is a valid role type or the Grafana admin role, in the same
    transaction and with the same effect as the session-level builtin
    grant, and is skipped without error otherwise. *)
Theorem builtin_role_validation (s : store) (orgID : Z) (builtInRole : string)
    (cmd : SetResourcePermissionCommand) (hook : BuiltinResourceHookFunc)
    (hooks : ResourceHooks) (w : World) :
  (RoleType_IsValid builtInRole = false ∨ builtInRole = RoleGrafanaAdmin →
     SetBuiltInResourcePermission s orgID builtInRole cmd hook w
     = (Err (ErrMsg ("invalid role: " +:+ builtInRole)), w))
  ∧ (RoleType_IsValid builtInRole = true ∨ builtInRole = RoleGrafanaAdmin →
     SetResourcePermissions s orgID [mkCmds (mkUser 0) 0 builtInRole cmd] hooks w
     = match WithTransactionalDbSession
               (setBuiltInResourcePermission s orgID builtInRole cmd (hooks_BuiltInRole hooks)) w
       with
       | (Ok p, w') => (([p], Ok tt), w')
       | (Err e, w') => (([], Err e), w')
       end)
  ∧ (RoleType_IsValid builtInRole = false ∧ builtInRole ≠ RoleGrafanaAdmin →
     SetResourcePermissions s orgID [mkCmds (mkUser 0) 0 builtInRole cmd] hooks w
     = (([], Ok tt), w)).
Proof.
  split_and!.
  - intros Hbad. unfold SetBuiltInResourcePermission.
    destruct Hbad as [-> | ->]; [done|].
    by rewrite bool_decide_eq_true_2, orb_true_r.
  - intros Hgood. unfold SetResourcePermissions, WithTransactionalDbSession. simpl.
    unfold dispatch. simpl.
    assert (RoleType_IsValid builtInRole || bool_decide (builtInRole = RoleGrafanaAdmin) = true)
      as ->.
    { destruct Hgood as [-> | ->]; [done|]. by rewrite bool_decide_eq_true_2, orb_true_r. }
    destruct (setBuiltInResourcePermission _ _ _ _ _ w) as [[p|e] w']; done.
  - intros [Hv Ha]. unfold SetResourcePermissions, WithTransactionalDbSession. simpl.
    unfold dispatch. simpl. rewrite Hv. by rewrite bool_decide_eq_false_2.
Qed.

(** ** Deleting the permissions of a scope, the operation *)

Lemma deletePermissions_run ids w :
  deletePermissions ids w
  = if bool_decide (ids = []) then (Ok tt, w) else exec (delete_permissions_in ids) w.
Proof. unfold deletePermissions. by destruct ids. Qed.

(** C9.  [DeleteResourcePermissions] never touches the role table nor
    the three assignment tables; an error leaves all tables as they were;
    a successful call on a store whose permission identifiers are unique
    deletes exactly the permissions at the scope whose owning role is a
    role of the org, whichever role that is; and the call succeeds when
    no statement fails. *)
Theorem DeleteResourcePermissions_spec (orgID : Z) (cmd : DeleteResourcePermissionsCmd)
    (w : World) :
  let scope := Scope [del_Resource cmd; del_ResourceAttribute cmd; del_ResourceID cmd] in
  let t := tables w in
  let t' := tables (DeleteResourcePermissions orgID cmd w).2 in
  (tbl_role t' = tbl_role t ∧ tbl_user_role t' = tbl_user_role t
   ∧ tbl_team_role t' = tbl_team_role t ∧ tbl_builtin_role t' = tbl_builtin_role t)
  ∧ (∀ e, (DeleteResourcePermissions orgID cmd w).1 = Err e → t' = t)
  ∧ ((DeleteResourcePermissions orgID cmd w).1 = Ok tt →
     NoDup (perm_ID <$> tbl_permission t) →
     tbl_permission t'
     = filter (λ p, ¬ selectedForDelete scope orgID t p) (tbl_permission t))
  ∧ ((∀ n, db_fault w n = false) → (DeleteResourcePermissions orgID cmd w).1 = Ok tt).
Proof.
  intros scope t t'. subst t'. unfold DeleteResourcePermissions, WithTransactionalDbSession.
  fold scope. unfold bind, query, statement. simpl.
  destruct (db_fault w (db_calls w)) eqn:E1; simpl.
  { split_and!; try done. intros Hnf. by rewrite Hnf in E1. }
  rewrite deletePermissions_run. fold t. case_bool_decide as Hids; simpl.
  { split_and!; try done. intros _ Hnd.
    rewrite <- delete_selected by done. rewrite Hids. by rewrite filter_not_elem_nil. }
  unfold exec, statement. simpl.
  destruct (db_fault w (S (db_calls w))) eqn:E2; simpl.
  { split_and!; try done. intros Hnf. by rewrite Hnf in E2. }
  split_and!; try done. intros _ Hnd. by apply delete_selected.
Qed.

End StoreProperties.

(** ** The managed role resolver *)

Section ResolverProperties.
Context `{External}.

Lemma generateNewRoleUID_loop_found attempts orgID w k :
  noStorageFault w → (k < attempts)%nat →
  (∀ j, (j < k)%nat → role_uid_exists orgID (uid_gen w (j + uid_calls w)) (tables w) = true) →
  role_uid_exists orgID (uid_gen w (k + uid_calls w)) (tables w) = false →
  generateNewRoleUID_loop attempts orgID w
  = (Ok (uid_gen w (k + uid_calls w)), consumed (S k) (S k) w).
Proof.
  revert w k. induction attempts as [|attempts IH]; intros w k Hnf Hk Hbusy Hfree; [lia|].
  simpl. unfold bind, GenerateShortUID. rewrite query_Ok by apply Hnf. simpl.
  destruct k as [|k].
  - simpl in Hfree. rewrite Hfree. unfold ret. by destruct w.
  - pose proof (Hbusy 0%nat ltac:(lia)) as Hb0. simpl in Hb0. rewrite Hb0.
    rewrite (IH _ k); simpl.
    + f_equal; [do 2 f_equal; lia|]. unfold consumed. simpl. f_equal; lia.
    + done.
    + lia.
    + intros j Hj. replace (j + S (uid_calls w))%nat with (S j + uid_calls w)%nat by lia.
      apply Hbusy. lia.
    + replace (k + S (uid_calls w))%nat with (S k + uid_calls w)%nat by lia. done.
Qed.

Lemma generateNewRoleUID_loop_exhausted attempts orgID w :
  noStorageFault w →
  (∀ j, (j < attempts)%nat →
        role_uid_exists orgID (uid_gen w (j + uid_calls w)) (tables w) = true) →
  generateNewRoleUID_loop attempts orgID w
  = (Err (ErrMsg "failed to generate uid"), consumed attempts attempts w).
Proof.
  revert w. induction attempts as [|attempts IH]; intros w Hnf Hbusy.
  - simpl. unfold fail. by rewrite consumed_0.
  - simpl. unfold bind, GenerateShortUID. rewrite query_Ok by apply Hnf. simpl.
    pose proof (Hbusy 0%nat ltac:(lia)) as Hb0. simpl in Hb0. rewrite Hb0. rewrite IH; simpl.
    + f_equal. unfold consumed. simpl. f_equal; lia.
    + done.
    + intros j Hj. replace (j + S (uid_calls w))%nat with (S j + uid_calls w)%nat by lia.
      apply Hbusy. lia.
Qed.

Lemma generateNewRoleUID_loop_bound attempts orgID w :
  tables (generateNewRoleUID_loop attempts orgID w).2 = tables w
  ∧ (uid_calls w ≤ uid_calls (generateNewRoleUID_loop attempts orgID w).2
     ≤ attempts + uid_calls w)%nat.
Proof.
  revert w. induction attempts as [|attempts IH]; intros w; simpl; [split; [done|lia]|].
  unfold bind, GenerateShortUID, query, statement. simpl.
  destruct (db_fault w (db_calls w)); simpl; [split; [done|lia]|].
  destruct (role_uid_exists _ _ _); simpl; [|split; [done|lia]].
  match goal with |- context [generateNewRoleUID_loop attempts orgID ?w1] =>
    destruct (IH w1) as [Ht Hu] end.
  simpl in *. split; [done | lia].
Qed.

(** C4.  With no failing statement: when a role of that org and name
    exists, [getOrCreateManagedRole] returns it after the one lookup,
    whatever the adder is (the adder is not run, nothing is drawn, no row
    is written).  When there is none, it draws identifiers until one is
    free in the org, at most three: if the first three all collide it
    fails with the uid-generation error, having written nothing and again
    without running the adder; otherwise it inserts the role under the
    first free identifier and then runs the adder on the inserted role,
    whose error, if any, is the result.  [generateNewRoleUID] itself never
    writes and never draws more than three identifiers. *)
Theorem getOrCreateManagedRole_spec (orgID : Z) (name : string) (add : roleAdder) (w : World) :
  noStorageFault w →
  (∀ role, get_role_by_name orgID name (tables w) = Some role →
     getOrCreateManagedRole orgID name add w = (Ok role, consumed 1 0 w))
  ∧ (get_role_by_name orgID name (tables w) = None →
     (∀ j, (j < 3)%nat →
        role_uid_exists orgID (uid_gen w (j + uid_calls w)) (tables w) = true) →
     getOrCreateManagedRole orgID name add w
     = (Err (ErrMsg "failed to generate uid"), consumed 4 3 w))
  ∧ (get_role_by_name orgID name (tables w) = None →
     ∀ k, (k < 3)%nat →
       (∀ j, (j < k)%nat →
          role_uid_exists orgID (uid_gen w (j + uid_calls w)) (tables w) = true) →
       role_uid_exists orgID (uid_gen w (k + uid_calls w)) (tables w) = false →
       let inserted := insert_role (mkRole 0 orgID (uid_gen w (k + uid_calls w)) name) (tables w) in
       getOrCreateManagedRole orgID name add w
       = match add inserted.1 (set_tables inserted.2 (consumed (k + 3) (k + 1) w)) with
         | (Ok _, w') => (Ok inserted.1, w')
         | (Err e, w') => (Err e, w')
         end)
  ∧ tables (generateNewRoleUID orgID w).2 = tables w
  ∧ (uid_calls (generateNewRoleUID orgID w).2 ≤ 3 + uid_calls w)%nat.
Proof.
  intros Hnf. split_and!.
  - intros role Hget. unfold getOrCreateManagedRole. rewrite query_Ok by apply Hnf. by rewrite Hget.
  - intros Hget Hbusy. unfold getOrCreateManagedRole. rewrite query_Ok by apply Hnf. rewrite Hget.
    unfold createManagedRole, generateNewRoleUID.
    erewrite bind_Err; [|by apply generateNewRoleUID_loop_exhausted].
    reflexivity.
  - intros Hget k Hk Hbusy Hfree inserted. unfold getOrCreateManagedRole.
    rewrite query_Ok by apply Hnf. rewrite Hget.
    unfold createManagedRole, generateNewRoleUID.
    erewrite bind_Ok; [|by apply (generateNewRoleUID_loop_found 3 orgID _ k)].
    simpl. unfold bind at 1. rewrite statement_Ok by apply Hnf. simpl.
    fold inserted. unfold bind, ret.
    replace (set_tables _ (tick_db _)) with (set_tables inserted.2 (consumed (k + 3) (k + 1) w)).
    + by destruct (add _ _) as [[[]|e] w'].
    + unfold set_tables, tick_db, consumed. simpl. f_equal; lia.
  - apply (generateNewRoleUID_loop_bound 3).
  - apply (generateNewRoleUID_loop_bound 3).
Qed.
(** When the lookup itself fails, [has] is false: the creation branch
    runs on the world after the lookup, and the lookup's error is returned
    only if the creation succeeded. *)
Remark getOrCreateManagedRole_lookup_fault (orgID : Z) (name : string) (add : roleAdder)
    (w : World) :
  db_fault w (db_calls w) = true →
  getOrCreateManagedRole orgID name add w
  = match createManagedRole orgID name add (consumed 1 0 w) with
    | (Ok _, w') => (Err ErrStorage, w')
    | (Err e, w') => (Err e, w')
    end.
Proof.
  intros Hfault. unfold getOrCreateManagedRole, query, statement. rewrite Hfault.
  by destruct w.
Qed.

End ResolverProperties.

(** ** Engine writes inside the transaction *)

Lemma engine_ok_ret {A} (a : A) : engine_ok (ret a).
Proof. intros w r w' [= <- <-]. split_and!; [done | done | intros; lia | done]. Qed.

Lemma engine_ok_fail {A} e : engine_ok (@fail A e).
Proof. intros w r w' [= <- <-]. split_and!; [done | done | intros; lia | done]. Qed.

Lemma engine_ok_statement {A} (q : Tables → A * Tables) : engine_ok (statement q).
Proof.
  intros w r w'. unfold statement. destruct (db_fault w (db_calls w)); intros [= <- <-]; simpl;
    (split_and!; [done | done | intros; lia | done]).
Qed.

Lemma engine_ok_GenerateShortUID : engine_ok GenerateShortUID.
Proof. intros w r w' [= <- <-]. simpl. split_and!; [done | done | intros; lia | done]. Qed.

Lemma engine_ok_zClient_Write tuples : engine_ok (zClient_Write tuples).
Proof.
  intros w r w'. unfold zClient_Write. destruct (zfault w (zcalls w)) eqn:E;
    intros [= <- <-]; simpl.
  - split_and!; [done | lia | done | done].
  - split_and!; [done | lia | | done].
    intros _ _ n Hn. by replace n with (zcalls w) by lia.
Qed.

Lemma engine_ok_bind {A B} (m : M A) (k : A → M B) :
  engine_ok m → (∀ a, engine_ok (k a)) → engine_ok (bind m k).
Proof.
  intros Hm Hk w r w'. unfold bind. destruct (m w) as [[a|e] w1] eqn:Em.
  - intros Ek. destruct (Hm _ _ _ Em) as (Hf1 & Hc1 & Hs1 & Hl1).
    destruct (Hk a _ _ _ Ek) as (Hf2 & Hc2 & Hs2 & Hl2).
    split_and!.
    + congruence.
    + lia.
    + intros b -> n Hn. destruct (decide (n < zcalls w1)%nat).
      * apply (Hs1 a eq_refl). lia.
      * rewrite <- Hf1. apply (Hs2 b eq_refl). lia.
    + intros Hfail. rewrite <- (Hl1 Hfail). apply Hl2.
      assert (zcalls w1 = zcalls w) as ->; [|by rewrite Hf1].
      destruct (decide (zcalls w < zcalls w1)%nat); [|lia].
      rewrite (Hs1 a eq_refl (zcalls w)) in Hfail by lia. done.
  - intros [= <- <-]. destruct (Hm _ _ _ Em) as (Hf1 & Hc1 & Hs1 & Hl1).
    split_and!; [done | done | done | done].
Qed.

Lemma writes_zClient_Write tuples : writes (zClient_Write tuples).
Proof.
  intros w a w'. unfold zClient_Write. destruct (zfault w (zcalls w)); [done|].
  intros [= <- <-]. simpl. lia.
Qed.

Lemma writes_bind_l {A B} (m : M A) (k : A → M B) :
  writes m → (∀ a, engine_ok (k a)) → writes (bind m k).
Proof.
  intros Hm Hk w b w' Hb. apply bind_Ok_inv in Hb as (a & w1 & Em & Ek).
  pose proof (Hm _ _ _ Em). destruct (Hk a _ _ _ Ek) as (_ & ? & _). lia.
Qed.

Lemma writes_bind_r {A B} (m : M A) (k : A → M B) :
  engine_ok m → (∀ a, writes (k a)) → writes (bind m k).
Proof.
  intros Hm Hk w b w' Hb. apply bind_Ok_inv in Hb as (a & w1 & Em & Ek).
  pose proof (Hk a _ _ _ Ek). destruct (Hm _ _ _ Em) as (_ & ? & _). lia.
Qed.

(** A run that must write and whose first RPC fails is an error. *)
Lemma first_write_fails {A} (m : M A) w :
  engine_ok m → writes m → zfault w (zcalls w) = true →
  (∃ e, (m w).1 = Err e) ∧ zlog (m w).2 = zlog w.
Proof.
  intros Hm Hw Hfail. destruct (m w) as [r w'] eqn:Em. simpl.
  destruct (Hm _ _ _ Em) as (_ & _ & Hs & Hl). split; [|by apply Hl].
  destruct r as [a|e]; [|by exists e].
  pose proof (Hw _ _ _ Em). rewrite (Hs a eq_refl (zcalls w)) in Hfail by lia. done.
Qed.

Lemma WithTransactionalDbSession_Err {A} (m : M A) w e :
  (WithTransactionalDbSession m w).1 = Err e →
  tables (WithTransactionalDbSession m w).2 = tables w.
Proof. unfold WithTransactionalDbSession. by destruct (m w) as [[a|e'] w']. Qed.

Lemma statement_zcalls {A} (q : Tables → A * Tables) w r w1 :
  statement q w = (r, w1) → zcalls w1 = zcalls w.
Proof. unfold statement. destruct (db_fault _ _); by intros [= <- <-]. Qed.

(** The three adders have one shape: a lookup, a refusal when the
    assignment is there, else an insert and one RPC. *)
Ltac adder_shape bind_lemma statement_lemma fail_lemma write_lemma :=
  apply bind_lemma; [by apply statement_lemma|]; intros ?;
  case_bool_decide; [apply fail_lemma|];
  apply bind_lemma; [by apply statement_lemma|]; intros _; apply write_lemma.

Section EngineProperties.
Context `{External}.

Lemma engine_ok_deletePermissions ids : engine_ok (deletePermissions ids).
Proof.
  unfold deletePermissions. case_bool_decide; [apply engine_ok_ret | apply engine_ok_statement].
Qed.

Lemma engine_ok_createPermissions s roleID resource resourceID resourceAttribute actions perm :
  engine_ok (createPermissions s roleID resource resourceID resourceAttribute actions perm).
Proof.
  unfold createPermissions. case_bool_decide; [apply engine_ok_ret | apply engine_ok_statement].
Qed.

Lemma engine_ok_generateNewRoleUID_loop attempts orgID :
  engine_ok (generateNewRoleUID_loop attempts orgID).
Proof.
  induction attempts as [|attempts IH]; simpl; [apply engine_ok_fail|].
  apply engine_ok_bind; [apply engine_ok_GenerateShortUID|]. intros uid.
  apply engine_ok_bind; [apply engine_ok_statement|]. intros [|]; [done | apply engine_ok_ret].
Qed.

Lemma engine_ok_createManagedRole orgID name add :
  (∀ role, engine_ok (add role)) → engine_ok (createManagedRole orgID name add).
Proof.
  intros Hadd. unfold createManagedRole, generateNewRoleUID.
  apply engine_ok_bind; [apply engine_ok_generateNewRoleUID_loop|]. intros uid.
  apply engine_ok_bind; [apply engine_ok_statement|]. intros role.
  apply engine_ok_bind; [apply Hadd|]. intros _. apply engine_ok_ret.
Qed.

Lemma engine_ok_getOrCreateManagedRole orgID name add :
  (∀ role, engine_ok (add role)) → engine_ok (getOrCreateManagedRole orgID name add).
Proof.
  intros Hadd w r w'. unfold getOrCreateManagedRole.
  destruct (query (get_role_by_name orgID name) w) as [[orole|err] w1] eqn:Eq;
    pose proof (engine_ok_statement _ _ _ _ Eq) as (Hf1 & Hc1 & Hs1 & Hl1);
    [destruct orole as [role|]|].
  - intros [= <- <-]. split_and!; [done | done | | done].
    intros a _ n Hn. by apply (Hs1 (Some role)).
  - intros Ec. destruct (engine_ok_createManagedRole orgID name add Hadd _ _ _ Ec)
      as (Hf2 & Hc2 & Hs2 & Hl2).
    pose proof (statement_zcalls _ _ _ _ Eq) as Hcalls.
    split_and!.
    + congruence.
    + lia.
    + intros a Ha n Hn. rewrite <- Hf1. apply (Hs2 a Ha). lia.
    + intros Hfail. rewrite <- (Hl1 Hfail). apply Hl2. by rewrite Hf1, Hcalls.
  - destruct (createManagedRole orgID name add w1) as [[role|e] w2] eqn:Ec; intros [= <- <-];
      destruct (engine_ok_createManagedRole orgID name add Hadd _ _ _ Ec)
        as (Hf2 & Hc2 & Hs2 & Hl2);
      pose proof (statement_zcalls _ _ _ _ Eq) as Hcalls;
      (split_and!; [congruence | lia | done |
         intros Hfail; rewrite <- (Hl1 Hfail); apply Hl2; by rewrite Hf1, Hcalls]).
Qed.

Lemma engine_ok_userAdder orgID userID role : engine_ok (userAdder orgID userID role).
Proof.
  unfold userAdder.
  adder_shape @engine_ok_bind @engine_ok_statement @engine_ok_fail engine_ok_zClient_Write.
Qed.

Lemma engine_ok_teamAdder orgID teamID role : engine_ok (teamAdder orgID teamID role).
Proof.
  unfold teamAdder.
  adder_shape @engine_ok_bind @engine_ok_statement @engine_ok_fail engine_ok_zClient_Write.
Qed.

Lemma engine_ok_builtInRoleAdder orgID builtinRole role :
  engine_ok (builtInRoleAdder orgID builtinRole role).
Proof.
  unfold builtInRoleAdder.
  adder_shape @engine_ok_bind @engine_ok_statement @engine_ok_fail engine_ok_zClient_Write.
Qed.

Lemma engine_ok_tail (scope : string) (m : M (list flatResourcePermission)) :
  engine_ok m →
  engine_ok (permissions <- m ;;
             match flatPermissionsToResourcePermission scope permissions with
             | None => ret emptyResourcePermission
             | Some permission => ret permission
             end).
Proof.
  intros Hm. apply engine_ok_bind; [done|]. intros ps.
  destruct (flatPermissionsToResourcePermission scope ps); apply engine_ok_ret.
Qed.

Lemma setResourcePermission_engine s orgID roleName adder cmd :
  (∀ role, engine_ok (adder role)) →
  engine_ok (setResourcePermission s orgID roleName adder cmd)
  ∧ writes (setResourcePermission s orgID roleName adder cmd).
Proof.
  intros Hadd. unfold setResourcePermission. split.
  - apply engine_ok_bind; [by apply engine_ok_getOrCreateManagedRole|]. intros role.
    apply engine_ok_bind; [apply engine_ok_statement|]. intros current.
    destruct (setResourcePermission_diff _ _) as [missing remove].
    apply engine_ok_bind; [apply engine_ok_deletePermissions|]. intros _.
    apply engine_ok_bind; [apply engine_ok_createPermissions|]. intros _.
    apply engine_ok_bind; [apply engine_ok_zClient_Write|]. intros _.
    apply engine_ok_tail, engine_ok_statement.
  - apply writes_bind_r; [by apply engine_ok_getOrCreateManagedRole|]. intros role.
    apply writes_bind_r; [apply engine_ok_statement|]. intros current.
    destruct (setResourcePermission_diff _ _) as [missing remove].
    apply writes_bind_r; [apply engine_ok_deletePermissions|]. intros _.
    apply writes_bind_r; [apply engine_ok_createPermissions|]. intros _.
    apply writes_bind_l; [apply writes_zClient_Write|]. intros _.
    apply engine_ok_tail, engine_ok_statement.
Qed.


Lemma engine_ok_run_hook {S} (hook : option (Z → S → string → string → M unit))
    orgID (subject : S) cmd :
  hook_engine_ok hook → engine_ok (run_hook hook orgID subject cmd).
Proof.
  intros Hh. unfold run_hook. destruct hook as [h|]; [by apply Hh | apply engine_ok_ret].
Qed.

Lemma engine_ok_WithTransactionalDbSession {A} (m : M A) :
  engine_ok m → engine_ok (WithTransactionalDbSession m).
Proof.
  intros Hm w r w'. unfold WithTransactionalDbSession.
  destruct (m w) as [[a|e] w1] eqn:Em; intros [= <- <-];
    destruct (Hm _ _ _ Em) as (? & ? & ? & ?); simpl; done.
Qed.

Lemma grantCallback_engine s orgID roleName adder cmd hook :
  (∀ role, engine_ok (adder role)) → engine_ok hook →
  engine_ok (grantCallback s orgID roleName adder cmd hook).
Proof.
  intros Hadd Hhook. unfold grantCallback.
  apply engine_ok_bind; [by apply setResourcePermission_engine|]. intros p.
  apply engine_ok_bind; [done|]. intros _. apply engine_ok_ret.
Qed.

Lemma grantCallback_first_write s orgID roleName adder cmd hook w :
  (∀ role, engine_ok (adder role)) → zfault w (zcalls w) = true →
  (∃ e, (grantCallback s orgID roleName adder cmd hook w).1 = Err e)
  ∧ zlog (grantCallback s orgID roleName adder cmd hook w).2 = zlog w.
Proof.
  intros Hadd Hfail.
  destruct (setResourcePermission_engine s orgID roleName adder cmd Hadd) as [Hok Hwr].
  destruct (first_write_fails _ w Hok Hwr Hfail) as [[e He] Hlog].
  unfold grantCallback.
  destruct (setResourcePermission s orgID roleName adder cmd w) as [r w1] eqn:Em.
  simpl in He, Hlog. subst r. rewrite (bind_Err _ _ _ _ _ Em). simpl. eauto.
Qed.

Lemma guarded_grant_outcome (guard : bool) (e0 : Error) s orgID roleName adder cmd hook w :
  (∀ role, engine_ok (adder role)) →
  failedWriteOutcome
    (if guard then fail e0
     else WithTransactionalDbSession (grantCallback s orgID roleName adder cmd hook)) w.
Proof.
  intros Hadd. destruct guard.
  { split; [done|]. intros _. split_and!; [by exists e0 | done | done]. }
  assert (∀ e, (WithTransactionalDbSession (grantCallback s orgID roleName adder cmd hook) w).1
               = Err e →
          tables (WithTransactionalDbSession (grantCallback s orgID roleName adder cmd hook) w).2
          = tables w) as Hroll by apply WithTransactionalDbSession_Err.
  split; [done|]. intros Hfail.
  destruct (grantCallback_first_write s orgID roleName adder cmd hook w Hadd Hfail)
    as [[e He] Hlog].
  assert ((WithTransactionalDbSession (grantCallback s orgID roleName adder cmd hook) w).1 = Err e
          ∧ zlog (WithTransactionalDbSession (grantCallback s orgID roleName adder cmd hook) w).2
            = zlog w) as [He' Hlog'].
  { unfold WithTransactionalDbSession.
    destruct (grantCallback s orgID roleName adder cmd hook w) as [r w1].
    simpl in He, Hlog. subst r. done. }
  split_and!; [by exists e | by apply (Hroll e) | done].
Qed.

Lemma guarded_grant_engine (guard : bool) (e0 : Error) s orgID roleName adder cmd hook :
  (∀ role, engine_ok (adder role)) → engine_ok hook →
  engine_ok
    (if guard then fail e0
     else WithTransactionalDbSession (grantCallback s orgID roleName adder cmd hook)).
Proof.
  intros Hadd Hhook. destruct guard; [apply engine_ok_fail|].
  by apply engine_ok_WithTransactionalDbSession, grantCallback_engine.
Qed.

Lemma failed_write_is_error {A} (m : M A) w n :
  engine_ok m → (zcalls w ≤ n < zcalls (m w).2)%nat → zfault w n = true →
  ∃ e, (m w).1 = Err e.
Proof.
  intros Hm Hn Hfail. destruct (m w) as [[a|e] w'] eqn:Em; simpl in *; [|by exists e].
  destruct (Hm _ _ _ Em) as (_ & _ & Hs & _). rewrite (Hs a eq_refl n Hn) in Hfail. done.
Qed.

(** C1, as the code has it.  The engine write of a grant is issued
    inside the transaction callback and its error is the callback's error.
    For each of the three grant operations: whenever the operation returns
    an error, the tables are those from before the call; when the first
    RPC of the call fails, the operation returns an error, the tables are
    unchanged and the engine's log is unchanged; and, for hooks that
    respect the engine, when any RPC sent during the call fails, the
    operation returns an error and the tables are unchanged. *)
Theorem grant_write_failure_rolls_back (s : store) (orgID : Z) (usr : User) (teamID : Z)
    (builtInRole : string) (cmd : SetResourcePermissionCommand)
    (userHook : UserResourceHookFunc) (teamHook : TeamResourceHookFunc)
    (builtinHook : BuiltinResourceHookFunc) (w : World) (m : M ResourcePermission) :
  m ∈ [SetUserResourcePermission s orgID usr cmd userHook;
       SetTeamResourcePermission s orgID teamID cmd teamHook;
       SetBuiltInResourcePermission s orgID builtInRole cmd builtinHook] →
  (∀ e, (m w).1 = Err e → tables (m w).2 = tables w)
  ∧ (zfault w (zcalls w) = true →
     (∃ e, (m w).1 = Err e) ∧ tables (m w).2 = tables w ∧ zlog (m w).2 = zlog w)
  ∧ (hook_engine_ok userHook → hook_engine_ok teamHook → hook_engine_ok builtinHook →
     ∀ n, (zcalls w ≤ n < zcalls (m w).2)%nat → zfault w n = true →
       (∃ e, (m w).1 = Err e) ∧ tables (m w).2 = tables w).
Proof.
  intros Hm.
  assert (failedWriteOutcome m w
          ∧ (hook_engine_ok userHook → hook_engine_ok teamHook → hook_engine_ok builtinHook →
             engine_ok m)) as [[Hroll Hfirst] Heng].
  { repeat (apply elem_of_cons in Hm as [-> | Hm]); [| | |by apply elem_of_nil in Hm].
    - split.
      + apply (guarded_grant_outcome (bool_decide (User_ID usr = 0))).
        intros role. apply engine_ok_userAdder.
      + intros Hu _ _. apply (guarded_grant_engine (bool_decide (User_ID usr = 0))).
        * intros role. apply engine_ok_userAdder.
        * by apply engine_ok_run_hook.
    - split.
      + apply (guarded_grant_outcome (bool_decide (teamID = 0))).
        intros role. apply engine_ok_teamAdder.
      + intros _ Ht _. apply (guarded_grant_engine (bool_decide (teamID = 0))).
        * intros role. apply engine_ok_teamAdder.
        * by apply engine_ok_run_hook.
    - split.
      + apply (guarded_grant_outcome
                 (negb (RoleType_IsValid builtInRole)
                  || bool_decide (builtInRole = RoleGrafanaAdmin))).
        intros role. apply engine_ok_builtInRoleAdder.
      + intros _ _ Hb.
        apply (guarded_grant_engine
                 (negb (RoleType_IsValid builtInRole)
                  || bool_decide (builtInRole = RoleGrafanaAdmin))).
        * intros role. apply engine_ok_builtInRoleAdder.
        * by apply engine_ok_run_hook. }
  split_and!; [done | done |].
  intros Hu Ht Hb n Hn Hfail.
  destruct (failed_write_is_error m w n (Heng Hu Ht Hb) Hn Hfail) as [e He].
  split; [by exists e | by apply (Hroll e)].
Qed.

End EngineProperties.

(** ** Granting twice *)

(** *** Fresh identifiers *)

Lemma foldr_max_ge (ids : list Z) x : x ∈ ids → x ≤ foldr Z.max 0 ids.
Proof.
  induction ids as [|y ids IH]; [by intros ?%elem_of_nil|].
  intros [->|Hx]%elem_of_cons; simpl; [lia|]. specialize (IH Hx). lia.
Qed.

Lemma next_id_fresh (ids : list Z) : next_id ids ∉ ids.
Proof. intros Hin%foldr_max_ge. unfold next_id in Hin. lia. Qed.

Lemma insert_permissions_role ps t : tbl_role (insert_permissions ps t) = tbl_role t.
Proof.
  unfold insert_permissions. revert t. induction ps as [|p ps IH]; intros t; [done|].
  simpl. by rewrite IH.
Qed.

Lemma insert_permissions_spec ps t :
  ∃ new, tbl_permission (insert_permissions ps t) = tbl_permission t ++ new
    ∧ perm_Action <$> new = perm_Action <$> ps
    ∧ perm_RoleID <$> new = perm_RoleID <$> ps
    ∧ perm_Scope <$> new = perm_Scope <$> ps
    ∧ (NoDup (perm_ID <$> tbl_permission t) →
       NoDup (perm_ID <$> tbl_permission (insert_permissions ps t))).
Proof.
  unfold insert_permissions. revert t. induction ps as [|p ps IH]; intros t.
  - exists []. simpl. by rewrite app_nil_r.
  - simpl. destruct (IH (insert_permission t p)) as (new & Hp & Ha & Hr & Hs & Hnd).
    eexists (_ :: new). split_and!.
    + rewrite Hp. simpl. rewrite <- app_assoc. done.
    + by rewrite !fmap_cons, Ha.
    + by rewrite !fmap_cons, Hr.
    + by rewrite !fmap_cons, Hs.
    + intros Hnd0. apply Hnd. simpl. rewrite fmap_app. simpl.
      apply NoDup_app. split_and!; [done | | apply NoDup_singleton].
      intros x Hx ->%list_elem_of_singleton. by apply next_id_fresh in Hx.
Qed.

(** *** The join against a role table with unique keys *)

Lemma join_unique_role (roles : list Role) (p : Permission) (roleID : Z) (scope : string) :
  NoDup (role_ID <$> roles) →
  (r ← roles;
   if bool_decide (role_ID r = perm_RoleID p ∧ role_ID r = roleID ∧ perm_Scope p = scope)
   then [p] else [])
  = if bool_decide ((perm_RoleID p = roleID ∧ perm_Scope p = scope)
                    ∧ roleID ∈ role_ID <$> roles)
    then [p] else [].
Proof.
  induction roles as [|r roles IH]; intros Hnd.
  - simpl. rewrite bool_decide_eq_false_2; [done|]. intros [_ Hin]. by apply elem_of_nil in Hin.
  - rewrite fmap_cons in Hnd. apply NoDup_cons in Hnd as [Hr Hnd].
    rewrite bind_cons, (IH Hnd), fmap_cons.
    destruct (decide (role_ID r = perm_RoleID p ∧ role_ID r = roleID ∧ perm_Scope p = scope))
      as [Hc|Hc];
      [rewrite (bool_decide_eq_true_2 _ Hc) | rewrite (bool_decide_eq_false_2 _ Hc)].
    + destruct Hc as (Hc1 & Hc2 & Hc3).
      rewrite (bool_decide_eq_false_2 (_ ∧ roleID ∈ _))
        by (intros [_ Hin]; apply Hr; by rewrite Hc2).
      rewrite bool_decide_eq_true_2; [done|].
      split; [split; congruence|]. rewrite <- Hc2. by left.
    + simpl.
      assert (((perm_RoleID p = roleID ∧ perm_Scope p = scope) ∧ roleID ∈ role_ID <$> roles)
              ↔ ((perm_RoleID p = roleID ∧ perm_Scope p = scope)
                 ∧ roleID ∈ role_ID r :: (role_ID <$> roles))) as Hiff.
      { split.
        - intros [? ?]. split; [done|]. by right.
        - intros [[Hc1 Hc2] [Heq|?]%elem_of_cons]; [|done].
          destruct Hc. split_and!; congruence. }
      by rewrite (bool_decide_ext _ _ Hiff).
Qed.

Lemma select_current_storedAt roleID scope t :
  NoDup (role_ID <$> tbl_role t) → roleID ∈ role_ID <$> tbl_role t →
  select_current roleID scope t = storedAt roleID scope t.
Proof.
  intros Hnd Hin. unfold select_current, storedAt.
  induction (tbl_permission t) as [|p ps IH]; [done|].
  rewrite bind_cons, IH, (join_unique_role _ _ _ _ Hnd), filter_cons.
  case_bool_decide as Hc.
  - rewrite decide_True by tauto. done.
  - rewrite decide_False by tauto. done.
Qed.

Lemma get_role_by_name_elem orgID name t role :
  get_role_by_name orgID name t = Some role →
  role ∈ tbl_role t ∧ role_OrgID role = orgID ∧ role_Name role = name.
Proof.
  unfold get_role_by_name. intros Hh. apply head_Some_elem_of in Hh.
  apply list_elem_of_filter in Hh. tauto.
Qed.

(** *** What the differ keeps *)

Lemma removed_ids missing current id :
  id ∈ removed missing current → id ∈ perm_ID <$> current.
Proof.
  revert missing. induction current as [|p current IH]; intros missing; simpl.
  - by intros ?%elem_of_nil.
  - case_bool_decide.
    + intros Hin. right. by eapply IH.
    + intros [->|Hin]%elem_of_cons; [by left | right; by eapply IH].
Qed.

Lemma kept_spec (missing : gset string) (current : list Permission) :
  NoDup (perm_ID <$> current) →
  let kept := filter (λ p, perm_ID p ∉ removed missing current) current in
  NoDup (perm_Action <$> kept)
  ∧ ∀ a, a ∈ perm_Action <$> kept ↔ a ∈ missing ∧ a ∈ perm_Action <$> current.
Proof.
  revert missing. induction current as [|p current IH]; intros missing Hnd; simpl.
  { split; [constructor | intros a; split; [by intros ?%elem_of_nil | by intros [_ ?%elem_of_nil]]]. }
  simpl in Hnd. apply NoDup_cons in Hnd as [Hp Hnd].
  case_bool_decide as Hin.
  - rewrite filter_cons_True by (intros Hr%removed_ids; done).
    destruct (IH (missing ∖ {[perm_Action p]}) Hnd) as [Hk1 Hk2].
    simpl. split.
    + apply NoDup_cons. split; [|done]. rewrite Hk2. set_solver.
    + intros a. rewrite !elem_of_cons, Hk2.
      destruct (decide (a = perm_Action p)) as [->|]; set_solver.
  - rewrite filter_cons_False by (intros Hn; apply Hn; by left).
    assert (filter (λ q, perm_ID q ∉ perm_ID p :: removed missing current) current
            = filter (λ q, perm_ID q ∉ removed missing current) current) as ->.
    { apply filter_ext_elem. intros q Hq. rewrite not_elem_of_cons.
      split; [tauto|]. intros Hn. split; [|done]. intros Heq. apply Hp. rewrite <- Heq.
      by apply list_elem_of_fmap_2. }
    destruct (IH missing Hnd) as [Hk1 Hk2]. split; [done|].
    intros a. rewrite Hk2, elem_of_cons. split; [tauto|].
    intros [Ha [->|?]]; [done | tauto].
Qed.

Lemma NoDup_fmap_filter {A B} (f : A → B) (P : A → Prop) `{∀ x, Decision (P x)} (l : list A) :
  NoDup (f <$> l) → NoDup (f <$> filter P l).
Proof.
  induction l as [|x l IH]; [done|]. simpl. intros [Hx Hnd]%NoDup_cons.
  rewrite filter_cons. destruct (decide (P x)); [|by apply IH].
  simpl. apply NoDup_cons. split; [|by apply IH].
  intros (y & Hy & Hin)%list_elem_of_fmap. apply Hx. rewrite Hy.
  apply list_elem_of_fmap_2. by apply list_elem_of_filter in Hin as [_ ?].
Qed.

(** After the second loop and the two writes, the stored actions are the
    requested ones, once each. *)
Lemma diff_applied (actions : list string) (current new : list Permission) :
  NoDup (perm_ID <$> current) →
  let '(missing, remove) := setResourcePermission_diff actions current in
  perm_Action <$> new = elements missing →
  let after := filter (λ p, perm_ID p ∉ remove) current ++ new in
  NoDup (perm_Action <$> after) ∧ ∀ a, a ∈ perm_Action <$> after ↔ a ∈ actions.
Proof.
  intros Hnd. unfold setResourcePermission_diff. rewrite diff_fold. simpl.
  intros Hnew. destruct (kept_spec (list_to_set actions) current Hnd) as [Hk1 Hk2].
  rewrite fmap_app, Hnew. split.
  - apply NoDup_app. split_and!; [done | | apply NoDup_elements].
    intros a Ha Hb. apply Hk2 in Ha as [_ Ha]. apply elem_of_elements in Hb. set_solver.
  - intros a. rewrite elem_of_app, Hk2, elem_of_elements.
    destruct (decide (a ∈ perm_Action <$> current)); set_solver.
Qed.

Lemma filter_none {A} (P : A → Prop) `{∀ x, Decision (P x)} (l : list A) :
  (∀ x, x ∈ l → ¬ P x) → filter P l = [].
Proof.
  induction l as [|x l IH]; intros Hn; [done|].
  rewrite filter_cons_False by (apply Hn; by left). apply IH. intros y Hy. apply Hn. by right.
Qed.

(** When the stored actions already are the requested ones, once each,
    the diff is empty. *)
Lemma diff_satisfied (actions : list string) (current : list Permission) :
  NoDup (perm_Action <$> current) → (∀ a, a ∈ perm_Action <$> current ↔ a ∈ actions) →
  setResourcePermission_diff actions current = (∅, []).
Proof.
  intros Hnd Hiff. unfold setResourcePermission_diff. rewrite diff_fold. simpl. f_equal.
  - apply set_eq. intros a. rewrite elem_of_difference, !elem_of_list_to_set, <- Hiff.
    set_solver.
  - rewrite removed_NoDup by done.
    rewrite filter_none; [done|].
    intros p Hp Hn. apply Hn. rewrite elem_of_list_to_set, <- Hiff.
    by apply list_elem_of_fmap_2.
Qed.

(** *** Successful runs *)

Lemma query_Ok_inv {A} (q : Tables → A) w a w' :
  query q w = (Ok a, w') → a = q (tables w) ∧ tables w' = tables w.
Proof. intros (_ & -> & ->)%statement_Ok_inv. done. Qed.

Lemma exec_Ok_inv (q : Tables → Tables) w u w' :
  exec q w = (Ok u, w') → tables w' = q (tables w).
Proof. intros (_ & _ & ->)%statement_Ok_inv. done. Qed.

Lemma delete_permissions_in_nil t : delete_permissions_in [] t = t.
Proof.
  unfold delete_permissions_in, set_permissions. rewrite filter_not_elem_nil. by destruct t.
Qed.

Section IdempotenceProperties.
Context `{External}.

Lemma deletePermissions_Ok_inv ids w u w' :
  deletePermissions ids w = (Ok u, w') → tables w' = delete_permissions_in ids (tables w).
Proof.
  rewrite deletePermissions_run. case_bool_decide as Hids.
  - intros [= _ <-]. by rewrite Hids, delete_permissions_in_nil.
  - apply exec_Ok_inv.
Qed.

Lemma stampPermission_fields roleID p :
  perm_Action (stampPermission roleID p) = perm_Action p
  ∧ perm_RoleID (stampPermission roleID p) = roleID
  ∧ perm_Scope (stampPermission roleID p) = perm_Scope p.
Proof. unfold stampPermission. by destruct (SplitScope _) as [[? ?] ?]. Qed.

Lemma createPermissions_Ok_inv s roleID resource resourceID resourceAttribute actions perm
    w u w' :
  FlagAccessActionSets s = false →
  createPermissions s roleID resource resourceID resourceAttribute actions perm w = (Ok u, w') →
  tbl_role (tables w') = tbl_role (tables w)
  ∧ ∃ new, tbl_permission (tables w') = tbl_permission (tables w) ++ new
      ∧ perm_Action <$> new = elements actions
      ∧ Forall (λ p, perm_RoleID p = roleID
                     ∧ perm_Scope p = Scope [resource; resourceAttribute; resourceID]) new.
Proof.
  intros Hflag. unfold createPermissions. case_bool_decide as Hsize.
  - intros [= _ <-]. split; [done|]. exists []. rewrite app_nil_r.
    apply size_empty_inv in Hsize. apply leibniz_equiv in Hsize. subst actions.
    by rewrite elements_empty.
  - rewrite Hflag. intros Hrun%exec_Ok_inv. rewrite Hrun.
    split; [apply insert_permissions_role|].
    destruct (insert_permissions_spec
      ((λ action, stampPermission roleID
                    (managedPermission action resource resourceID resourceAttribute))
         <$> elements actions) (tables w)) as (new & Hp & Ha & Hr & Hs & _).
    exists new. split_and!; [done | |].
    + rewrite Ha, <- list_fmap_compose. etrans; [|apply list_fmap_id].
      apply list_fmap_ext. intros i a _. simpl.
      by destruct (stampPermission_fields roleID
                     (managedPermission a resource resourceID resourceAttribute)) as (-> & _).
    + apply Forall_forall. intros p Hp'.
      apply list_elem_of_lookup in Hp' as [i Hi].
      assert ((perm_RoleID <$> new) !! i = Some (perm_RoleID p)) as Hri
        by (by rewrite list_lookup_fmap, Hi).
      assert ((perm_Scope <$> new) !! i = Some (perm_Scope p)) as Hsi
        by (by rewrite list_lookup_fmap, Hi).
      rewrite Hr, <- list_fmap_compose, list_lookup_fmap in Hri.
      rewrite Hs, <- list_fmap_compose, list_lookup_fmap in Hsi.
      destruct (elements actions !! i) as [a|]; [|done]. simpl in Hri, Hsi.
      destruct (stampPermission_fields roleID
                  (managedPermission a resource resourceID resourceAttribute))
        as (_ & Hf2 & Hf3).
      rewrite Hf2 in Hri. rewrite Hf3 in Hsi. simpl in Hsi. split; congruence.
Qed.

Lemma keeps_bind {A B} (m : M A) (k : A → M B) :
  keeps_roles_permissions m → (∀ a, keeps_roles_permissions (k a)) →
  keeps_roles_permissions (bind m k).
Proof.
  intros Hm Hk w r w'. unfold bind. destruct (m w) as [[a|e] w1] eqn:Em.
  - intros Ek. destruct (Hm _ _ _ Em) as [Hr Hp]. destruct (Hk a _ _ _ Ek) as [Hr' Hp'].
    split; congruence.
  - intros [= <- <-]. by apply (Hm _ _ _ Em).
Qed.

Lemma keeps_statement {A} (q : Tables → A * Tables) :
  (∀ t, tbl_role (q t).2 = tbl_role t ∧ tbl_permission (q t).2 = tbl_permission t) →
  keeps_roles_permissions (statement q).
Proof.
  intros Hq w r w'. unfold statement. destruct (db_fault _ _); intros [= <- <-]; [done|].
  apply Hq.
Qed.

Lemma keeps_zClient_Write tuples : keeps_roles_permissions (zClient_Write tuples).
Proof.
  intros w r w'. unfold zClient_Write. by destruct (zfault _ _); intros [= <- <-].
Qed.

Lemma keeps_fail {A} e : keeps_roles_permissions (@fail A e).
Proof. by intros w r w' [= <- <-]. Qed.

Lemma adder_frame_userAdder orgID userID : adder_frame (userAdder orgID userID).
Proof.
  intros role. unfold userAdder.
  adder_shape @keeps_bind @keeps_statement @keeps_fail keeps_zClient_Write.
Qed.

Lemma adder_frame_teamAdder orgID teamID : adder_frame (teamAdder orgID teamID).
Proof.
  intros role. unfold teamAdder.
  adder_shape @keeps_bind @keeps_statement @keeps_fail keeps_zClient_Write.
Qed.

Lemma adder_frame_builtInRoleAdder orgID builtinRole :
  adder_frame (builtInRoleAdder orgID builtinRole).
Proof.
  intros role. unfold builtInRoleAdder.
  adder_shape @keeps_bind @keeps_statement @keeps_fail keeps_zClient_Write.
Qed.

Lemma getOrCreateManagedRole_Ok_inv orgID name add w role w' :
  adder_frame add → NoDup (role_ID <$> tbl_role (tables w)) →
  getOrCreateManagedRole orgID name add w = (Ok role, w') →
  get_role_by_name orgID name (tables w') = Some role
  ∧ NoDup (role_ID <$> tbl_role (tables w'))
  ∧ tbl_permission (tables w') = tbl_permission (tables w).
Proof.
  intros Hadd Hnd. unfold getOrCreateManagedRole.
  destruct (query (get_role_by_name orgID name) w) as [[orole|err] w1] eqn:Eq.
  2:{ destruct (createManagedRole orgID name add w1) as [[? | ?] ?]; intros; discriminate. }
  apply query_Ok_inv in Eq as [-> Ht1].
  destruct (get_role_by_name orgID name (tables w)) as [role0|] eqn:Eget.
  { intros [= <- <-]. unfold get_role_by_name in *. by rewrite Ht1. }
  unfold createManagedRole. intros Hrun.
  apply bind_Ok_inv in Hrun as (uid & w2 & Euid & Hrun).
  apply bind_Ok_inv in Hrun as (role' & w3 & Eins & Hrun).
  apply bind_Ok_inv in Hrun as (u & w4 & Eadd & Hrun).
  injection Hrun as <- <-.
  pose proof (generateNewRoleUID_loop_bound 3 orgID w1) as [Ht2 _].
  unfold generateNewRoleUID in Euid. rewrite Euid in Ht2. simpl in Ht2.
  apply statement_Ok_inv in Eins as (_ & -> & ->).
  destruct (Hadd _ _ _ _ Eadd) as [Hr4 Hp4]. simpl in Hr4, Hp4.
  unfold get_role_by_name in *. rewrite Hr4, Hp4, Ht2, Ht1. simpl. split_and!.
  - rewrite filter_app. apply head_None in Eget. rewrite Eget. simpl.
    rewrite filter_cons_True by done. done.
  - rewrite fmap_app. apply NoDup_app. split_and!; [done | | apply NoDup_singleton].
    intros x Hx ->%list_elem_of_singleton. by apply next_id_fresh in Hx.
  - done.
Qed.


Lemma filter_all {A} (P : A → Prop) `{∀ x, Decision (P x)} (l : list A) :
  Forall P l → filter P l = l.
Proof.
  induction 1 as [|x l Hx Hl IH]; [done|]. by rewrite filter_cons_True, IH.
Qed.

Lemma filter_comm {A} (P Q : A → Prop) `{∀ x, Decision (P x)} `{∀ x, Decision (Q x)}
    (l : list A) :
  filter P (filter Q l) = filter Q (filter P l).
Proof.
  rewrite !list_filter_filter. apply list_filter_iff. intros x. tauto.
Qed.

Lemma setResourcePermission_Ok_post s orgID roleName adder cmd w p w' :
  FlagAccessActionSets s = false → adder_frame adder → wf_tables (tables w) →
  setResourcePermission s orgID roleName adder cmd w = (Ok p, w') →
  let scope := Scope [cmd_Resource cmd; cmd_ResourceAttribute cmd; cmd_ResourceID cmd] in
  ∃ role, get_role_by_name orgID roleName (tables w') = Some role
    ∧ NoDup (role_ID <$> tbl_role (tables w'))
    ∧ NoDup (perm_Action <$> storedAt (role_ID role) scope (tables w'))
    ∧ (∀ a, a ∈ perm_Action <$> storedAt (role_ID role) scope (tables w')
            ↔ a ∈ cmd_Actions cmd)
    ∧ p = grantResult (role_ID role) scope (tables w').
Proof.
  intros Hflag Hadd [Hwr Hwp] Hrun scope. unfold setResourcePermission in Hrun. fold scope in Hrun.
  apply bind_Ok_inv in Hrun as (role & wa & Erole & Hrun).
  apply bind_Ok_inv in Hrun as (current & wb & Ecur & Hrun).
  apply (getOrCreateManagedRole_Ok_inv _ _ _ _ _ _ Hadd Hwr) in Erole as (Hget & Hnd & Hpa).
  apply query_Ok_inv in Ecur as [-> Htb].
  pose proof (get_role_by_name_elem _ _ _ _ Hget) as (Hrin & _ & _).
  rewrite select_current_storedAt in Hrun
    by (first [exact Hnd | by apply list_elem_of_fmap_2]).
  assert (NoDup (perm_ID <$> storedAt (role_ID role) scope (tables wa))) as Hndc.
  { unfold storedAt. apply NoDup_fmap_filter. by rewrite Hpa. }
  pose proof (diff_applied (cmd_Actions cmd) (storedAt (role_ID role) scope (tables wa))) as Hdiff.
  destruct (setResourcePermission_diff (cmd_Actions cmd)
              (storedAt (role_ID role) scope (tables wa))) as [missing remove].
  apply bind_Ok_inv in Hrun as (u1 & wc & Edel & Hrun).
  apply bind_Ok_inv in Hrun as (u2 & wd & Ecre & Hrun).
  apply bind_Ok_inv in Hrun as (u3 & we & Ewr & Hrun).
  apply bind_Ok_inv in Hrun as (permissions & wf & Eget & Hrun).
  apply deletePermissions_Ok_inv in Edel.
  apply (createPermissions_Ok_inv _ _ _ _ _ _ _ _ _ _ Hflag) in Ecre
    as (Hrd & new & Hpd & Hnew & Hall).
  apply zClient_Write_Ok_inv in Ewr as [_ ->].
  apply query_Ok_inv in Eget as [-> Htf].
  assert (tables w' = tables wd ∧ p = grantResult (role_ID role) scope (tables wd)) as [Htw ->].
  { unfold grantResult. simpl in Htf.
    destruct (flatPermissionsToResourcePermission _ _); injection Hrun as <- <-; by rewrite Htf. }
  rewrite Htw.
  assert (tbl_role (tables wd) = tbl_role (tables wa)) as Hroles.
  { rewrite Hrd, Edel, Htb. done. }
  assert (storedAt (role_ID role) scope (tables wd)
          = filter (λ q, perm_ID q ∉ remove) (storedAt (role_ID role) scope (tables wa)) ++ new)
    as Hstored.
  { unfold storedAt. rewrite Hpd, Edel, Htb. simpl. rewrite filter_app, filter_comm.
    f_equal. by apply filter_all. }
  exists role. split_and!.
  - unfold get_role_by_name in *. by rewrite Hroles.
  - by rewrite Hroles.
  - rewrite Hstored. by apply Hdiff.
  - rewrite Hstored. by apply Hdiff.
  - done.
Qed.

Lemma setResourcePermission_satisfied s orgID roleName adder cmd w role :
  let scope := Scope [cmd_Resource cmd; cmd_ResourceAttribute cmd; cmd_ResourceID cmd] in
  get_role_by_name orgID roleName (tables w) = Some role →
  NoDup (role_ID <$> tbl_role (tables w)) →
  NoDup (perm_Action <$> storedAt (role_ID role) scope (tables w)) →
  (∀ a, a ∈ perm_Action <$> storedAt (role_ID role) scope (tables w) ↔ a ∈ cmd_Actions cmd) →
  setResourcePermission_diff (cmd_Actions cmd) (select_current (role_ID role) scope (tables w))
  = (∅, [])
  ∧ ∀ p w', setResourcePermission s orgID roleName adder cmd w = (Ok p, w') →
      tables w' = tables w ∧ p = grantResult (role_ID role) scope (tables w).
Proof.
  intros scope Hget Hnd Hnda Hiff.
  pose proof (get_role_by_name_elem _ _ _ _ Hget) as (Hrin & _ & _).
  assert (setResourcePermission_diff (cmd_Actions cmd)
            (select_current (role_ID role) scope (tables w)) = (∅, [])) as Hdiff.
  { rewrite select_current_storedAt by (first [exact Hnd | by apply list_elem_of_fmap_2]).
    by apply diff_satisfied. }
  split; [done|]. intros p w' Hrun.
  unfold setResourcePermission in Hrun. fold scope in Hrun.
  apply bind_Ok_inv in Hrun as (role' & wa & Erole & Hrun).
  assert (role' = role ∧ tables wa = tables w) as [-> Hta].
  { revert Erole. unfold getOrCreateManagedRole.
    destruct (query (get_role_by_name orgID roleName) w) as [[orole|err] w1] eqn:Eq.
    - apply query_Ok_inv in Eq as [-> Ht1]. rewrite Hget. by intros [= <- <-].
    - destruct (createManagedRole orgID roleName adder w1) as [[? | ?] ?]; intros; discriminate. }
  apply bind_Ok_inv in Hrun as (current & wb & Ecur & Hrun).
  apply query_Ok_inv in Ecur as [-> Htb]. rewrite Hta, Hdiff in Hrun.
  apply bind_Ok_inv in Hrun as (u1 & wc & Edel & Hrun).
  apply bind_Ok_inv in Hrun as (u2 & wd & Ecre & Hrun).
  apply bind_Ok_inv in Hrun as (u3 & we & Ewr & Hrun).
  apply bind_Ok_inv in Hrun as (permissions & wf & Eget & Hrun).
  injection Edel as _ <-.
  unfold createPermissions in Ecre. rewrite size_empty in Ecre. simpl in Ecre.
  injection Ecre as _ <-.
  apply zClient_Write_Ok_inv in Ewr as [_ ->].
  apply query_Ok_inv in Eget as [-> Htf]. simpl in Htf.
  unfold grantResult. rewrite <- Hta, <- Htb.
  destruct (flatPermissionsToResourcePermission _ _); injection Hrun as <- <-; by rewrite Htf.
Qed.


Lemma guarded_grant_twice (guard : bool) (e0 : Error) s orgID roleName adder cmd w p1 w1 :
  let scope := Scope [cmd_Resource cmd; cmd_ResourceAttribute cmd; cmd_ResourceID cmd] in
  let m := if guard then fail e0
           else WithTransactionalDbSession
                  (grantCallback s orgID roleName adder cmd (ret tt)) in
  FlagAccessActionSets s = false → adder_frame adder → wf_tables (tables w) →
  m w = (Ok p1, w1) →
  (∃ role, get_role_by_name orgID roleName (tables w1) = Some role
     ∧ setResourcePermission_diff (cmd_Actions cmd)
         (select_current (role_ID role) scope (tables w1)) = (∅, []))
  ∧ tables (m w1).2 = tables w1
  ∧ (∀ p2, (m w1).1 = Ok p2 → p2 = p1).
Proof.
  intros scope m Hflag Hadd Hwf Hrun. subst m. destruct guard; [done|].
  assert (∀ w0 p w', WithTransactionalDbSession
                       (grantCallback s orgID roleName adder cmd (ret tt)) w0 = (Ok p, w') →
                     setResourcePermission s orgID roleName adder cmd w0 = (Ok p, w')) as Hinv.
  { intros w0 p w'. unfold WithTransactionalDbSession, grantCallback, bind, ret.
    destruct (setResourcePermission s orgID roleName adder cmd w0) as [[p'|e] w'']; [done|].
    intros; discriminate. }
  apply Hinv in Hrun.
  destruct (setResourcePermission_Ok_post _ _ _ _ _ _ _ _ Hflag Hadd Hwf Hrun)
    as (role & Hget & Hnd & Hnda & Hiff & ->).
  destruct (setResourcePermission_satisfied s orgID roleName adder cmd w1 role
              Hget Hnd Hnda Hiff) as [Hdiff Hnoop].
  split; [by exists role|].
  destruct (WithTransactionalDbSession (grantCallback s orgID roleName adder cmd (ret tt)) w1)
    as [[p2|e] w2] eqn:E2.
  - apply Hinv in E2. destruct (Hnoop _ _ E2) as [Ht ->]. simpl. split; [done|].
    by intros ? [= <-].
  - pose proof (WithTransactionalDbSession_Err
                  (grantCallback s orgID roleName adder cmd (ret tt)) w1 e) as Hroll.
    rewrite E2 in Hroll. simpl in *. split; [by apply Hroll | done].
Qed.

(** C3, as the code has it.  With the action-set toggle off, on a store
    whose primary keys are unique, for each of the three grant operations
    run without hook: after a successful grant, the same grant again
    computes an empty diff against the stored permissions of the managed
    role (nothing missing, nothing to remove), leaves every table as the
    first grant left it, and, when it succeeds, returns the same
    permission. *)
Theorem grant_twice_is_noop (s : store) (orgID : Z) (usr : User) (teamID : Z)
    (builtInRole : string) (cmd : SetResourcePermissionCommand) (w : World)
    (roleName : string) (m : M ResourcePermission) (p1 : ResourcePermission) (w1 : World) :
  let scope := Scope [cmd_Resource cmd; cmd_ResourceAttribute cmd; cmd_ResourceID cmd] in
  FlagAccessActionSets s = false →
  wf_tables (tables w) →
  (roleName, m) ∈
    [(ManagedUserRoleName (User_ID usr), SetUserResourcePermission s orgID usr cmd None);
     (ManagedTeamRoleName teamID, SetTeamResourcePermission s orgID teamID cmd None);
     (ManagedBuiltInRoleName builtInRole,
      SetBuiltInResourcePermission s orgID builtInRole cmd None)] →
  m w = (Ok p1, w1) →
  (∃ role, get_role_by_name orgID roleName (tables w1) = Some role
     ∧ setResourcePermission_diff (cmd_Actions cmd)
         (select_current (role_ID role) scope (tables w1)) = (∅, []))
  ∧ tables (m w1).2 = tables w1
  ∧ (∀ p2, (m w1).1 = Ok p2 → p2 = p1).
Proof.
  intros scope Hflag Hwf Hm Hrun.
  repeat (apply elem_of_cons in Hm as [[= -> ->] | Hm]); [| | |by apply elem_of_nil in Hm].
  - apply (guarded_grant_twice (bool_decide (User_ID usr = 0)) ErrUserNotFound
             s orgID _ _ cmd w p1 w1 Hflag (adder_frame_userAdder _ _) Hwf Hrun).
  - apply (guarded_grant_twice (bool_decide (teamID = 0)) ErrTeamNotFound
             s orgID _ _ cmd w p1 w1 Hflag (adder_frame_teamAdder _ _) Hwf Hrun).
  - apply (guarded_grant_twice
             (negb (RoleType_IsValid builtInRole)
              || bool_decide (builtInRole = RoleGrafanaAdmin))
             (ErrMsg ("invalid role: " +:+ builtInRole))
             s orgID _ _ cmd w p1 w1 Hflag (adder_frame_builtInRoleAdder _ _) Hwf Hrun).
Qed.

End IdempotenceProperties.

(** ** Full resync of org memberships *)

Lemma pretty_N_char_num x : is_num_char (pretty_N_char x) = true.
Proof. unfold pretty_N_char. by repeat case_match. Qed.

Lemma pretty_N_go_num x s : all_num s = true → all_num (pretty_N_go x s) = true.
Proof.
  revert s. induction (N.lt_wf_0 x) as [x _ IH]; intros s Hs.
  destruct (decide (x = 0)%N) as [->|].
  - by rewrite pretty_N_go_0.
  - rewrite pretty_N_go_step by lia. apply IH.
    + apply N.div_lt; lia.
    + simpl. by rewrite pretty_N_char_num.
Qed.

Lemma pretty_N_num (x : N) : all_num (pretty x) = true.
Proof.
  unfold pretty, pretty_N. case_decide; [done|]. by apply pretty_N_go_num.
Qed.

Lemma FormatInt_num x : all_num (FormatInt x) = true.
Proof.
  unfold FormatInt, pretty, pretty_Z. destruct x as [|p|p]; [done | apply pretty_N_num|].
  simpl. apply (pretty_N_num (N.pos p)).
Qed.

Lemma append_nil_l (t : string) : "" +:+ t = t.
Proof. reflexivity. Qed.

Lemma append_cons c (s t : string) : String c s +:+ t = String c (s +:+ t).
Proof. reflexivity. Qed.

Lemma num_prefix_inj s1 s2 t1 t2 :
  all_num s1 = true → all_num s2 = true → starts_non_num t1 → starts_non_num t2 →
  s1 +:+ t1 = s2 +:+ t2 → s1 = s2 ∧ t1 = t2.
Proof.
  revert s2. induction s1 as [|c1 s1 IH]; intros [|c2 s2] H1 H2 Ht1 Ht2;
    rewrite ?append_nil_l, ?append_cons; simpl in *.
  - done.
  - intros ->. simpl in Ht1. apply andb_true_iff in H2 as [H2 _]. congruence.
  - intros <-. simpl in Ht2. apply andb_true_iff in H1 as [H1 _]. congruence.
  - intros [= -> Heq]. apply andb_true_iff in H1 as [_ H1]. apply andb_true_iff in H2 as [_ H2].
    destruct (IH s2 H1 H2 Ht1 Ht2 Heq) as [-> ->]. done.
Qed.

Lemma append_assoc (s1 s2 s3 : string) : (s1 +:+ s2) +:+ s3 = s1 +:+ (s2 +:+ s3).
Proof. induction s1 as [|c s1 IH]; [done|]. by rewrite !append_cons, IH. Qed.

Lemma chunks_concat {A} fuel n (l : list A) :
  (0 < n)%nat → (List.length l ≤ fuel)%nat → List.concat (chunks fuel n l) = l.
Proof.
  intros Hn. revert l. induction fuel as [|fuel IH]; intros l Hl.
  - destruct l; [done | simpl in Hl; lia].
  - destruct l as [|x l]; [done|]. cbn [chunks List.concat].
    rewrite IH; [apply take_drop|]. rewrite length_drop. simpl in *. lia.
Qed.

Lemma chunks_sizes {A} fuel n (l : list A) :
  (0 < n)%nat → Forall (λ b, 0 < List.length b ≤ n)%nat (chunks fuel n l).
Proof.
  intros Hn. revert l. induction fuel as [|fuel IH]; intros l; [constructor|].
  destruct l as [|x l]; [constructor|]. cbn [chunks]. constructor; [|apply IH].
  rewrite length_take. simpl. lia.
Qed.

Lemma chunks_length {A} fuel n (l : list A) :
  (0 < n)%nat → (List.length l ≤ fuel)%nat →
  List.length (chunks fuel n l) = ((List.length l + n - 1) / n)%nat.
Proof.
  intros Hn. revert l. induction fuel as [|fuel IH]; intros l Hl.
  - destruct l; [|simpl in Hl; lia]. simpl. symmetry. apply Nat.div_small. lia.
  - destruct l as [|x l]; [simpl; symmetry; apply Nat.div_small; lia|].
    cbn [chunks List.length]. rewrite IH by (rewrite length_drop; simpl in *; lia).
    rewrite length_drop. cbn [List.length].
    replace (S (List.length l) + n - 1)%nat with (List.length l + 1 * n)%nat by lia.
    rewrite Nat.div_add by lia.
    destruct (decide (n ≤ S (List.length l))%nat).
    + replace (S (List.length l) - n + n - 1)%nat with (List.length l) by lia. lia.
    + rewrite !Nat.div_small by lia. lia.
Qed.

Lemma chunks_cons {A} fuel n (l : list A) :
  l ≠ [] → chunks (S fuel) n l = take n l :: chunks fuel n (drop n l).
Proof. by destruct l. Qed.

Lemma engineAfter_nil w : engineAfter [] 0 w = w.
Proof. unfold engineAfter. rewrite app_nil_r. by destruct w. Qed.

Lemma writeAll_ok batches w :
  (∀ j, (j < List.length batches)%nat → zfault w (j + zcalls w) = false) →
  writeAll batches w = (Ok tt, engineAfter batches (List.length batches) w).
Proof.
  revert w. induction batches as [|b batches IH]; intros w Hok.
  - simpl. unfold ret. by rewrite engineAfter_nil.
  - cbn [writeAll foldr]. unfold bind, zClient_Write.
    pose proof (Hok 0%nat ltac:(simpl; lia)) as H0. simpl in H0. rewrite H0.
    fold (writeAll batches). rewrite IH.
    + f_equal. unfold engineAfter. simpl. rewrite <- app_assoc. simpl. f_equal. lia.
    + intros j Hj. simpl. replace (j + S (zcalls w))%nat with (S j + zcalls w)%nat by lia.
      apply Hok. simpl. lia.
Qed.

Lemma writeAll_fail batches w k :
  (k < List.length batches)%nat →
  (∀ j, (j < k)%nat → zfault w (j + zcalls w) = false) →
  zfault w (k + zcalls w) = true →
  writeAll batches w = (Err ErrWrite, engineAfter (take k batches) (S k) w).
Proof.
  revert w k. induction batches as [|b batches IH]; intros w k Hk Hok Hfail;
    [simpl in Hk; lia|].
  cbn [writeAll foldr]. unfold bind, zClient_Write. destruct k as [|k].
  - simpl in Hfail. rewrite Hfail. f_equal. unfold engineAfter. simpl.
    rewrite app_nil_r. by destruct w.
  - pose proof (Hok 0%nat ltac:(lia)) as H0. simpl in H0. rewrite H0.
    fold (writeAll batches). rewrite (IH _ k).
    + f_equal. unfold engineAfter. simpl. rewrite <- app_assoc. simpl. f_equal. lia.
    + simpl in Hk. lia.
    + intros j Hj. simpl. replace (j + S (zcalls w))%nat with (S j + zcalls w)%nat by lia.
      apply Hok. lia.
    + simpl. replace (k + S (zcalls w))%nat with (S k + zcalls w)%nat by lia. done.
Qed.

Section ResyncProperties.
Context `{External}.

Lemma writeBatches_chunks fuel n flatTuples i :
  (0 < n)%nat →
  writeBatches fuel n flatTuples i = writeAll (chunks fuel n (drop i flatTuples)).
Proof.
  intros Hn. revert i. induction fuel as [|fuel IH]; intros i; [done|].
  cbn [writeBatches]. case_bool_decide as Hi.
  - rewrite chunks_cons
      by (intros Edrop; apply (f_equal List.length) in Edrop;
          rewrite length_drop in Edrop; simpl in Edrop; lia).
    rewrite drop_drop, (IH (i + n)%nat). unfold writeAll. cbn [foldr]. f_equal.
    case_bool_decide.
    + rewrite !take_ge; [done | | ]; rewrite length_drop; lia.
    + by replace (i + n - i)%nat with n by lia.
  - rewrite drop_ge by lia. by destruct fuel.
Qed.

Lemma derived_shape rows key :
  key ∈ derivedTuples rows →
  ∃ u, tk_User key = "user:" +:+ FormatInt u
       ∧ (tk_Relation key = "member" ∨ tk_Relation key = "assignee")
       ∧ tk_Condition key = false.
Proof.
  unfold derivedTuples. intros (memb & Hk & _)%list_elem_of_bind.
  exists (memb_UserId memb).
  apply elem_of_cons in Hk as [-> | Hk]; [simpl; tauto|].
  apply list_elem_of_singleton in Hk as ->. simpl; tauto.
Qed.

Lemma tupleMapKey_inj rows k1 k2 :
  k1 ∈ derivedTuples rows → k2 ∈ derivedTuples rows →
  tupleMapKey k1 = tupleMapKey k2 → k1 = k2.
Proof.
  intros (u1 & Hu1 & Hr1 & Hc1)%derived_shape (u2 & Hu2 & Hr2 & Hc2)%derived_shape.
  destruct k1 as [us1 r1 o1 c1], k2 as [us2 r2 o2 c2]. unfold tupleMapKey. simpl in *.
  subst us1 us2 c1 c2. rewrite !append_assoc. intros [= Heq].
  rewrite !append_nil_l in Heq.
  apply num_prefix_inj in Heq as [Hu Heq]; [| apply FormatInt_num | apply FormatInt_num | |].
  - destruct Hr1 as [-> | ->], Hr2 as [-> | ->];
      rewrite ?append_cons, ?append_nil_l in Heq; try discriminate;
      injection Heq as ->; by rewrite Hu.
  - by destruct Hr1 as [-> | ->].
  - by destruct Hr2 as [-> | ->].
Qed.


Lemma collectTuples_fold rows (tupleKeys : gmap string TupleKey) :
  foldl collect_step tupleKeys rows
  = foldl (λ acc key, <[tupleMapKey key := key]> acc) tupleKeys (derivedTuples rows).
Proof.
  revert tupleKeys. induction rows as [|memb rows IH]; intros tupleKeys; [done|].
  unfold derivedTuples. rewrite bind_cons. simpl. rewrite IH. done.
Qed.

Lemma fold_insert_lookup (keys : list TupleKey) :
  (∀ k1 k2, k1 ∈ keys → k2 ∈ keys → tupleMapKey k1 = tupleMapKey k2 → k1 = k2) →
  ∀ s key,
    foldl (λ acc key, <[tupleMapKey key := key]> acc) (∅ : gmap string TupleKey) keys !! s
    = Some key
    ↔ key ∈ keys ∧ tupleMapKey key = s.
Proof.
  induction keys as [|k0 keys IH] using rev_ind; intros Hinj s key.
  - simpl. rewrite lookup_empty. split; [done | by intros [?%elem_of_nil _]].
  - rewrite foldl_app. simpl.
    assert (∀ k1 k2, k1 ∈ keys → k2 ∈ keys → tupleMapKey k1 = tupleMapKey k2 → k1 = k2)
      as Hinj' by (intros k1 k2 ? ?; apply Hinj; apply elem_of_app; by left).
    destruct (decide (tupleMapKey k0 = s)) as [<-|Hne].
    + rewrite lookup_insert_eq. split.
      * intros [= <-]. split; [|done]. apply elem_of_app. right. by left.
      * intros [Hin Heq]. f_equal. symmetry. apply Hinj; [done | | done].
        apply elem_of_app. right. by left.
    + rewrite lookup_insert_ne by done. rewrite (IH Hinj'). split.
      * intros [? ?]. split; [|done]. apply elem_of_app. by left.
      * intros [[?|Hk0%list_elem_of_singleton]%elem_of_app Heq]; [done|].
        subst key. by destruct Hne.
Qed.

Lemma flattenTuples_elem rows key :
  key ∈ flattenTuples (collectTuples rows) ↔ key ∈ derivedTuples rows.
Proof.
  unfold flattenTuples, collectTuples. rewrite collectTuples_fold.
  rewrite list_elem_of_fmap. split.
  - intros ([s k] & -> & Hin). apply elem_of_map_to_list in Hin.
    apply fold_insert_lookup in Hin as [? _]; [done|]. apply (tupleMapKey_inj rows).
  - intros Hin. exists (tupleMapKey key, key). split; [done|].
    apply elem_of_map_to_list. apply fold_insert_lookup; [apply (tupleMapKey_inj rows) | done].
Qed.

Lemma tripleOf_inj rows k1 k2 :
  k1 ∈ derivedTuples rows → k2 ∈ derivedTuples rows → tripleOf k1 = tripleOf k2 → k1 = k2.
Proof.
  intros (_ & _ & _ & Hc1)%derived_shape (_ & _ & _ & Hc2)%derived_shape.
  destruct k1, k2. unfold tripleOf. simpl in *. congruence.
Qed.

Lemma flattenTuples_NoDup rows :
  NoDup (tripleOf <$> flattenTuples (collectTuples rows)).
Proof.
  apply NoDup_fmap_2_strong.
  { intros k1 k2 ?%flattenTuples_elem ?%flattenTuples_elem. by apply (tripleOf_inj rows). }
  unfold flattenTuples, collectTuples. rewrite collectTuples_fold.
  apply NoDup_fmap_2_strong; [|apply NoDup_map_to_list].
  intros [s1 k1] [s2 k2] H1%elem_of_map_to_list H2%elem_of_map_to_list. simpl. intros <-.
  apply fold_insert_lookup in H1 as [_ <-]; [|apply (tupleMapKey_inj rows)].
  apply fold_insert_lookup in H2 as [_ <-]; [|apply (tupleMapKey_inj rows)]. done.
Qed.

Lemma flattenTuples_dedup rows :
  tripleOf <$> flattenTuples (collectTuples rows)
  ≡ₚ remove_dups (tripleOf <$> derivedTuples rows).
Proof.
  apply NoDup_Permutation; [apply flattenTuples_NoDup | apply NoDup_remove_dups|].
  intros x. rewrite elem_of_remove_dups, !list_elem_of_fmap.
  by setoid_rewrite flattenTuples_elem.
Qed.


(** C6.  The flattened tuples are the derived membership and basic-role
    tuples with duplicates removed: their (user, relation, object)
    triples are pairwise distinct and are exactly the distinct triples of
    the derived tuples, so their number is the number of distinct triples.
    The batches cover the flattened tuples in order, each holds between 1
    and 100 tuples, and there are ceil(N/100) of them.  When reading the
    rows fails, the error is returned and no RPC is sent.  Otherwise the
    batches are written one RPC each, in order: when every write succeeds
    the engine has accepted all batches; when batch [k] is the first to
    fail, the error is returned after [k + 1] RPCs, the engine has
    accepted the first [k] batches, and no later batch was attempted. *)
Theorem syncOrgMembership_spec (w : World) :
  let rows := tbl_org_user (tables w) in
  let flatTuples := flattenTuples (collectTuples rows) in
  let batches := chunks (List.length flatTuples) 100 flatTuples in
  tripleOf <$> flatTuples ≡ₚ remove_dups (tripleOf <$> derivedTuples rows)
  ∧ List.length flatTuples = List.length (remove_dups (tripleOf <$> derivedTuples rows))
  ∧ List.concat batches = flatTuples
  ∧ Forall (λ b, 0 < List.length b ≤ 100)%nat batches
  ∧ List.length batches = ((List.length flatTuples + 99) / 100)%nat
  ∧ (db_fault w (db_calls w) = true →
     syncOrgMembership w = (Err ErrStorage, consumed 1 0 w))
  ∧ (db_fault w (db_calls w) = false →
     ((∀ j, (j < List.length batches)%nat → zfault w (j + zcalls w) = false) →
      syncOrgMembership w
      = (Ok tt, engineAfter batches (List.length batches) (consumed 1 0 w)))
     ∧ (∀ k, (k < List.length batches)%nat →
          (∀ j, (j < k)%nat → zfault w (j + zcalls w) = false) →
          zfault w (k + zcalls w) = true →
          syncOrgMembership w
          = (Err ErrWrite, engineAfter (take k batches) (S k) (consumed 1 0 w)))).
Proof.
  intros rows flatTuples batches.
  pose proof (flattenTuples_dedup rows) as Hdedup. fold flatTuples in Hdedup.
  split_and!.
  - done.
  - rewrite <- Hdedup. by rewrite length_fmap.
  - by apply chunks_concat; [lia|].
  - apply chunks_sizes. lia.
  - subst batches. rewrite chunks_length by lia. f_equal. lia.
  - intros Hfault. unfold syncOrgMembership, WithDbSession, bind, query, statement.
    by rewrite Hfault.
  - intros Hread.
    assert (syncOrgMembership w = writeAll batches (consumed 1 0 w)) as ->.
    { unfold syncOrgMembership, WithDbSession. erewrite bind_Ok; [|by apply query_Ok].
      fold rows. fold flatTuples. rewrite writeBatches_chunks by lia. done. }
    split.
    + intros Hok. by apply writeAll_ok.
    + intros k Hk Hok Hfail. by apply writeAll_fail.
Qed.

End ResyncProperties.


(** * Further properties *)

(** ** Lower case and action-set names *)

Lemma lower_ascii_idem c : lower_ascii (lower_ascii c) = lower_ascii c.
Proof. destruct c as [[] [] [] [] [] [] [] []]; reflexivity. Qed.

Lemma ToLower_idem s : ToLower (ToLower s) = ToLower s.
Proof. induction s as [|c s IH]; [done|]. simpl. by rewrite lower_ascii_idem, IH. Qed.

Lemma ToLower_app s t : ToLower (s +:+ t) = ToLower s +:+ ToLower t.
Proof.
  induction s as [|c s IH]; [done|]. rewrite append_cons. simpl. by rewrite IH, append_cons.
Qed.

Lemma GetActionSetName_lower resource permission :
  ToLower (GetActionSetName resource permission) = GetActionSetName resource permission.
Proof. unfold GetActionSetName. by rewrite !ToLower_app, !ToLower_idem. Qed.

Lemma GetActionSetName_case resource permission resource' permission' :
  ToLower resource = ToLower resource' → ToLower permission = ToLower permission' →
  GetActionSetName resource permission = GetActionSetName resource' permission'.
Proof. unfold GetActionSetName. by intros -> ->. Qed.

(** X1.  An action set stored for a resource and a permission is read
    back under the name of any spelling of them that differs in ASCII
    case only, and storing it changes the action set of no other name. *)
Theorem StoreActionSet_GetActionSet (s : InMemoryActionSets)
    (resource permission resource' permission' : string) (actions : list string) :
  ToLower resource = ToLower resource' → ToLower permission = ToLower permission' →
  GetActionSet (StoreActionSet s resource permission actions)
    (GetActionSetName resource' permission') = actions
  ∧ ∀ name, name ≠ GetActionSetName resource' permission' →
      GetActionSet (StoreActionSet s resource permission actions) name = GetActionSet s name.
Proof.
  intros Hr Hp. rewrite <- (GetActionSetName_case _ _ _ _ Hr Hp).
  unfold GetActionSet, StoreActionSet. simpl. split.
  - by rewrite lookup_insert_eq.
  - intros name Hne. by rewrite lookup_insert_ne.
Qed.

Lemma storeAll_snoc calls call :
  storeAll (calls ++ [call]) = StoreActionSet (storeAll calls) call.1.1 call.1.2 call.2.
Proof. unfold storeAll. by rewrite foldl_app. Qed.

(** X2.  After any sequence of [StoreActionSet] calls on a fresh
    service, a name reads the actions of the last call made for that name
    and nothing when there was none; every name that reads something is in
    lower case, so a name with an upper-case ASCII letter reads nothing. *)
Theorem storeAll_GetActionSet (calls : list (string * string * list string)) (name : string) :
  GetActionSet (storeAll calls) name
  = from_option snd []
      (last (filter (λ call, GetActionSetName call.1.1 call.1.2 = name) calls))
  ∧ (GetActionSet (storeAll calls) name ≠ [] → ToLower name = name).
Proof.
  assert (GetActionSet (storeAll calls) name
          = from_option snd []
              (last (filter (λ call, GetActionSetName call.1.1 call.1.2 = name) calls)))
    as Hread.
  { induction calls as [|call calls IH] using rev_ind; [done|].
    rewrite storeAll_snoc, filter_app, filter_cons, filter_nil.
    unfold GetActionSet, StoreActionSet in *. simpl.
    destruct (decide (GetActionSetName call.1.1 call.1.2 = name)) as [<-|Hne].
    - rewrite lookup_insert_eq, last_snoc. done.
    - rewrite lookup_insert_ne by done. by rewrite app_nil_r. }
  split; [done|]. rewrite Hread. intros Hsome.
  destruct (last _) as [call|] eqn:Elast; [|done].
  apply last_Some_elem_of, list_elem_of_filter in Elast as [<- _].
  apply GetActionSetName_lower.
Qed.


(** ** Grouping *)

Lemma nonempty_snoc {A} (l : list A) x : nonempty (l ++ [x]) = Some (l ++ [x]).
Proof. by destruct l. Qed.

Lemma default_nonempty {A} (l : list A) : default [] (nonempty l) = l.
Proof. by destruct l. Qed.

Lemma appendAt_lookup {K} `{Countable K} {A} (m : gmap K (list A)) k x k' :
  appendAt m k x !! k'
  = if decide (k = k') then Some (default [] (m !! k) ++ [x]) else m !! k'.
Proof. unfold appendAt. apply lookup_insert. Qed.

Lemma values_insert {K} `{Countable K} {A} (m : gmap K (list A)) k v :
  mjoin (map_to_list (<[k := v]> m)).*2 ≡ₚ v ++ mjoin (map_to_list (delete k m)).*2.
Proof.
  rewrite <- insert_delete_eq. rewrite map_to_list_insert by apply lookup_delete_eq. done.
Qed.

Lemma values_lookup {K} `{Countable K} {A} (m : gmap K (list A)) k :
  mjoin (map_to_list m).*2 ≡ₚ default [] (m !! k) ++ mjoin (map_to_list (delete k m)).*2.
Proof.
  destruct (m !! k) as [v|] eqn:Ek; simpl.
  - by rewrite <- (map_to_list_delete m k v Ek).
  - by rewrite delete_id.
Qed.

Lemma values_appendAt {K} `{Countable K} {A} (m : gmap K (list A)) k x :
  mjoin (map_to_list (appendAt m k x)).*2 ≡ₚ mjoin (map_to_list m).*2 ++ [x].
Proof.
  unfold appendAt. rewrite values_insert, (values_lookup m k).
  rewrite <- !app_assoc. apply Permutation_app_head, Permutation_app_comm.
Qed.

Section Grouping.
Context {A B K : Type} `{Countable K} (key : A → option K) (f : A → B).

Lemma groupBy_snoc l x :
  groupBy key f (l ++ [x])
  = match key x with Some k => appendAt (groupBy key f l) k (f x) | None => groupBy key f l end.
Proof. unfold groupBy. by rewrite foldl_app. Qed.

Lemma groupBy_lookup l k :
  groupBy key f l !! k = nonempty (f <$> filter (λ x, key x = Some k) l).
Proof.
  induction l as [|x l IH] using rev_ind; [done|].
  rewrite groupBy_snoc, filter_app, filter_cons, filter_nil.
  destruct (key x) as [k0|] eqn:Ekey.
  - rewrite appendAt_lookup. destruct (decide (k0 = k)) as [->|Hne].
    + rewrite decide_True by done. rewrite IH, default_nonempty, fmap_app.
      change (f <$> [x]) with [f x]. by rewrite nonempty_snoc.
    + rewrite decide_False by congruence. by rewrite app_nil_r.
  - rewrite decide_False by done. by rewrite app_nil_r.
Qed.

Lemma groupBy_values l :
  mjoin (map_to_list (groupBy key f l)).*2 ≡ₚ f <$> filter (λ x, is_Some (key x)) l.
Proof.
  induction l as [|x l IH] using rev_ind; [done|].
  rewrite groupBy_snoc, filter_app, filter_cons, filter_nil, fmap_app.
  destruct (key x) as [k0|] eqn:Ekey.
  - rewrite decide_True by done. by rewrite values_appendAt, IH.
  - rewrite decide_False by (by intros [? ?]). by rewrite app_nil_r.
Qed.

(** Every group is non-empty and holds only values filed under its key. *)
Lemma groupBy_group l k group :
  groupBy key f l !! k = Some group →
  group ≠ [] ∧ group = f <$> filter (λ x, key x = Some k) l.
Proof.
  rewrite groupBy_lookup. destruct (f <$> filter _ l) as [|y ys] eqn:E; [done|].
  simpl. intros [= <-]. done.
Qed.

End Grouping.

Lemma groupPermissionsByAssignment_groupBy permissions :
  groupPermissionsByAssignment permissions
  = mkGrouped (groupBy userKey id permissions) (groupBy teamKey id permissions)
      (groupBy builtinKey id permissions).
Proof.
  unfold groupPermissionsByAssignment.
  induction permissions as [|p permissions IH] using rev_ind; [done|].
  rewrite foldl_app, IH, !groupBy_snoc. simpl.
  unfold group_step, userKey, teamKey, builtinKey. simpl.
  repeat case_bool_decide; done.
Qed.

(** X3.  [groupPermissionsByAssignment] files every row under its user
    when it has one, else under its team when it has one, else under its
    built-in role when it has one, and drops it otherwise: each map holds
    under a key exactly the rows of that subject, in input order, and has
    no entry for a key without rows. *)
Theorem groupPermissionsByAssignment_spec (permissions : list flatResourcePermission)
    (userID teamID : Z) (builtInRole : string) :
  let g := groupPermissionsByAssignment permissions in
  grp_users g !! userID
  = nonempty (filter (λ p, frp_UserId p ≠ 0 ∧ frp_UserId p = userID) permissions)
  ∧ grp_teams g !! teamID
    = nonempty (filter (λ p, frp_UserId p = 0 ∧ frp_TeamId p ≠ 0 ∧ frp_TeamId p = teamID)
                  permissions)
  ∧ grp_builtins g !! builtInRole
    = nonempty (filter (λ p, frp_UserId p = 0 ∧ frp_TeamId p = 0
                             ∧ frp_BuiltInRole p ≠ "" ∧ frp_BuiltInRole p = builtInRole)
                  permissions).
Proof.
  intros g. subst g. rewrite groupPermissionsByAssignment_groupBy. simpl.
  rewrite !groupBy_lookup, !list_fmap_id. split_and!; f_equal; apply filter_ext_elem;
    intros p _; unfold userKey, teamKey, builtinKey; repeat case_bool_decide; naive_solver.
Qed.


(** ** Aggregating rows into resource permissions *)

Lemma flatPermissionsToResourcePermission_Some scope permissions :
  permissions ≠ [] →
  ∃ rp first, flatPermissionsToResourcePermission scope permissions = Some rp
    ∧ head permissions = Some first
    ∧ rp_Actions rp = frp_Action <$> permissions
    ∧ rp_IsManaged rp = IsManaged first scope
    ∧ rp_IsInherited rp = IsInherited first scope
    ∧ rp_UserId rp = frp_UserId first
    ∧ rp_TeamId rp = frp_TeamId first
    ∧ rp_BuiltInRole rp = frp_BuiltInRole first.
Proof. destruct permissions as [|first rest]; [done|]. intros _. by eexists _, first. Qed.

Lemma filter_head_elem {A} (P : A → Prop) `{∀ x, Decision (P x)} (l : list A) x :
  head (filter P l) = Some x → P x ∧ x ∈ l.
Proof. intros Hh%head_Some_elem_of. by apply list_elem_of_filter in Hh. Qed.

(** The entry a bucket contributes. *)
Lemma bucket_entry scope (P : flatResourcePermission → Prop) `{∀ x, Decision (P x)}
    permissions :
  match flatPermissionsToResourcePermission scope (filter P permissions) with
  | None => filter P permissions = []
  | Some rp =>
      ∃ first, P first ∧ first ∈ permissions
        ∧ rp_Actions rp = frp_Action <$> filter P permissions
        ∧ rp_Actions rp ≠ []
        ∧ rp_IsManaged rp = IsManaged first scope
        ∧ rp_IsInherited rp = IsInherited first scope
        ∧ rp_UserId rp = frp_UserId first
        ∧ rp_TeamId rp = frp_TeamId first
        ∧ rp_BuiltInRole rp = frp_BuiltInRole first
  end.
Proof.
  destruct (filter P permissions) as [|first rest] eqn:E; [done|].
  assert (head (filter P permissions) = Some first) as Hh by (by rewrite E).
  apply filter_head_elem in Hh as [? ?]. simpl. exists first. split_and!; done.
Qed.

Lemma flatPermissionsToResourcePermissions_buckets scope permissions :
  flatPermissionsToResourcePermissions scope permissions
  = omap (flatPermissionsToResourcePermission scope)
      [filter (managedRow scope) permissions; filter (inheritedRow scope) permissions;
       filter provisionedRow permissions].
Proof.
  unfold flatPermissionsToResourcePermissions, buckets, appendPermission.
  rewrite buckets_fold. simpl.
  destruct (flatPermissionsToResourcePermission scope (filter (managedRow scope) _)),
    (flatPermissionsToResourcePermission scope (filter (inheritedRow scope) _)),
    (flatPermissionsToResourcePermission scope (filter provisionedRow _)); done.
Qed.

Lemma managedRow_flags scope p :
  managedRow scope p → IsManaged p scope = true ∧ IsInherited p scope = false.
Proof.
  intros Hm. split; [by apply IsManaged_true|].
  destruct (IsInherited p scope) eqn:E; [|done]. apply IsInherited_true in E.
  destruct Hm, E. done.
Qed.

Lemma inheritedRow_flags scope p :
  inheritedRow scope p → IsManaged p scope = false ∧ IsInherited p scope = true.
Proof.
  intros Hi. split; [|by apply IsInherited_true].
  destruct (IsManaged p scope) eqn:E; [|done]. apply IsManaged_true in E.
  destruct Hi, E. done.
Qed.

Lemma provisionedRow_flags scope p :
  provisionedRow p → IsManaged p scope = false ∧ IsInherited p scope = false.
Proof.
  unfold provisionedRow, IsManaged, IsInherited. by intros ->.
Qed.

Lemma omap_cons_Some {A B} (f : A → option B) x y l :
  f x = Some y → omap f (x :: l) = y :: omap f l.
Proof. intros Hf. simpl. by rewrite Hf. Qed.

Lemma omap_cons_None {A B} (f : A → option B) x l :
  f x = None → omap f (x :: l) = omap f l.
Proof. intros Hf. simpl. by rewrite Hf. Qed.

Lemma aggregate_actions scope (groups : list (list flatResourcePermission)) :
  omap (flatPermissionsToResourcePermission scope) groups ≫= rp_Actions
  = frp_Action <$> mjoin groups.
Proof.
  induction groups as [|g groups IH]; [done|].
  destruct g as [|first rest].
  - by rewrite omap_cons_None.
  - erewrite omap_cons_Some by reflexivity.
    rewrite bind_cons, IH. cbn [rp_Actions].
    change (mjoin ((first :: rest) :: groups)) with ((first :: rest) ++ mjoin groups).
    by rewrite fmap_app.
Qed.

Lemma aggregate_entries scope (groups : list (list flatResourcePermission)) :
  (List.length (omap (flatPermissionsToResourcePermission scope) groups)
   ≤ List.length groups)%nat
  ∧ Forall (λ rp, rp_Actions rp ≠ []
                  ∧ ¬ (rp_IsManaged rp = true ∧ rp_IsInherited rp = true))
      (omap (flatPermissionsToResourcePermission scope) groups)
  ∧ (omap (flatPermissionsToResourcePermission scope) groups = [] ↔ mjoin groups = []).
Proof.
  induction groups as [|g groups (IH1 & IH2 & IH3)]; [by split_and!|].
  destruct g as [|first rest].
  - rewrite omap_cons_None by done. split_and!; [simpl; lia | done | done].
  - erewrite omap_cons_Some by reflexivity. split_and!.
    + simpl in *. lia.
    + constructor; [|done]. cbn [rp_Actions rp_IsManaged rp_IsInherited].
      split; [done|]. unfold IsManaged, IsInherited.
      destruct (HasPrefix _ _), (bool_decide _); simpl; intros [? ?]; discriminate.
    + split; intros; discriminate.
Qed.

Lemma bucket_flags scope (P : flatResourcePermission → Prop) `{∀ x, Decision (P x)}
    permissions rp :
  flatPermissionsToResourcePermission scope (filter P permissions) = Some rp →
  ∃ first, P first
    ∧ (rp_IsManaged rp, rp_IsInherited rp) = (IsManaged first scope, IsInherited first scope).
Proof.
  intros Hagg. pose proof (bucket_entry scope P permissions) as Hb. rewrite Hagg in Hb.
  destruct Hb as (first & HP & _ & _ & _ & -> & -> & _). by exists first.
Qed.

Lemma flat_actions_perm scope permissions :
  flatPermissionsToResourcePermissions scope permissions ≫= rp_Actions
  ≡ₚ frp_Action <$> permissions.
Proof.
  rewrite flatPermissionsToResourcePermissions_buckets, aggregate_actions. simpl.
  rewrite app_nil_r. apply fmap_Permutation.
  apply (filter_three_way _ _ _ _ (row_class_cases scope)).
Qed.

(** Every returned entry takes its subject from one of the rows. *)
Lemma flat_entry_subject scope permissions rp :
  rp ∈ flatPermissionsToResourcePermissions scope permissions →
  ∃ p, p ∈ permissions ∧ rp_UserId rp = frp_UserId p ∧ rp_TeamId rp = frp_TeamId p
       ∧ rp_BuiltInRole rp = frp_BuiltInRole p.
Proof.
  rewrite flatPermissionsToResourcePermissions_buckets.
  intros (bucket & Hb & Hagg)%list_elem_of_omap.
  assert (∃ (P : flatResourcePermission → Prop) (dec : ∀ x, Decision (P x)),
            bucket = filter P permissions) as (P & dec & ->).
  { repeat (apply elem_of_cons in Hb as [-> | Hb]); [by eexists _, _.. |].
    by apply elem_of_nil in Hb. }
  pose proof (bucket_entry scope P permissions) as He. rewrite Hagg in He.
  destruct He as (first & _ & Hin & _ & _ & _ & _ & ? & ? & ?). by exists first.
Qed.

(** X4.  [flatPermissionsToResourcePermissions] loses and invents no
    action: the actions of the returned entries are, up to order, the
    actions of the input rows.  It returns at most three entries, none
    when and only when there is no row, each with at least one action, no
    entry is both managed and inherited, and no two entries carry the same
    pair of flags (one entry per class at most). *)
Theorem flatPermissionsToResourcePermissions_aggregate (scope : string)
    (permissions : list flatResourcePermission) :
  let result := flatPermissionsToResourcePermissions scope permissions in
  result ≫= rp_Actions ≡ₚ frp_Action <$> permissions
  ∧ (List.length result ≤ 3)%nat
  ∧ (result = [] ↔ permissions = [])
  ∧ Forall (λ rp, rp_Actions rp ≠ []) result
  ∧ Forall (λ rp, ¬ (rp_IsManaged rp = true ∧ rp_IsInherited rp = true)) result
  ∧ NoDup ((λ rp, (rp_IsManaged rp, rp_IsInherited rp)) <$> result).
Proof.
  intros result. subst result. rewrite flatPermissionsToResourcePermissions_buckets.
  pose proof (filter_three_way (managedRow scope) (inheritedRow scope) provisionedRow
                permissions (row_class_cases scope)) as Hperm.
  destruct (aggregate_entries scope
              [filter (managedRow scope) permissions; filter (inheritedRow scope) permissions;
               filter provisionedRow permissions]) as (Hlen & Hall & Hnil).
  split_and!.
  - rewrite <- flatPermissionsToResourcePermissions_buckets. apply flat_actions_perm.
  - exact Hlen.
  - rewrite Hnil. simpl. rewrite app_nil_r. split.
    + intros E. rewrite E in Hperm. by apply Permutation_nil_l in Hperm.
    + by intros ->.
  - eapply Forall_impl; [exact Hall|]. by intros rp [? _].
  - eapply Forall_impl; [exact Hall|]. by intros rp [_ ?].
  - simpl.
    destruct (flatPermissionsToResourcePermission scope (filter (managedRow scope) _))
      as [m|] eqn:EM;
      [apply bucket_flags in EM as (pm & [-> ->]%managedRow_flags & Em)|];
      (destruct (flatPermissionsToResourcePermission scope (filter (inheritedRow scope) _))
         as [i|] eqn:EI;
       [apply bucket_flags in EI as (pi & [-> ->]%inheritedRow_flags & Ei)|]);
      (destruct (flatPermissionsToResourcePermission scope (filter provisionedRow _))
         as [v|] eqn:EV;
       [apply bucket_flags in EV as (pv & [-> ->]%(provisionedRow_flags scope) & Ev)|]);
      simpl; rewrite ?Em, ?Ei, ?Ev; repeat constructor; set_solver.
Qed.


(** ** From the rows of the query to the result *)

Lemma foldl_append {A B} (F : A → list B) (l : list A) (r : list B) :
  foldl (λ result p, result ++ F p) r l = r ++ (l ≫= F).
Proof.
  revert r. induction l as [|x l IH]; intros r; [by rewrite app_nil_r|].
  cbn [foldl]. rewrite IH, bind_cons, app_assoc. done.
Qed.

Lemma bind_actions scope (groups : list (list flatResourcePermission)) :
  (groups ≫= flatPermissionsToResourcePermissions scope) ≫= rp_Actions
  ≡ₚ frp_Action <$> mjoin groups.
Proof.
  induction groups as [|g groups IH]; [done|].
  rewrite bind_cons, bind_app, IH.
  change (mjoin (g :: groups)) with (g ++ mjoin groups). rewrite fmap_app.
  apply Permutation_app_tail.
  apply flat_actions_perm.
Qed.

Lemma filter_three_way_elem {A} (P Q R : A → Prop)
    `{∀ x, Decision (P x)} `{∀ x, Decision (Q x)} `{∀ x, Decision (R x)} (l : list A) :
  (∀ x, x ∈ l →
     (P x ∧ ¬ Q x ∧ ¬ R x) ∨ (¬ P x ∧ Q x ∧ ¬ R x) ∨ (¬ P x ∧ ¬ Q x ∧ R x)) →
  filter P l ++ filter Q l ++ filter R l ≡ₚ l.
Proof.
  induction l as [|x l IH]; intros Hc; [done|].
  assert (filter P l ++ filter Q l ++ filter R l ≡ₚ l) as IH'
    by (apply IH; intros y Hy; apply Hc; by right).
  rewrite !filter_cons.
  destruct (Hc x ltac:(by left)) as [(? & ? & ?) | [(? & ? & ?) | (? & ? & ?)]];
    destruct (decide (P x)), (decide (Q x)), (decide (R x)); try tauto; simpl.
  - by rewrite IH'.
  - rewrite <- Permutation_middle. by rewrite IH'.
  - rewrite app_assoc, <- Permutation_middle, <- app_assoc. by rewrite IH'.
Qed.

Lemma subject_keys p :
  hasSubject p →
  (is_Some (userKey p) ∧ ¬ is_Some (teamKey p) ∧ ¬ is_Some (builtinKey p))
  ∨ (¬ is_Some (userKey p) ∧ is_Some (teamKey p) ∧ ¬ is_Some (builtinKey p))
  ∨ (¬ is_Some (userKey p) ∧ ¬ is_Some (teamKey p) ∧ is_Some (builtinKey p)).
Proof.
  unfold hasSubject, userKey, teamKey, builtinKey.
  repeat case_bool_decide; rewrite ?is_Some_alt; naive_solver.
Qed.

Lemma key_subject p :
  is_Some (userKey p) ∨ is_Some (teamKey p) ∨ is_Some (builtinKey p) → hasSubject p.
Proof.
  unfold hasSubject, userKey, teamKey, builtinKey.
  repeat case_bool_decide; rewrite ?is_Some_alt; naive_solver.
Qed.

Lemma filter_key_subject (P : flatResourcePermission → Prop) `{∀ x, Decision (P x)}
    (rows : list flatResourcePermission) :
  (∀ p, P p → hasSubject p) → filter P (filter hasSubject rows) = filter P rows.
Proof.
  intros HP. rewrite list_filter_filter. apply list_filter_iff. naive_solver.
Qed.

Lemma grouped_rows rows :
  mjoin (map_to_list (groupBy userKey id rows)).*2
  ++ mjoin (map_to_list (groupBy teamKey id rows)).*2
  ++ mjoin (map_to_list (groupBy builtinKey id rows)).*2
  ≡ₚ filter hasSubject rows.
Proof.
  rewrite !groupBy_values, !list_fmap_id.
  rewrite <- (filter_key_subject (λ x, is_Some (userKey x)) rows)
    by (intros p ?; apply key_subject; tauto).
  rewrite <- (filter_key_subject (λ x, is_Some (teamKey x)) rows)
    by (intros p ?; apply key_subject; tauto).
  rewrite <- (filter_key_subject (λ x, is_Some (builtinKey x)) rows)
    by (intros p ?; apply key_subject; tauto).
  apply filter_three_way_elem. intros p [Hs _]%list_elem_of_filter. by apply subject_keys.
Qed.

Lemma group_member {K} `{Countable K} (key : flatResourcePermission → option K) rows group p :
  group ∈ (map_to_list (groupBy key id rows)).*2 → p ∈ group →
  p ∈ rows ∧ is_Some (key p).
Proof.
  intros ([k g] & -> & Hin)%list_elem_of_fmap Hp. simpl in Hp.
  apply elem_of_map_to_list, groupBy_group in Hin as [_ ->].
  rewrite list_fmap_id in Hp. apply list_elem_of_filter in Hp as [Hk ?]. split; [done|].
  by rewrite Hk.
Qed.

(** X5.  The result [getResourcePermissions] builds from the rows of its
    query carries, up to order, exactly the actions of the rows that have
    a subject (a user, a team or a built-in role); rows without one are
    dropped.  Every returned entry has a subject, taken from one of the
    rows. *)
Theorem getResourcePermissions_result_actions (scope : string)
    (queryResults : list flatResourcePermission) :
  let result := getResourcePermissions_result scope queryResults in
  result ≫= rp_Actions ≡ₚ frp_Action <$> filter hasSubject queryResults
  ∧ Forall (λ rp, ∃ p, p ∈ queryResults ∧ hasSubject p
                       ∧ rp_UserId rp = frp_UserId p ∧ rp_TeamId rp = frp_TeamId p
                       ∧ rp_BuiltInRole rp = frp_BuiltInRole p) result.
Proof.
  intros result. subst result. unfold getResourcePermissions_result.
  rewrite groupPermissionsByAssignment_groupBy. simpl.
  rewrite !foldl_append, app_nil_l. split.
  - rewrite !bind_app, !bind_actions, <- !fmap_app. apply fmap_Permutation.
    rewrite <- app_assoc. apply grouped_rows.
  - rewrite !Forall_app. split_and!; apply Forall_forall; intros rp
      (group & (p & Hp & ? & ? & ?)%flat_entry_subject & Hg)%list_elem_of_bind;
      destruct (group_member _ _ _ _ Hg Hp) as [? ?];
      exists p; split_and!; try done; apply key_subject; tauto.
Qed.

(** ** Package [database]: indexing query results by user *)

Lemma SearchUsersPermissions_mapped_groupBy dbPerms :
  SearchUsersPermissions_mapped dbPerms
  = groupBy (λ row, Some (urp_UserID row))
      (λ row, actionScope (urp_Action row) (urp_Scope row)) dbPerms.
Proof. reflexivity. Qed.

(** X6.  The map [SearchUsersPermissions] returns holds under a user the
    action and scope of each of that user's rows, in the order of the
    rows; a user without rows has no entry (never an empty list), and no
    row is lost: the lists of the map together hold one permission per
    row. *)
Theorem SearchUsersPermissions_mapped_spec (dbPerms : list UserRBACPermission) (userID : Z) :
  let mapped := SearchUsersPermissions_mapped dbPerms in
  let permission := λ row, actionScope (urp_Action row) (urp_Scope row) in
  mapped !! userID
  = nonempty (permission <$> filter (λ row, urp_UserID row = userID) dbPerms)
  ∧ (mapped !! userID = None ↔ userID ∉ urp_UserID <$> dbPerms)
  ∧ mjoin (map_to_list mapped).*2 ≡ₚ permission <$> dbPerms.
Proof.
  intros mapped permission. subst mapped.
  rewrite SearchUsersPermissions_mapped_groupBy. fold permission.
  assert (groupBy (λ row, Some (urp_UserID row)) permission dbPerms !! userID
          = nonempty (permission <$> filter (λ row, urp_UserID row = userID) dbPerms)) as Hl.
  { rewrite groupBy_lookup. do 2 f_equal. apply filter_ext_elem. intros row _. naive_solver. }
  split_and!.
  - exact Hl.
  - rewrite Hl. split.
    + intros Hnone (row & -> & Hin)%list_elem_of_fmap.
      assert (row ∈ filter (λ row0, urp_UserID row0 = urp_UserID row) dbPerms) as Hf
        by (by apply list_elem_of_filter).
      destruct (filter _ dbPerms) as [|? ?]; [by apply elem_of_nil in Hf | done].
    + intros Hnot. destruct (filter _ dbPerms) as [|row rest] eqn:E; [done|]. exfalso.
      assert (row ∈ filter (λ row0, urp_UserID row0 = userID) dbPerms) as Hf
        by (rewrite E; by left).
      apply list_elem_of_filter in Hf as [<- Hin]. apply Hnot. by apply list_elem_of_fmap_2.
  - rewrite groupBy_values, filter_all; [done|]. apply Forall_forall. by intros row _.
Qed.

Section BasicRoles.
Context `{External}.

Lemma basicRoles_step_lookup roles row userID :
  roles !! userID ≠ Some [] →
  basicRoles_step roles row !! userID
  = if decide (uor_UserID row = userID)
    then nonempty (userRoles_step (default [] (roles !! userID)) row)
    else roles !! userID.
Proof.
  intros Hne. unfold basicRoles_step, userRoles_step.
  destruct (decide (uor_UserID row = userID)) as [<-|Hother].
  - case_bool_decide; destruct (uor_IsAdmin row).
    + rewrite appendAt_lookup, decide_True, lookup_insert_eq by done. done.
    + by rewrite lookup_insert_eq.
    + rewrite appendAt_lookup, decide_True by done. by rewrite nonempty_snoc.
    + rewrite app_nil_r. destruct (roles !! uor_UserID row) as [[|? ?]|]; done.
  - case_bool_decide; destruct (uor_IsAdmin row);
      rewrite ?appendAt_lookup, ?decide_False, ?lookup_insert_ne by done; done.
Qed.

Lemma nonempty_not_nil {A} (l : list A) : nonempty l ≠ Some [].
Proof. by destruct l. Qed.

Lemma GetUsersBasicRoles_roles_lookup dbRoles userID :
  GetUsersBasicRoles_roles dbRoles !! userID
  = nonempty (foldl userRoles_step [] (filter (λ row, uor_UserID row = userID) dbRoles)).
Proof.
  unfold GetUsersBasicRoles_roles.
  induction dbRoles as [|row dbRoles IH] using rev_ind; [done|].
  rewrite foldl_app, filter_app, filter_cons, filter_nil. cbn [foldl].
  rewrite basicRoles_step_lookup by (rewrite IH; apply nonempty_not_nil).
  rewrite IH, default_nonempty. destruct (decide (uor_UserID row = userID)).
  - by rewrite foldl_app.
  - by rewrite app_nil_r.
Qed.

(** The roles collected for one user: at most one org role, the one of
    the last row that has one, followed by the admin role once per admin
    row from there on. *)
Lemma userRoles_shape rows :
  ∃ orgRole n, foldl userRoles_step [] rows = orgRole ++ replicate n RoleGrafanaAdmin
    ∧ (orgRole = [] ∨ ∃ row, row ∈ rows ∧ uor_OrgRole row ≠ "" ∧ orgRole = [uor_OrgRole row])
    ∧ (n ≤ List.length (filter (λ row, uor_IsAdmin row = true) rows))%nat.
Proof.
  induction rows as [|row rows IH] using rev_ind.
  { exists [], 0%nat. split_and!; [done | by left | done]. }
  destruct IH as (orgRole & n & Hl & Horg & Hn).
  rewrite foldl_app, filter_app, filter_cons, filter_nil, length_app. cbn [foldl].
  unfold userRoles_step at 1. rewrite Hl.
  case_bool_decide as Hrole; destruct (uor_IsAdmin row) eqn:Hadmin.
  - exists [uor_OrgRole row], 1%nat. split_and!; [done | | rewrite decide_True by done; simpl; lia].
    right. exists row. split_and!; [set_solver | done | done].
  - exists [uor_OrgRole row], 0%nat. split_and!; [done | | lia].
    right. exists row. split_and!; [set_solver | done | done].
  - exists orgRole, (S n). split_and!.
    + rewrite <- app_assoc. f_equal. change [RoleGrafanaAdmin] with (replicate 1 RoleGrafanaAdmin).
      rewrite <- replicate_add. f_equal. lia.
    + destruct Horg as [->|(row' & ? & ? & ->)]; [by left|]. right. exists row'.
      split_and!; [set_solver | done | done].
    + rewrite decide_True by done. simpl. lia.
  - exists orgRole, n. split_and!.
    + by rewrite app_nil_r.
    + destruct Horg as [->|(row' & ? & ? & ->)]; [by left|]. right. exists row'.
      split_and!; [set_solver | done | done].
    + lia.
Qed.

(** X7.  The map [GetUsersBasicRoles] returns: what a user's entry holds
    depends on that user's rows only, each row with an org role replacing
    what was collected and each admin row appending the admin role.  So an
    entry is never empty, holds at most one org role, that of one of the
    user's rows, at its head, and after it only admin roles, at most one
    per admin row of the user. *)
Theorem GetUsersBasicRoles_roles_spec (dbRoles : list UserOrgRole) (userID : Z) :
  let rows := filter (λ row, uor_UserID row = userID) dbRoles in
  GetUsersBasicRoles_roles dbRoles !! userID = nonempty (foldl userRoles_step [] rows)
  ∧ ∀ roles, GetUsersBasicRoles_roles dbRoles !! userID = Some roles →
      roles ≠ []
      ∧ ∃ orgRole n, roles = orgRole ++ replicate n RoleGrafanaAdmin
          ∧ (orgRole = []
             ∨ ∃ row, row ∈ rows ∧ uor_OrgRole row ≠ "" ∧ orgRole = [uor_OrgRole row])
          ∧ (n ≤ List.length (filter (λ row, uor_IsAdmin row = true) rows))%nat.
Proof.
  intros rows. split; [apply GetUsersBasicRoles_roles_lookup|].
  intros roles. rewrite GetUsersBasicRoles_roles_lookup. fold rows.
  destruct (userRoles_shape rows) as (orgRole & n & Hl & Horg & Hn).
  destruct (foldl userRoles_step [] rows) as [|r rest] eqn:E; [done|].
  simpl. intros [= <-]. split; [done|]. by exists orgRole, n.
Qed.

End BasicRoles.

(** ** Package [database]: deleting a subject's permissions *)

Lemma delete_permissions_of_roles_nil t : delete_permissions_of_roles [] t = t.
Proof.
  unfold delete_permissions_of_roles, set_permissions.
  rewrite filter_all; [by destruct t|]. apply Forall_forall. intros p _. apply not_elem_of_nil.
Qed.

Lemma delete_roles_in_nil t : delete_roles_in [] t = t.
Proof.
  unfold delete_roles_in, set_roles.
  rewrite filter_all; [by destruct t|]. apply Forall_forall. intros p _. apply not_elem_of_nil.
Qed.

Section DatabaseProperties.
Context `{External}.

Lemma deleteManagedRoles_Ok_inv roleIDs w u w' :
  deleteManagedRoles roleIDs w = (Ok u, w') →
  tables w' = delete_roles_in roleIDs (delete_permissions_of_roles roleIDs (tables w)).
Proof.
  unfold deleteManagedRoles. case_bool_decide as Hlen.
  - intros [= _ <-]. destruct roleIDs; [|done].
    by rewrite delete_permissions_of_roles_nil, delete_roles_in_nil.
  - intros (? & w1 & E1%exec_Ok_inv & E2%exec_Ok_inv)%bind_Ok_inv. by rewrite E2, E1.
Qed.

(** What the deletion of the roles [roleIDs] and of their permissions
    leaves: no role of [roleIDs], and no permission that lost its role. *)
Lemma deleted_roles_integrity (roleIDs : list Z) (roles : list Role) (permissions : list Permission) :
  Forall (λ p, perm_RoleID p ∈ role_ID <$> roles →
               perm_RoleID p ∈ role_ID <$> filter (λ r, role_ID r ∉ roleIDs) roles)
    (filter (λ p, perm_RoleID p ∉ roleIDs) permissions).
Proof.
  apply Forall_forall. intros p [Hp _]%list_elem_of_filter (r & Hr & Hin)%list_elem_of_fmap.
  apply list_elem_of_fmap. exists r. split; [done|]. apply list_elem_of_filter. split; [|done].
  by rewrite <- Hr.
Qed.

Lemma select_role_ids_managed orgID userID t :
  (if bool_decide (orgID ≠ GlobalOrgID)
   then select_role_ids_in_org (ManagedUserRoleName userID) orgID t
   else select_role_ids (ManagedUserRoleName userID) t)
  = role_ID <$> filter (managedUserRole orgID userID) (tbl_role t).
Proof.
  unfold select_role_ids_in_org, select_role_ids, managedUserRole.
  case_bool_decide; f_equal; apply filter_ext_elem; intros r _; naive_solver.
Qed.

(** X8.  A successful [DeleteUserPermissions] deletes the user's role
    assignments (those of the org, or all of them when the org is the
    global one), the user's managed roles (of the org, or of every org)
    and every permission of these roles, and, for the global org only, the
    permissions scoped to the user.  No managed role of the user is left,
    no permission is left without its role by the deletion, and the other
    tables keep their rows. *)
Theorem DeleteUserPermissions_spec (orgID userID : Z) (w : World) (u : unit) (w' : World) :
  DeleteUserPermissions orgID userID w = (Ok u, w') →
  let t := tables w in
  let t' := tables w' in
  let roleIDs := role_ID <$> filter (managedUserRole orgID userID) (tbl_role t) in
  tbl_user_role t'
  = filter (λ x, ¬ (ur_UserID x = userID ∧ (orgID ≠ GlobalOrgID → ur_OrgID x = orgID)))
      (tbl_user_role t)
  ∧ tbl_role t' = filter (λ r, role_ID r ∉ roleIDs) (tbl_role t)
  ∧ tbl_permission t'
    = filter (λ p, (perm_RoleID p ∉ roleIDs)
                   ∧ (orgID = GlobalOrgID →
                      perm_Scope p ≠ Scope ["users"; "id"; FormatInt userID]))
        (tbl_permission t)
  ∧ Forall (λ r, ¬ managedUserRole orgID userID r) (tbl_role t')
  ∧ noNewOrphan t t'
  ∧ tbl_team_role t' = tbl_team_role t
  ∧ sameSubjects t t'.
Proof.
  intros Hrun t t' roleIDs. unfold DeleteUserPermissions, WithDbSession in Hrun.
  apply bind_Ok_inv in Hrun as (u1 & w1 & E1%exec_Ok_inv & Hrun).
  apply bind_Ok_inv in Hrun as (u2 & w2 & E2 & Hrun).
  apply bind_Ok_inv in Hrun as (ids & w3 & E3 & Hrun).
  apply deleteManagedRoles_Ok_inv in Hrun.
  assert (ids = role_ID <$> filter (managedUserRole orgID userID) (tbl_role (tables w2))
          ∧ tables w3 = tables w2) as [-> Ht3].
  { rewrite <- select_role_ids_managed.
    destruct (bool_decide (orgID ≠ GlobalOrgID)); by apply query_Ok_inv in E3. }
  assert (tables w2
          = if bool_decide (orgID = GlobalOrgID)
            then delete_permissions_at (Scope ["users"; "id"; FormatInt userID]) (tables w1)
            else tables w1) as Ht2.
  { destruct (bool_decide (orgID = GlobalOrgID)); [by apply exec_Ok_inv in E2|].
    by injection E2 as _ <-. }
  assert (tbl_role (tables w2) = tbl_role t) as Hroles.
  { rewrite Ht2, E1. unfold delete_user_roles.
    destruct (bool_decide (orgID = GlobalOrgID)), (bool_decide (orgID ≠ GlobalOrgID)); done. }
  rewrite Hroles in Hrun. fold roleIDs in Hrun. subst t'. rewrite Hrun, Ht3, Ht2, E1. clear.
  assert (tbl_role (delete_roles_in roleIDs t) = filter (λ r, role_ID r ∉ roleIDs) (tbl_role t))
    as Hr by done.
  split_and!.
  - unfold delete_user_roles. fold t.
    destruct (decide (orgID = GlobalOrgID)) as [Hg|Hg].
    + rewrite (bool_decide_eq_true_2 _ Hg), bool_decide_eq_false_2 by tauto. simpl.
      apply filter_ext_elem. intros x _. tauto.
    + rewrite (bool_decide_eq_false_2 _ Hg), bool_decide_eq_true_2 by tauto. simpl.
      apply filter_ext_elem. intros x _. tauto.
  - unfold delete_user_roles. fold t.
    destruct (bool_decide (orgID = GlobalOrgID)), (bool_decide (orgID ≠ GlobalOrgID)); done.
  - unfold delete_user_roles. fold t.
    destruct (decide (orgID = GlobalOrgID)) as [Hg|Hg].
    + rewrite (bool_decide_eq_true_2 _ Hg), bool_decide_eq_false_2 by tauto. simpl.
      rewrite list_filter_filter. apply filter_ext_elem. intros x _. tauto.
    + rewrite (bool_decide_eq_false_2 _ Hg), bool_decide_eq_true_2 by tauto. simpl.
      apply filter_ext_elem. intros x _. tauto.
  - unfold delete_user_roles. fold t.
    assert (Forall (λ r, ¬ managedUserRole orgID userID r)
              (filter (λ r, role_ID r ∉ roleIDs) (tbl_role t))) as Hgone.
    { apply Forall_forall. intros r [Hid Hin]%list_elem_of_filter Hm. apply Hid.
      apply list_elem_of_fmap. exists r. split; [done|]. by apply list_elem_of_filter. }
    destruct (bool_decide (orgID = GlobalOrgID)), (bool_decide (orgID ≠ GlobalOrgID)); exact Hgone.
  - unfold noNewOrphan, delete_user_roles. fold t.
    pose proof (deleted_roles_integrity roleIDs (tbl_role t)) as Hint.
    destruct (bool_decide (orgID = GlobalOrgID)), (bool_decide (orgID ≠ GlobalOrgID));
      simpl; apply Hint.
  - unfold delete_user_roles. fold t.
    destruct (bool_decide (orgID = GlobalOrgID)), (bool_decide (orgID ≠ GlobalOrgID)); done.
  - unfold sameSubjects, delete_user_roles. fold t.
    destruct (bool_decide (orgID = GlobalOrgID)), (bool_decide (orgID ≠ GlobalOrgID)); done.
Qed.

(** X9.  A successful [DeleteTeamPermissions] deletes the team's role
    assignments in the org, the permissions scoped to the team, whichever
    org their role belongs to, the team's managed roles of the org and
    every permission of these roles.  No managed role of the team is left
    in the org, no permission is left without its role by the deletion,
    and the other tables keep their rows. *)
Theorem DeleteTeamPermissions_spec (orgID teamID : Z) (w : World) (u : unit) (w' : World) :
  DeleteTeamPermissions orgID teamID w = (Ok u, w') →
  let t := tables w in
  let t' := tables w' in
  let roleIDs := role_ID <$> filter (managedTeamRole orgID teamID) (tbl_role t) in
  tbl_team_role t'
  = filter (λ x, ¬ (tr_TeamID x = teamID ∧ tr_OrgID x = orgID)) (tbl_team_role t)
  ∧ tbl_role t' = filter (λ r, role_ID r ∉ roleIDs) (tbl_role t)
  ∧ tbl_permission t'
    = filter (λ p, (perm_RoleID p ∉ roleIDs)
                   ∧ perm_Scope p ≠ Scope ["teams"; "id"; FormatInt teamID])
        (tbl_permission t)
  ∧ Forall (λ r, ¬ managedTeamRole orgID teamID r) (tbl_role t')
  ∧ noNewOrphan t t'
  ∧ tbl_user_role t' = tbl_user_role t
  ∧ sameSubjects t t'.
Proof.
  intros Hrun t t' roleIDs. unfold DeleteTeamPermissions, WithDbSession in Hrun.
  apply bind_Ok_inv in Hrun as (u1 & w1 & E1%exec_Ok_inv & Hrun).
  apply bind_Ok_inv in Hrun as (u2 & w2 & E2%exec_Ok_inv & Hrun).
  apply bind_Ok_inv in Hrun as (ids & w3 & [-> Ht3]%query_Ok_inv & Hrun).
  apply deleteManagedRoles_Ok_inv in Hrun.
  assert (select_role_ids_in_org (ManagedTeamRoleName teamID) orgID (tables w2) = roleIDs)
    as Hids by (by rewrite E2, E1).
  rewrite Hids in Hrun. subst t'. rewrite Hrun, Ht3, E2, E1. clear. fold t.
  split_and!; try done.
  - simpl. rewrite list_filter_filter. apply filter_ext_elem. intros x _. tauto.
  - apply Forall_forall. intros r [Hid Hin]%list_elem_of_filter Hm. apply Hid.
    apply list_elem_of_fmap. exists r. split; [done|]. by apply list_elem_of_filter.
  - apply (deleted_roles_integrity roleIDs (tbl_role t)).
Qed.

(** X10.  Neither deletion runs in a transaction.  Once its first
    statement has gone through, the subject's role assignments are
    deleted whatever happens to the later statements; and since the roles
    are deleted by the last statement, an error never comes with a role
    deleted. *)
Theorem delete_subject_permissions_partial (orgID id : Z) (w : World) :
  db_fault w (db_calls w) = false →
  let user := DeleteUserPermissions orgID id w in
  let team := DeleteTeamPermissions orgID id w in
  tbl_user_role (tables user.2)
  = filter (λ x, ¬ (ur_UserID x = id ∧ (orgID ≠ GlobalOrgID → ur_OrgID x = orgID)))
      (tbl_user_role (tables w))
  ∧ tbl_team_role (tables team.2)
    = filter (λ x, ¬ (tr_TeamID x = id ∧ tr_OrgID x = orgID)) (tbl_team_role (tables w))
  ∧ (∀ e, user.1 = Err e → tbl_role (tables user.2) = tbl_role (tables w))
  ∧ (∀ e, team.1 = Err e → tbl_role (tables team.2) = tbl_role (tables w)).
Proof.
  intros Hok user team. subst user team.
  assert (filter (λ x, ¬ (ur_UserID x = id ∧ (orgID ≠ GlobalOrgID → ur_OrgID x = orgID)))
            (tbl_user_role (tables w))
          = tbl_user_role (delete_user_roles orgID id (tables w))) as Hur.
  { unfold delete_user_roles. case_bool_decide; simpl;
      apply filter_ext_elem; intros x _; tauto. }
  rewrite Hur. clear Hur.
  assert (tbl_role (delete_user_roles orgID id (tables w)) = tbl_role (tables w)) as Hrr
    by (unfold delete_user_roles; by case_bool_decide).
  unfold DeleteUserPermissions, DeleteTeamPermissions, WithDbSession, deleteManagedRoles,
    bind, exec, query, statement, ret. simpl. rewrite Hok. simpl.
  split_and!.
  - repeat (case_bool_decide || destruct (db_fault _ _) || simpl); done.
  - repeat (case_bool_decide || destruct (db_fault _ _) || simpl); done.
  - intros e. repeat (case_bool_decide || destruct (db_fault _ _) || simpl); done.
  - intros e. repeat (case_bool_decide || destruct (db_fault _ _) || simpl); done.
Qed.

End DatabaseProperties.

(** ** What a successful grant has done *)

Lemma insert_permissions_rows ps t :
  sameExceptPermissions t (insert_permissions ps t)
  ∧ ∃ new, tbl_permission (insert_permissions ps t) = tbl_permission t ++ new
      ∧ Forall2 storedAs new ps
      ∧ Forall (λ n, perm_ID n ∉ perm_ID <$> tbl_permission t) new
      ∧ (NoDup (perm_ID <$> tbl_permission t) →
         NoDup (perm_ID <$> tbl_permission (insert_permissions ps t))).
Proof.
  unfold insert_permissions. revert t. induction ps as [|p ps IH]; intros t.
  { split; [by repeat split|]. exists []. simpl. rewrite app_nil_r. by repeat split. }
  simpl. destruct (IH (insert_permission t p)) as (Hsame & new & Hp & Hall & Hfresh & Hnd).
  split; [exact Hsame|]. eexists (_ :: new). split_and!.
  - rewrite Hp. simpl. rewrite <- app_assoc. done.
  - constructor; [reflexivity | exact Hall].
  - constructor; [apply next_id_fresh|].
    eapply Forall_impl; [exact Hfresh|]. intros n Hn Hin. apply Hn. simpl.
    rewrite fmap_app. apply elem_of_app. by left.
  - intros Hnd0. apply Hnd. simpl. rewrite fmap_app. simpl.
    apply NoDup_app. split_and!; [done | | apply NoDup_singleton].
    intros x Hx ->%list_elem_of_singleton. by apply next_id_fresh in Hx.
Qed.

Lemma statement_Ok_zlog {A} (q : Tables → A * Tables) w a w' :
  statement q w = (Ok a, w') → zlog w' = zlog w.
Proof. by intros (_ & _ & ->)%statement_Ok_inv. Qed.

Lemma select_current_elem roleID scope t p :
  p ∈ select_current roleID scope t →
  p ∈ tbl_permission t ∧ perm_RoleID p = roleID ∧ perm_Scope p = scope.
Proof.
  unfold select_current. intros (q & Hin & Hq)%list_elem_of_bind.
  apply list_elem_of_bind in Hin as (r & Hin & _). case_bool_decide as Hc; [|by apply elem_of_nil in Hin].
  apply list_elem_of_singleton in Hin as ->. destruct Hc as (? & ? & ?). split_and!; [done | congruence | done].
Qed.

Section GrantProperties.
Context `{External}.

Lemma generateNewRoleUID_loop_Ok_inv attempts orgID w uid w' :
  generateNewRoleUID_loop attempts orgID w = (Ok uid, w') →
  tables w' = tables w ∧ zlog w' = zlog w ∧ role_uid_exists orgID uid (tables w) = false.
Proof.
  revert w. induction attempts as [|attempts IH]; intros w; [done|]. simpl.
  intros (uid0 & w1 & [= <- <-] & Hrun)%bind_Ok_inv.
  apply bind_Ok_inv in Hrun as (exists_ & w2 & Hq & Hrun).
  pose proof (statement_Ok_zlog _ _ _ _ Hq) as Hz.
  apply query_Ok_inv in Hq as [-> Ht]. simpl in *.
  destruct (role_uid_exists orgID (uid_gen w (uid_calls w)) (tables w)) eqn:E.
  - apply IH in Hrun as (Ht' & Hz' & Hfree). rewrite Ht', Hz', Ht, Hz. by rewrite Ht in Hfree.
  - injection Hrun as <- <-. done.
Qed.

(** A successful [getOrCreateManagedRole] either found the role and
    changed nothing, or inserted it under a fresh key and an identifier
    free in the org and ran the adder on it. *)
Lemma getOrCreateManagedRole_Ok_cases orgID name add w role w' :
  getOrCreateManagedRole orgID name add w = (Ok role, w') →
  (get_role_by_name orgID name (tables w) = Some role
   ∧ tables w' = tables w ∧ zlog w' = zlog w)
  ∨ (get_role_by_name orgID name (tables w) = None
     ∧ role = mkRole (next_id (role_ID <$> tbl_role (tables w))) orgID (role_UID role) name
     ∧ role_uid_exists orgID (role_UID role) (tables w) = false
     ∧ ∃ w1 u, tables w1 = (insert_role role (tables w)).2 ∧ zlog w1 = zlog w
         ∧ add role w1 = (Ok u, w')).
Proof.
  unfold getOrCreateManagedRole.
  destruct (query (get_role_by_name orgID name) w) as [[orole|err] w1] eqn:Eq.
  2:{ destruct (createManagedRole orgID name add w1) as [[? | ?] ?]; intros; discriminate. }
  pose proof (statement_Ok_zlog _ _ _ _ Eq) as Hz1.
  apply query_Ok_inv in Eq as [-> Ht1].
  destruct (get_role_by_name orgID name (tables w)) as [role0|] eqn:Eget.
  { intros [= <- <-]. by left. }
  unfold createManagedRole. intros Hrun. right.
  apply bind_Ok_inv in Hrun as (uid & w2 & Euid & Hrun).
  apply bind_Ok_inv in Hrun as (role' & w3 & Eins & Hrun).
  apply bind_Ok_inv in Hrun as (u & w4 & Eadd & Hrun).
  injection Hrun as <- <-.
  apply generateNewRoleUID_loop_Ok_inv in Euid as (Ht2 & Hz2 & Hfree).
  pose proof (statement_Ok_zlog _ _ _ _ Eins) as Hz3.
  apply statement_Ok_inv in Eins as (_ & -> & ->). simpl in *.
  rewrite Ht2, Ht1 in *. split_and!; [done | done | done |].
  eexists _, u. split_and!; [| |exact Eadd]; simpl; [done | congruence].
Qed.

Lemma userAdder_assigns orgID userID :
  adder_assigns (userAdder orgID userID) ("user:" +:+ FormatInt userID)
    (λ role, insert_user_role (mkUserRole orgID userID (role_ID role))).
Proof.
  intros role w u w'. unfold userAdder.
  intros (res & w1 & Hq & Hrun)%bind_Ok_inv.
  pose proof (statement_Ok_zlog _ _ _ _ Hq) as Hz1. apply query_Ok_inv in Hq as [_ Ht1].
  case_bool_decide; [done|].
  apply bind_Ok_inv in Hrun as (u1 & w2 & He & Hrun).
  pose proof (statement_Ok_zlog _ _ _ _ He) as Hz2. apply exec_Ok_inv in He.
  apply zClient_Write_Ok_inv in Hrun as [_ ->]. simpl. by rewrite He, Ht1, Hz2, Hz1.
Qed.

Lemma teamAdder_assigns orgID teamID :
  adder_assigns (teamAdder orgID teamID) ("team:" +:+ FormatInt teamID)
    (λ role, insert_team_role (mkTeamRole orgID teamID (role_ID role))).
Proof.
  intros role w u w'. unfold teamAdder.
  intros (res & w1 & Hq & Hrun)%bind_Ok_inv.
  pose proof (statement_Ok_zlog _ _ _ _ Hq) as Hz1. apply query_Ok_inv in Hq as [_ Ht1].
  case_bool_decide; [done|].
  apply bind_Ok_inv in Hrun as (u1 & w2 & He & Hrun).
  pose proof (statement_Ok_zlog _ _ _ _ He) as Hz2. apply exec_Ok_inv in He.
  apply zClient_Write_Ok_inv in Hrun as [_ ->]. simpl. by rewrite He, Ht1, Hz2, Hz1.
Qed.

Lemma builtInRoleAdder_assigns orgID builtInRole :
  adder_assigns (builtInRoleAdder orgID builtInRole)
    (GenerateBasicRoleResource builtInRole orgID)
    (λ role, insert_builtin_role (mkBuiltinRole (role_ID role) orgID builtInRole)).
Proof.
  intros role w u w'. unfold builtInRoleAdder.
  intros (res & w1 & Hq & Hrun)%bind_Ok_inv.
  pose proof (statement_Ok_zlog _ _ _ _ Hq) as Hz1. apply query_Ok_inv in Hq as [_ Ht1].
  case_bool_decide; [done|].
  apply bind_Ok_inv in Hrun as (u1 & w2 & He & Hrun).
  pose proof (statement_Ok_zlog _ _ _ _ He) as Hz2. apply exec_Ok_inv in He.
  apply zClient_Write_Ok_inv in Hrun as [_ ->]. simpl. by rewrite He, Ht1, Hz2, Hz1.
Qed.

(** The shape the three grants share. *)
Lemma grants_shape s orgID usr teamID builtInRole cmd g :
  g ∈ grants s orgID usr teamID builtInRole cmd →
  adder_assigns (g_adder g) (g_subject g) (g_assign g)
  ∧ adder_frame (g_adder g)
  ∧ ∃ (guard : bool) e0,
      g_run g = if guard then fail e0
                else WithTransactionalDbSession
                       (grantCallback s orgID (g_roleName g) (g_adder g) cmd (ret tt)).
Proof.
  unfold grants. intros Hg.
  repeat (apply elem_of_cons in Hg as [-> | Hg]); [| | |by apply elem_of_nil in Hg].
  - split_and!; [apply userAdder_assigns | apply adder_frame_userAdder|].
    by exists (bool_decide (User_ID usr = 0)), ErrUserNotFound.
  - split_and!; [apply teamAdder_assigns | apply adder_frame_teamAdder|].
    by exists (bool_decide (teamID = 0)), ErrTeamNotFound.
  - split_and!; [apply builtInRoleAdder_assigns | apply adder_frame_builtInRoleAdder|].
    by exists (negb (RoleType_IsValid builtInRole)
               || bool_decide (builtInRole = RoleGrafanaAdmin)),
      (ErrMsg ("invalid role: " +:+ builtInRole)).
Qed.

Lemma grants_Ok_inv s orgID usr teamID builtInRole cmd g w p w' :
  g ∈ grants s orgID usr teamID builtInRole cmd →
  g_run g w = (Ok p, w') →
  setResourcePermission s orgID (g_roleName g) (g_adder g) cmd w = (Ok p, w').
Proof.
  intros (_ & _ & guard & e0 & ->)%grants_shape. destruct guard; [done|].
  unfold WithTransactionalDbSession, grantCallback, bind, ret.
  destruct (setResourcePermission s orgID (g_roleName g) (g_adder g) cmd w) as [[p'|e] w''];
    [done|]. intros; discriminate.
Qed.

End GrantProperties.

Section GrantRuns.
Context `{External}.

Lemma createPermissions_Ok_rows s roleID resource resourceID resourceAttribute actions perm
    w u w' :
  createPermissions s roleID resource resourceID resourceAttribute actions perm w = (Ok u, w') →
  let stamped := λ action, stampPermission roleID
                             (managedPermission action resource resourceID resourceAttribute) in
  let values :=
    if bool_decide (size actions = 0%nat) then []
    else (stamped <$> elements actions)
         ++ (if FlagAccessActionSets s then [stamped (GetActionSetName resource perm)] else []) in
  zlog w' = zlog w
  ∧ db_calls w' = (if bool_decide (size actions = 0%nat) then db_calls w else S (db_calls w))
  ∧ sameExceptPermissions (tables w) (tables w')
  ∧ ∃ new, tbl_permission (tables w') = tbl_permission (tables w) ++ new
      ∧ Forall2 storedAs new values
      ∧ Forall (λ n, perm_ID n ∉ perm_ID <$> tbl_permission (tables w)) new
      ∧ (NoDup (perm_ID <$> tbl_permission (tables w)) →
         NoDup (perm_ID <$> tbl_permission (tables w'))).
Proof.
  intros Hrun stamped values. subst values. unfold createPermissions in Hrun.
  case_bool_decide as Hsize.
  - injection Hrun as _ <-. split_and!; [done | done | by repeat split|].
    exists []. rewrite app_nil_r. split_and!; by try constructor.
  - pose proof (statement_Ok_zlog _ _ _ _ Hrun) as Hz.
    apply statement_Ok_inv in Hrun as (_ & _ & ->). subst stamped. simpl.
    destruct (FlagAccessActionSets s); rewrite ?app_nil_r;
      (split_and!; [done | done | apply insert_permissions_rows | apply insert_permissions_rows]).
Qed.

Lemma stamped_fields roleID resource resourceID resourceAttribute action n :
  storedAs n (stampPermission roleID
                (managedPermission action resource resourceID resourceAttribute)) →
  let scope := Scope [resource; resourceAttribute; resourceID] in
  perm_RoleID n = roleID ∧ perm_Action n = action ∧ perm_Scope n = scope
  ∧ (perm_Kind n, perm_Attribute n, perm_Identifier n) = SplitScope scope.
Proof.
  unfold storedAs, stampPermission, managedPermission. simpl.
  destruct (SplitScope _) as [[kind attribute] identifier]. simpl. by intros ->.
Qed.

Lemma stored_rows_fields s roleID resource resourceID resourceAttribute (actions : gset string)
    perm new :
  let scope := Scope [resource; resourceAttribute; resourceID] in
  let stamped := λ action, stampPermission roleID
                             (managedPermission action resource resourceID resourceAttribute) in
  Forall2 storedAs new
    (if bool_decide (size actions = 0%nat) then []
     else (stamped <$> elements actions)
          ++ (if FlagAccessActionSets s then [stamped (GetActionSetName resource perm)] else [])) →
  ∀ n, n ∈ new →
    perm_RoleID n = roleID ∧ perm_Scope n = scope
    ∧ (perm_Kind n, perm_Attribute n, perm_Identifier n) = SplitScope scope.
Proof.
  intros scope stamped Hrows n Hn.
  assert (∃ action, storedAs n (stamped action)) as [action Hs].
  { apply list_elem_of_lookup in Hn as [i Hi].
    destruct (Forall2_lookup_l _ _ _ _ _ Hrows Hi) as (v & Hv & Hs).
    case_bool_decide; [done|].
    apply list_elem_of_lookup_2 in Hv. apply elem_of_app in Hv as [Hv|Hv].
    - apply list_elem_of_fmap in Hv as (a & -> & _). by exists a.
    - destruct (FlagAccessActionSets s); [|by apply elem_of_nil in Hv].
      apply list_elem_of_singleton in Hv as ->. by eexists. }
  apply stamped_fields in Hs as (? & _ & ? & ?). done.
Qed.

(** X11.  A successful [createPermissions] with no action writes nothing
    and issues no statement, also when the action-set toggle is on.
    Otherwise it issues one statement that appends, after the rows the
    table had, one row per action and, with the toggle on, one more for
    the action set named after the resource and the permission; every new
    row belongs to the role, sits at the scope of the resource, carries
    the three parts of that scope, and has an identifier the table did not
    have; unique identifiers stay unique and no other table changes. *)
Theorem createPermissions_spec (s : store) (roleID : Z)
    (resource resourceID resourceAttribute : string) (actions : gset string)
    (permission : string) (w : World) (u : unit) (w' : World) :
  createPermissions s roleID resource resourceID resourceAttribute actions permission w
  = (Ok u, w') →
  let scope := Scope [resource; resourceAttribute; resourceID] in
  let stored :=
    if bool_decide (size actions = 0%nat) then []
    else elements actions
         ++ (if FlagAccessActionSets s then [GetActionSetName resource permission] else []) in
  db_calls w' = (if bool_decide (size actions = 0%nat) then db_calls w else S (db_calls w))
  ∧ sameExceptPermissions (tables w) (tables w')
  ∧ ∃ new, tbl_permission (tables w') = tbl_permission (tables w) ++ new
      ∧ perm_Action <$> new = stored
      ∧ Forall (λ n, perm_RoleID n = roleID ∧ perm_Scope n = scope
                     ∧ (perm_Kind n, perm_Attribute n, perm_Identifier n) = SplitScope scope
                     ∧ perm_ID n ∉ perm_ID <$> tbl_permission (tables w)) new
      ∧ (NoDup (perm_ID <$> tbl_permission (tables w)) →
         NoDup (perm_ID <$> tbl_permission (tables w'))).
Proof.
  intros Hrun scope stored.
  destruct (createPermissions_Ok_rows _ _ _ _ _ _ _ _ _ _ Hrun)
    as (_ & Hcalls & Hsame & new & Hnew & Hrows & Hfresh & Hnd).
  split_and!; [done | done|]. exists new. split_and!; [done | | | done].
  - subst stored. revert Hrows. generalize new. clear.
    assert (∀ (values : list string) (new : list Permission),
              Forall2 storedAs new
                ((λ action, stampPermission roleID
                              (managedPermission action resource resourceID resourceAttribute))
                   <$> values) →
              perm_Action <$> new = values) as Hact.
    { induction values as [|a values IH]; intros new Hall.
      - by apply Forall2_nil_inv_r in Hall as ->.
      - rewrite fmap_cons in Hall. apply Forall2_cons_inv_r in Hall as (n & new' & Hn & Hall & ->).
        apply stamped_fields in Hn as (_ & <- & _). rewrite fmap_cons. f_equal. by apply IH. }
    intros new Hrows. case_bool_decide; [by apply Forall2_nil_inv_r in Hrows as ->|].
    apply Hact. destruct (FlagAccessActionSets s); [by rewrite fmap_app|].
    by rewrite app_nil_r in *.
  - apply Forall_forall. intros n Hn. rewrite Forall_forall in Hfresh.
    destruct (stored_rows_fields _ _ _ _ _ _ _ _ Hrows n Hn) as (? & ? & ?).
    split_and!; [done | done | done | by apply Hfresh].
Qed.

Lemma deletePermissions_Ok_zlog ids w u w' :
  deletePermissions ids w = (Ok u, w') → zlog w' = zlog w.
Proof.
  unfold deletePermissions. case_bool_decide; [by intros [= _ <-]|]. apply statement_Ok_zlog.
Qed.

(** The run of a successful [setResourcePermission], statement by
    statement. *)
Lemma setResourcePermission_Ok_run s orgID roleName adder cmd w p w' :
  setResourcePermission s orgID roleName adder cmd w = (Ok p, w') →
  let scope := Scope [cmd_Resource cmd; cmd_ResourceAttribute cmd; cmd_ResourceID cmd] in
  ∃ role wa, getOrCreateManagedRole orgID roleName adder w = (Ok role, wa)
    ∧ zlog w' = zlog wa ++ [grantTuples role scope cmd]
    ∧ sameExceptPermissions (tables wa) (tables w')
    ∧ p = grantResult (role_ID role) scope (tables w')
    ∧ ∃ new,
        tbl_permission (tables w')
        = filter (λ q, perm_ID q ∉ (setResourcePermission_diff (cmd_Actions cmd)
                                      (select_current (role_ID role) scope (tables wa))).2)
            (tbl_permission (tables wa)) ++ new
        ∧ Forall (λ n, perm_RoleID n = role_ID role ∧ perm_Scope n = scope) new
        ∧ (NoDup (perm_ID <$> tbl_permission (tables wa)) →
           NoDup (perm_ID <$> tbl_permission (tables w'))).
Proof.
  intros Hrun scope. unfold setResourcePermission in Hrun. fold scope in Hrun.
  apply bind_Ok_inv in Hrun as (role & wa & Erole & Hrun).
  apply bind_Ok_inv in Hrun as (current & wb & Ecur & Hrun).
  pose proof (statement_Ok_zlog _ _ _ _ Ecur) as Hzb.
  apply query_Ok_inv in Ecur as [-> Htb].
  destruct (setResourcePermission_diff (cmd_Actions cmd)
              (select_current (role_ID role) scope (tables wa))) as [missing remove] eqn:Ediff.
  apply bind_Ok_inv in Hrun as (u1 & wc & Edel & Hrun).
  apply bind_Ok_inv in Hrun as (u2 & wd & Ecre & Hrun).
  apply bind_Ok_inv in Hrun as (u3 & we & Ewr & Hrun).
  apply bind_Ok_inv in Hrun as (permissions & wf & Eget & Hrun).
  pose proof (deletePermissions_Ok_zlog _ _ _ _ Edel) as Hzc.
  apply deletePermissions_Ok_inv in Edel.
  destruct (createPermissions_Ok_rows _ _ _ _ _ _ _ _ _ _ Ecre)
    as (Hzd & _ & Hsame & new & Hnew & Hrows & _ & Hnd).
  pose proof (stored_rows_fields _ _ _ _ _ _ _ _ Hrows) as Hall. clear Ecre Hrows.
  apply zClient_Write_Ok_inv in Ewr as [_ ->].
  pose proof (statement_Ok_zlog _ _ _ _ Eget) as Hzf.
  apply query_Ok_inv in Eget as [-> Htf]. simpl in Htf, Hzf.
  assert (w' = wf ∧ p = grantResult (role_ID role) scope (tables wd)) as [-> ->].
  { unfold grantResult.
    destruct (flatPermissionsToResourcePermission _ _); by injection Hrun as <- <-. }
  exists role, wa. rewrite Htf. split_and!; [done | | | done |].
  - rewrite Hzf. simpl. by rewrite Hzd, Hzc, Hzb.
  - unfold sameExceptPermissions in *. rewrite Edel, Htb in Hsame. simpl in Hsame. exact Hsame.
  - exists new. rewrite Hnew, Edel, Htb, Ediff. simpl. split_and!; [done | |].
    + apply Forall_forall. intros n Hn. destruct (Hall n Hn) as (? & ? & _). done.
    + intros Hnd0. rewrite Hnew, Edel, Htb in Hnd. simpl in Hnd. apply Hnd.
      by apply NoDup_fmap_filter.
Qed.

End GrantRuns.

Lemma created_role_lookup orgID name t t' role :
  get_role_by_name orgID name t = None → role_OrgID role = orgID → role_Name role = name →
  tbl_role t' = tbl_role t ++ [role] → get_role_by_name orgID name t' = Some role.
Proof.
  unfold get_role_by_name. intros Hnone%head_None Horg Hname ->.
  rewrite filter_app, Hnone. simpl. by rewrite filter_cons_True.
Qed.

Lemma diff_remove_ids actions current id :
  id ∈ (setResourcePermission_diff actions current).2 → id ∈ perm_ID <$> current.
Proof. unfold setResourcePermission_diff. rewrite diff_fold. simpl. apply removed_ids. Qed.

Lemma get_role_by_name_roles orgID name t t' :
  tbl_role t' = tbl_role t → get_role_by_name orgID name t' = get_role_by_name orgID name t.
Proof. unfold get_role_by_name. by intros ->. Qed.

Section GrantTheorems.
Context `{External}.

(** What the role resolver has done in a successful grant. *)
Lemma grants_role s orgID usr teamID builtInRole cmd g w role wa :
  g ∈ grants s orgID usr teamID builtInRole cmd →
  getOrCreateManagedRole orgID (g_roleName g) (g_adder g) w = (Ok role, wa) →
  get_role_by_name orgID (g_roleName g) (tables wa) = Some role
  ∧ match get_role_by_name orgID (g_roleName g) (tables w) with
    | Some _ => tables wa = tables w ∧ zlog wa = zlog w
    | None =>
        role_OrgID role = orgID ∧ role_Name role = g_roleName g
        ∧ (role_ID role ∉ role_ID <$> tbl_role (tables w))
        ∧ role_uid_exists orgID (role_UID role) (tables w) = false
        ∧ tables wa = g_assign g role (insert_role role (tables w)).2
        ∧ tbl_role (tables wa) = tbl_role (tables w) ++ [role]
        ∧ zlog wa = zlog w ++ [[assigneeTuple (g_subject g) role]]
    end.
Proof.
  intros (Hassign & Hframe & _)%grants_shape Hrole.
  apply getOrCreateManagedRole_Ok_cases in Hrole
    as [(Hget & Ht & Hz) | (Hget & Hrole & Hfree & w1 & u & Ht1 & Hz1 & Hadd)].
  - rewrite Hget. split; [by rewrite Ht | done].
  - rewrite Hget. destruct (Hassign _ _ _ _ Hadd) as [Hta Hza].
    destruct (Hframe _ _ _ _ Hadd) as [Hroles _].
    assert (role_OrgID role = orgID ∧ role_Name role = g_roleName g
            ∧ role_ID role = next_id (role_ID <$> tbl_role (tables w))) as (Horg & Hname & Hid)
      by (rewrite Hrole; done).
    assert ((insert_role role (tables w)).1 = role) as Hins.
    { clear -Horg Hname Hid. destruct role. simpl in *. by rewrite Hid. }
    assert (tbl_role (tables wa) = tbl_role (tables w) ++ [role]) as Hra.
    { rewrite Hroles, Ht1. simpl. do 2 f_equal. exact Hins. }
    split; [by eapply created_role_lookup|].
    split_and!; [done | done | | done | by rewrite Hta, Ht1 | done | by rewrite Hza, Hz1].
    rewrite Hid. apply next_id_fresh.
Qed.

(** X12.  What a successful grant without hook has sent to the engine:
    when the managed role was there, one [Write] and nothing else; when it
    was not, first a [Write] with the one tuple that makes the subject an
    assignee of the new role, then that [Write].  The [Write] carries one
    tuple per requested action, in the order of the request and with
    repetitions, each with the role as its user and an empty condition
    attached; it is sent even when no action was requested. *)
Theorem grant_engine_log (s : store) (orgID : Z) (usr : User) (teamID : Z)
    (builtInRole : string) (cmd : SetResourcePermissionCommand) (g : Grant)
    (w : World) (p : ResourcePermission) (w' : World) :
  let scope := Scope [cmd_Resource cmd; cmd_ResourceAttribute cmd; cmd_ResourceID cmd] in
  g ∈ grants s orgID usr teamID builtInRole cmd →
  g_run g w = (Ok p, w') →
  ∃ role, get_role_by_name orgID (g_roleName g) (tables w') = Some role
    ∧ zlog w'
      = zlog w
        ++ match get_role_by_name orgID (g_roleName g) (tables w) with
           | Some _ => []
           | None => [[assigneeTuple (g_subject g) role]]
           end
        ++ [grantTuples role scope cmd]
    ∧ List.length (grantTuples role scope cmd) = List.length (cmd_Actions cmd)
    ∧ Forall (λ key, tk_User key = ("role:" +:+ role_UID role) ∧ tk_Condition key = true)
        (grantTuples role scope cmd).
Proof.
  intros scope Hg Hrun. pose proof (grants_Ok_inv _ _ _ _ _ _ _ _ _ _ Hg Hrun) as Hset.
  destruct (setResourcePermission_Ok_run _ _ _ _ _ _ _ _ Hset)
    as (role & wa & Hrole & Hz & Hsame & _).
  destruct (grants_role _ _ _ _ _ _ _ _ _ _ Hg Hrole) as [Hget Hcase].
  exists role. split_and!.
  - destruct Hsame as (Hr & _). by rewrite (get_role_by_name_roles _ _ _ _ Hr).
  - fold scope in Hz. rewrite Hz.
    destruct (get_role_by_name orgID (g_roleName g) (tables w)).
    + destruct Hcase as [_ ->]. done.
    + destruct Hcase as (_ & _ & _ & _ & _ & _ & ->). by rewrite <- app_assoc.
  - unfold grantTuples. by rewrite length_fmap.
  - unfold grantTuples. apply Forall_fmap, Forall_forall. intros a _. simpl.
    by destruct (ConvertToRelationObject _ _ _ _).
Qed.

(** X13.  What a successful grant without hook has written outside the
    permission table.  When the managed role was there: nothing.  When it
    was not: one role, appended to the role table, of the org and of the
    managed name, under a key no role had and an identifier no role of the
    org had, and one assignment row that gives this role to the subject;
    all other tables are as they were. *)
Theorem grant_role_and_assignment (s : store) (orgID : Z) (usr : User) (teamID : Z)
    (builtInRole : string) (cmd : SetResourcePermissionCommand) (g : Grant)
    (w : World) (p : ResourcePermission) (w' : World) :
  g ∈ grants s orgID usr teamID builtInRole cmd →
  g_run g w = (Ok p, w') →
  match get_role_by_name orgID (g_roleName g) (tables w) with
  | Some _ => sameExceptPermissions (tables w) (tables w')
  | None =>
      ∃ role, role_OrgID role = orgID ∧ role_Name role = g_roleName g
        ∧ (role_ID role ∉ role_ID <$> tbl_role (tables w))
        ∧ role_uid_exists orgID (role_UID role) (tables w) = false
        ∧ tbl_role (tables w') = tbl_role (tables w) ++ [role]
        ∧ sameExceptPermissions (g_assign g role (insert_role role (tables w)).2) (tables w')
  end.
Proof.
  intros Hg Hrun. pose proof (grants_Ok_inv _ _ _ _ _ _ _ _ _ _ Hg Hrun) as Hset.
  destruct (setResourcePermission_Ok_run _ _ _ _ _ _ _ _ Hset)
    as (role & wa & Hrole & _ & Hsame & _).
  destruct (grants_role _ _ _ _ _ _ _ _ _ _ Hg Hrole) as [_ Hcase].
  destruct (get_role_by_name orgID (g_roleName g) (tables w)).
  - destruct Hcase as [<- _]. done.
  - destruct Hcase as (? & ? & ? & ? & Hta & Hra & _). exists role.
    split_and!; [done | done | done | done | | by rewrite <- Hta].
    destruct Hsame as (-> & _). done.
Qed.

(** X14.  A successful grant without hook on a store whose primary keys
    are unique keeps them unique and leaves alone every permission that is
    not one of the managed role at the scope of the resource.  With the
    action-set toggle off, the permissions of the managed role at that
    scope then are the requested actions, each stored once: the grant
    replaces what was stored, it does not add to it. *)
Theorem grant_replaces_actions (s : store) (orgID : Z) (usr : User) (teamID : Z)
    (builtInRole : string) (cmd : SetResourcePermissionCommand) (g : Grant)
    (w : World) (p : ResourcePermission) (w' : World) :
  let scope := Scope [cmd_Resource cmd; cmd_ResourceAttribute cmd; cmd_ResourceID cmd] in
  g ∈ grants s orgID usr teamID builtInRole cmd →
  wf_tables (tables w) →
  g_run g w = (Ok p, w') →
  ∃ role, get_role_by_name orgID (g_roleName g) (tables w') = Some role
    ∧ wf_tables (tables w')
    ∧ storedElsewhere (role_ID role) scope (tables w')
      = storedElsewhere (role_ID role) scope (tables w)
    ∧ (FlagAccessActionSets s = false →
       NoDup (perm_Action <$> storedAt (role_ID role) scope (tables w'))
       ∧ ∀ a, a ∈ perm_Action <$> storedAt (role_ID role) scope (tables w')
              ↔ a ∈ cmd_Actions cmd)
    ∧ p = grantResult (role_ID role) scope (tables w').
Proof.
  intros scope Hg [Hwr Hwp] Hrun.
  pose proof (grants_Ok_inv _ _ _ _ _ _ _ _ _ _ Hg Hrun) as Hset.
  destruct (setResourcePermission_Ok_run _ _ _ _ _ _ _ _ Hset)
    as (role & wa & Hrole & _ & Hsame & Hp & new & Hnew & Hall & Hnd).
  fold scope in Hp, Hnew, Hall.
  pose proof Hg as (_ & Hframe & _)%grants_shape.
  destruct (getOrCreateManagedRole_Ok_inv _ _ _ _ _ _ Hframe Hwr Hrole) as (Hget & Hnda & Hpa).
  destruct Hsame as (Hroles & _).
  exists role. split_and!.
  - by rewrite (get_role_by_name_roles _ _ _ _ Hroles).
  - split; [by rewrite Hroles|]. apply Hnd. by rewrite Hpa.
  - unfold storedElsewhere. rewrite Hnew, Hpa, filter_app.
    rewrite (filter_none _ new), app_nil_r.
    2:{ intros n Hn Hnot. apply Hnot. rewrite Forall_forall in Hall. by apply Hall. }
    rewrite list_filter_filter. apply filter_ext_elem. intros q Hq. split; [tauto|].
    intros Hnot. split; [done|].
    intros (c & Hid & Hc)%diff_remove_ids%list_elem_of_fmap.
    apply select_current_elem in Hc as (Hc & ? & ?). rewrite Hpa in Hc.
    assert (q = c) as -> by (by eapply (NoDup_fmap_eq perm_ID)). by apply Hnot.
  - intros Hflag.
    destruct (setResourcePermission_Ok_post _ _ _ _ _ _ _ _ Hflag Hframe (conj Hwr Hwp) Hset)
      as (role' & Hget' & _ & Hnd' & Hiff & _).
    fold scope in Hnd', Hiff.
    rewrite (get_role_by_name_roles _ _ _ _ Hroles), Hget in Hget'.
    injection Hget' as <-. done.
  - done.
Qed.

End GrantTheorems.

(** ** The batch call, continued *)

Section BatchProperties.
Context `{External}.




(** X16.  A batch of one command is the single grant of its subject seen
    through the batch: a command that names a user is the user grant with
    the user hook, whatever team and built-in role it also names; one
    without user that names a team is the team grant with the team hook,
    whatever built-in role it also names. *)
Theorem SetResourcePermissions_single (s : store) (orgID : Z) (usr : User) (teamID : Z)
    (builtinRole : string) (cmd : SetResourcePermissionCommand) (hooks : ResourceHooks)
    (w : World) :
  let batch := SetResourcePermissions s orgID [mkCmds usr teamID builtinRole cmd] hooks w in
  (User_ID usr ≠ 0 →
   batch = asBatch (SetUserResourcePermission s orgID usr cmd (hooks_User hooks) w))
  ∧ (User_ID usr = 0 → teamID ≠ 0 →
     batch = asBatch (SetTeamResourcePermission s orgID teamID cmd (hooks_Team hooks) w)).
Proof.
  intros batch. subst batch.
  unfold SetResourcePermissions, SetUserResourcePermission, SetTeamResourcePermission,
    WithTransactionalDbSession, asBatch. simpl. unfold dispatch. simpl. split.
  - intros Hu. rewrite (bool_decide_eq_true_2 _ Hu), (bool_decide_eq_false_2 _ Hu).
    by destruct (setUserResourcePermission _ _ _ _ _ w) as [[p|e] w'].
  - intros Hu Ht. rewrite bool_decide_eq_false_2 by (intros Hne; exact (Hne Hu)).
    rewrite (bool_decide_eq_true_2 _ Ht), (bool_decide_eq_false_2 _ Ht).
    by destruct (setTeamResourcePermission _ _ _ _ _ w) as [[p|e] w'].
Qed.

(** X17.  After a successful [DeleteResourcePermissions] on a store
    whose permission identifiers are unique, the lookup of the same call
    finds nothing, and the same call again leaves every table as it is:
    the operation is idempotent. *)
Theorem DeleteResourcePermissions_idempotent (orgID : Z) (cmd : DeleteResourcePermissionsCmd)
    (w : World) (u : unit) (w' : World) :
  let scope := Scope [del_Resource cmd; del_ResourceAttribute cmd; del_ResourceID cmd] in
  NoDup (perm_ID <$> tbl_permission (tables w)) →
  DeleteResourcePermissions orgID cmd w = (Ok u, w') →
  select_ids_by_scope scope orgID (tables w') = []
  ∧ tables (DeleteResourcePermissions orgID cmd w').2 = tables w'.
Proof.
  intros scope Hnd Hrun.
  assert (select_ids_by_scope scope orgID (tables w') = []) as Hnone.
  { unfold DeleteResourcePermissions, WithTransactionalDbSession in Hrun. fold scope in Hrun.
    destruct (bind _ _ w) as [[u'|e] w1] eqn:Hcb; [|done]. injection Hrun as _ <-.
    apply bind_Ok_inv in Hcb as (ids & w0 & [-> Ht0]%query_Ok_inv & Hdel).
    apply deletePermissions_Ok_inv in Hdel. rewrite Ht0 in Hdel.
    apply elem_of_nil_inv. intros id (p & Hp & _ & Hscope & Hex)%select_ids_by_scope_elem.
    rewrite Hdel in Hp, Hex. simpl in Hp, Hex.
    apply list_elem_of_filter in Hp as [Hp Hin]. apply Hp.
    apply select_ids_by_scope_elem. exists p. split_and!; done. }
  split; [done|].
  unfold DeleteResourcePermissions, WithTransactionalDbSession. fold scope.
  unfold bind, query, statement. simpl. destruct (db_fault w' (db_calls w')); [done|]. simpl.
  by rewrite Hnone.
Qed.

End BatchProperties.

(** ** Reading a role's permissions back *)

Lemma left_join_elem {A} (matching : list A) x :
  x ∈ left_join matching → x = None ∨ ∃ a, x = Some a ∧ a ∈ matching.
Proof.
  unfold left_join. destruct matching as [|a l].
  - intros ->%list_elem_of_singleton. by left.
  - intros (b & -> & Hb)%list_elem_of_fmap. right. by exists b.
Qed.

Lemma left_join_inhabited {A} (matching : list A) : ∃ x, x ∈ left_join matching.
Proof.
  unfold left_join. destruct matching as [|a l]; [exists None | exists (Some a)]; simpl; by left.
Qed.

(** The columns of a row of [getPermissions] and the rows they come
    from. *)
Lemma select_flat_elem roleID scope t row :
  row ∈ select_flat roleID scope t →
  ∃ p r tr ur br,
    p ∈ tbl_permission t ∧ r ∈ tbl_role t
    ∧ perm_RoleID p = roleID ∧ role_ID r = roleID ∧ perm_Scope p = scope
    ∧ tr ∈ left_join (filter (λ tr, role_ID r = tr_RoleID tr) (tbl_team_role t))
    ∧ ur ∈ left_join (filter (λ ur, role_ID r = ur_RoleID ur) (tbl_user_role t))
    ∧ br ∈ left_join (filter (λ br, role_ID r = br_RoleID br) (tbl_builtin_role t))
    ∧ frp_ID row = perm_ID p ∧ frp_Action row = perm_Action p
    ∧ frp_Scope row = perm_Scope p ∧ frp_RoleName row = role_Name r
    ∧ frp_UserId row = from_option ur_UserID 0 ur
    ∧ frp_TeamId row = from_option tr_TeamID 0 tr
    ∧ frp_BuiltInRole row = from_option br_Role "" br
    ∧ frp_IsServiceAccount row = false.
Proof.
  unfold select_flat.
  intros (p & Hrow & Hp)%list_elem_of_bind.
  apply list_elem_of_bind in Hrow as (r & Hrow & [(Hpr & Hr & Hs) Hrin]%list_elem_of_filter).
  apply list_elem_of_bind in Hrow as (tr & Hrow & Htr).
  apply list_elem_of_bind in Hrow as (tm & Hrow & _).
  apply list_elem_of_bind in Hrow as (ur & Hrow & Hur).
  apply list_elem_of_bind in Hrow as (u & Hrow & _).
  apply list_elem_of_bind in Hrow as (br & Hrow & Hbr).
  apply list_elem_of_singleton in Hrow as ->. simpl.
  exists p, r, tr, ur, br. split_and!; try done. congruence.
Qed.

Lemma select_flat_complete roleID scope t p r :
  p ∈ tbl_permission t → r ∈ tbl_role t →
  perm_RoleID p = roleID → role_ID r = roleID → perm_Scope p = scope →
  ∃ row, row ∈ select_flat roleID scope t
    ∧ frp_ID row = perm_ID p ∧ frp_Action row = perm_Action p.
Proof.
  intros Hp Hr Hpr Hrr Hs. unfold select_flat.
  destruct (left_join_inhabited (filter (λ tr, role_ID r = tr_RoleID tr) (tbl_team_role t)))
    as [tr Htr].
  destruct (left_join_inhabited (filter (λ ur, role_ID r = ur_RoleID ur) (tbl_user_role t)))
    as [ur Hur].
  destruct (left_join_inhabited (filter (λ br, role_ID r = br_RoleID br) (tbl_builtin_role t)))
    as [br Hbr].
  assert (∃ tm, tm ∈ match tr with
                     | Some tr => left_join (filter (λ tm, tr_TeamID tr = t_id tm) (tbl_team t))
                     | None => [None]
                     end) as [tm Htm]
    by (destruct tr; [apply left_join_inhabited | exists None; by left]).
  assert (∃ u, u ∈ match ur with
                   | Some ur => left_join (filter (λ u, ur_UserID ur = u_id u) (tbl_user t))
                   | None => [None]
                   end) as [u Hu]
    by (destruct ur; [apply left_join_inhabited | exists None; by left]).
  eexists. split; [|shelve].
  apply list_elem_of_bind. exists p. split; [|done].
  apply list_elem_of_bind. exists r. split; [|apply list_elem_of_filter; split; [|done]; split_and!; congruence].
  apply list_elem_of_bind. exists tr. split; [|done].
  apply list_elem_of_bind. exists tm. split; [|done].
  apply list_elem_of_bind. exists ur. split; [|done].
  apply list_elem_of_bind. exists u. split; [|done].
  apply list_elem_of_bind. exists br. split; [|done].
  apply list_elem_of_singleton. reflexivity.
  Unshelve. done.
Qed.

Section ReadBack.
Context `{External}.

(** X18.  What [getPermissions] reads for a role and a resource.  It
    changes no table.  The permissions behind its rows are exactly the
    stored permissions of the role at the scope of the resource, provided
    the role exists: none is dropped for want of an assignment, and none
    is read when the role is missing.  Every row carries the scope, the
    identifier and action of such a permission and the name of the role;
    a user, a team or a built-in role on a row is that of an assignment of
    the role; and the service-account column is never filled. *)
Theorem getPermissions_rows (resource resourceID resourceAttribute : string) (roleID : Z)
    (w : World) (rows : list flatResourcePermission) (w' : World) :
  let scope := Scope [resource; resourceAttribute; resourceID] in
  let t := tables w in
  getPermissions resource resourceID resourceAttribute roleID w = (Ok rows, w') →
  tables w' = t
  ∧ (∀ id, id ∈ frp_ID <$> rows
           ↔ id ∈ perm_ID <$> storedAt roleID scope t ∧ roleID ∈ role_ID <$> tbl_role t)
  ∧ Forall (λ row,
       frp_Scope row = scope
       ∧ (∃ p, p ∈ storedAt roleID scope t
               ∧ frp_ID row = perm_ID p ∧ frp_Action row = perm_Action p)
       ∧ (∃ r, r ∈ tbl_role t ∧ role_ID r = roleID ∧ frp_RoleName row = role_Name r)
       ∧ (frp_UserId row ≠ 0 →
          ∃ ur, ur ∈ tbl_user_role t ∧ ur_RoleID ur = roleID ∧ ur_UserID ur = frp_UserId row)
       ∧ (frp_TeamId row ≠ 0 →
          ∃ tr, tr ∈ tbl_team_role t ∧ tr_RoleID tr = roleID ∧ tr_TeamID tr = frp_TeamId row)
       ∧ (frp_BuiltInRole row ≠ "" →
          ∃ br, br ∈ tbl_builtin_role t ∧ br_RoleID br = roleID
                ∧ br_Role br = frp_BuiltInRole row)
       ∧ frp_IsServiceAccount row = false) rows.
Proof.
  intros scope t [-> Ht]%query_Ok_inv. fold scope t. split_and!; [done | |].
  - intros id. split.
    + intros (row & -> & Hrow)%list_elem_of_fmap.
      apply select_flat_elem in Hrow
        as (p & r & _ & _ & _ & Hp & Hr & ? & ? & ? & _ & _ & _ & -> & _).
      split.
      * apply list_elem_of_fmap_2. unfold storedAt. by apply list_elem_of_filter.
      * apply list_elem_of_fmap. by exists r.
    + intros [(p & -> & [[? ?] Hp]%list_elem_of_filter)%list_elem_of_fmap
              (r & ? & Hr)%list_elem_of_fmap].
      destruct (select_flat_complete roleID scope t p r) as (row & Hrow & <- & _); try done.
      by apply list_elem_of_fmap_2.
  - apply Forall_forall. intros row Hrow.
    apply select_flat_elem in Hrow
      as (p & r & tr & ur & br & Hp & Hr & ? & Hrr & ? & Htr & Hur & Hbr
          & ? & ? & ? & ? & Hu & Htm & Hb & ?).
    split_and!.
    + congruence.
    + exists p. split_and!; [|done..]. unfold storedAt. by apply list_elem_of_filter.
    + by exists r.
    + rewrite Hu. intros Hne. apply left_join_elem in Hur as [->|(a & -> & Ha)]; [done|].
      apply list_elem_of_filter in Ha as [? ?]. exists a. split_and!; [done | congruence | done].
    + rewrite Htm. intros Hne. apply left_join_elem in Htr as [->|(a & -> & Ha)]; [done|].
      apply list_elem_of_filter in Ha as [? ?]. exists a. split_and!; [done | congruence | done].
    + rewrite Hb. intros Hne. apply left_join_elem in Hbr as [->|(a & -> & Ha)]; [done|].
      apply list_elem_of_filter in Ha as [? ?]. exists a. split_and!; [done | congruence | done].
    + done.
Qed.

End ReadBack.

(** ** A failed lookup of the managed role *)

Section LookupFault.
Context `{External}.

(** X19.  When the lookup of the managed role fails, the creation
    branch runs all the same.  If every later statement goes through, the
    first identifier drawn is free, no assignment row refers to the key
    the new role gets and the engine accepts the write, then the user
    grant returns the storage error and the tables are as before the call,
    while an identifier has been drawn and the engine has accepted the
    tuple that makes the user an assignee of a role that is not in the
    role table. *)
Theorem grant_lookup_fault (s : store) (orgID : Z) (usr : User)
    (cmd : SetResourcePermissionCommand) (hook : UserResourceHookFunc) (w : World) :
  let role := mkRole (next_id (role_ID <$> tbl_role (tables w))) orgID
                (uid_gen w (uid_calls w)) (ManagedUserRoleName (User_ID usr)) in
  let out := SetUserResourcePermission s orgID usr cmd hook w in
  User_ID usr ≠ 0 →
  db_fault w (db_calls w) = true →
  (∀ n, (db_calls w < n)%nat → db_fault w n = false) →
  zfault w (zcalls w) = false →
  role_uid_exists orgID (role_UID role) (tables w) = false →
  Forall (λ x, ur_RoleID x ≠ role_ID role) (tbl_user_role (tables w)) →
  out.1 = Err ErrStorage
  ∧ tables out.2 = tables w
  ∧ zlog out.2 = zlog w ++ [[assigneeTuple ("user:" +:+ FormatInt (User_ID usr)) role]]
  ∧ uid_calls out.2 = S (uid_calls w)
  ∧ role_ID role ∉ role_ID <$> tbl_role (tables out.2).
Proof.
  intros role out Hu Hfault Hlater Hz Hfree Hrows. subst out.
  assert (getOrCreateManagedRole orgID (ManagedUserRoleName (User_ID usr))
            (userAdder orgID (User_ID usr)) w
          = (Err ErrStorage,
             mkWorld (insert_user_role (mkUserRole orgID (User_ID usr) (role_ID role))
                        (insert_role role (tables w)).2)
               (5 + db_calls w) (db_fault w)
               (zlog w ++ [[assigneeTuple ("user:" +:+ FormatInt (User_ID usr)) role]])
               (S (zcalls w)) (zfault w) (S (uid_calls w)) (uid_gen w))) as Hrole.
  { unfold getOrCreateManagedRole, query, statement. rewrite Hfault.
    unfold createManagedRole, generateNewRoleUID. simpl.
    unfold bind at 1. unfold bind at 1. unfold GenerateShortUID at 1. simpl.
    unfold bind at 1. unfold query at 1, statement at 1. simpl.
    rewrite (Hlater (S (db_calls w))) by lia. simpl in Hfree. rewrite Hfree. unfold ret at 1.
    unfold bind at 1. unfold statement at 1. simpl.
    rewrite (Hlater (S (S (db_calls w)))) by lia. simpl.
    unfold bind at 1. unfold userAdder.
    unfold bind at 1. unfold query at 1, statement at 1. simpl.
    rewrite (Hlater (S (S (S (db_calls w))))) by lia. simpl.
    rewrite (filter_none _ (tbl_user_role (tables w))).
    2:{ intros x Hx (_ & _ & Hid). rewrite Forall_forall in Hrows. by apply (Hrows x Hx). }
    simpl. unfold bind at 1. unfold exec at 1, statement at 1. simpl.
    rewrite (Hlater (S (S (S (S (db_calls w)))))) by lia. simpl.
    unfold zClient_Write. simpl. rewrite Hz. reflexivity. }
  unfold SetUserResourcePermission. rewrite (bool_decide_eq_false_2 _ Hu).
  unfold WithTransactionalDbSession, setUserResourcePermission, setResourcePermission.
  rewrite (bind_Err _ _ _ _ _ (bind_Err _ _ _ _ _ Hrole)). simpl.
  split_and!; [done..|]. apply next_id_fresh.
Qed.

End LookupFault.

(** ** Drawing an identifier, and the permission a grant returns *)

Lemma grantResult_actions roleID scope t :
  rp_Actions (grantResult roleID scope t) = frp_Action <$> select_flat roleID scope t.
Proof. unfold grantResult. by destruct (select_flat roleID scope t). Qed.

Lemma select_flat_actions roleID scope t a :
  roleID ∈ role_ID <$> tbl_role t →
  a ∈ frp_Action <$> select_flat roleID scope t ↔ a ∈ perm_Action <$> storedAt roleID scope t.
Proof.
  intros (r & Hr & Hrin)%list_elem_of_fmap. split.
  - intros (row & -> & Hrow)%list_elem_of_fmap.
    apply select_flat_elem in Hrow
      as (p & _ & _ & _ & _ & Hp & _ & ? & _ & ? & _ & _ & _ & _ & -> & _).
    apply list_elem_of_fmap_2. unfold storedAt. by apply list_elem_of_filter.
  - intros (p & -> & [[? ?] Hp]%list_elem_of_filter)%list_elem_of_fmap.
    destruct (select_flat_complete roleID scope t p r) as (row & Hrow & _ & <-); try done.
    by apply list_elem_of_fmap_2.
Qed.

Section Outcomes.
Context `{External}.

Lemma generateNewRoleUID_loop_outcome attempts orgID w :
  let out := generateNewRoleUID_loop attempts orgID w in
  (∀ uid, out.1 = Ok uid →
     role_uid_exists orgID uid (tables w) = false
     ∧ ∃ k, (k < attempts)%nat ∧ uid = uid_gen w (k + uid_calls w)
         ∧ uid_calls out.2 = (S k + uid_calls w)%nat
         ∧ ∀ j, (j < k)%nat →
             role_uid_exists orgID (uid_gen w (j + uid_calls w)) (tables w) = true)
  ∧ (∀ e, out.1 = Err e →
       e = ErrStorage
       ∨ (e = ErrMsg "failed to generate uid"
          ∧ uid_calls out.2 = (attempts + uid_calls w)%nat
          ∧ ∀ j, (j < attempts)%nat →
              role_uid_exists orgID (uid_gen w (j + uid_calls w)) (tables w) = true)).
Proof.
  revert w. induction attempts as [|attempts IH]; intros w.
  { simpl. split; [done|]. intros e [= <-]. right. split_and!; [done | done | lia]. }
  cbn zeta. simpl. unfold bind, GenerateShortUID, query, statement. simpl.
  destruct (db_fault w (db_calls w)); simpl.
  { split; [done|]. intros e [= <-]. by left. }
  destruct (role_uid_exists orgID (uid_gen w (uid_calls w)) (tables w)) eqn:Ebusy; simpl.
  - match goal with |- context [generateNewRoleUID_loop attempts orgID ?w1] =>
      specialize (IH w1); set (out := generateNewRoleUID_loop attempts orgID w1) in * end.
    cbn zeta in IH. simpl in IH. destruct IH as [IHok IHerr]. split.
    + intros uid Hok. destruct (IHok uid Hok) as (Hfree & k & Hk & Huid & Hcalls & Hbusy).
      split; [done|]. exists (S k). split_and!; [lia | | lia |].
      * rewrite Huid. f_equal. lia.
      * intros [|j] Hj; [done|]. replace (S j + uid_calls w)%nat with (j + S (uid_calls w))%nat
          by lia. apply Hbusy. lia.
    + intros e Herr. destruct (IHerr e Herr) as [->|(-> & Hcalls & Hbusy)]; [by left|].
      right. split_and!; [done | lia|].
      intros [|j] Hj; [done|]. replace (S j + uid_calls w)%nat with (j + S (uid_calls w))%nat
        by lia. apply Hbusy. lia.
  - split; [|done]. intros uid [= <-]. split; [done|]. exists 0%nat.
    split_and!; [lia | done | done | intros j Hj; lia].
Qed.

(** X20.  [generateNewRoleUID] under any failures of the store.  When
    it returns an identifier, that identifier is free in the org, it is
    the last of the one to three identifiers drawn, and every identifier
    drawn before it was taken.  When it fails, either a lookup failed, or
    three identifiers were drawn and each was taken. *)
Theorem generateNewRoleUID_outcome (orgID : Z) (w : World) :
  let out := generateNewRoleUID orgID w in
  (∀ uid, out.1 = Ok uid →
     role_uid_exists orgID uid (tables w) = false
     ∧ ∃ k, (k < 3)%nat ∧ uid = uid_gen w (k + uid_calls w)
         ∧ uid_calls out.2 = (S k + uid_calls w)%nat
         ∧ ∀ j, (j < k)%nat →
             role_uid_exists orgID (uid_gen w (j + uid_calls w)) (tables w) = true)
  ∧ (∀ e, out.1 = Err e →
       e = ErrStorage
       ∨ (e = ErrMsg "failed to generate uid"
          ∧ uid_calls out.2 = (3 + uid_calls w)%nat
          ∧ ∀ j, (j < 3)%nat →
              role_uid_exists orgID (uid_gen w (j + uid_calls w)) (tables w) = true)).
Proof. apply (generateNewRoleUID_loop_outcome 3). Qed.

(** X21.  With the action-set toggle off and unique primary keys, the
    permission a successful grant without hook returns lists the
    requested actions and no other. *)
Theorem grant_returns_requested_actions (s : store) (orgID : Z) (usr : User) (teamID : Z)
    (builtInRole : string) (cmd : SetResourcePermissionCommand) (g : Grant)
    (w : World) (p : ResourcePermission) (w' : World) :
  g ∈ grants s orgID usr teamID builtInRole cmd →
  FlagAccessActionSets s = false →
  wf_tables (tables w) →
  g_run g w = (Ok p, w') →
  ∀ a, a ∈ rp_Actions p ↔ a ∈ cmd_Actions cmd.
Proof.
  intros Hg Hflag Hwf Hrun a.
  pose proof (grants_Ok_inv _ _ _ _ _ _ _ _ _ _ Hg Hrun) as Hset.
  pose proof Hg as (_ & Hframe & _)%grants_shape.
  destruct (setResourcePermission_Ok_post _ _ _ _ _ _ _ _ Hflag Hframe Hwf Hset)
    as (role & Hget & _ & _ & Hiff & ->).
  apply get_role_by_name_elem in Hget as (Hrin & _).
  rewrite grantResult_actions, select_flat_actions by (by apply list_elem_of_fmap_2).
  apply Hiff.
Qed.

End Outcomes.

(** * Closed examples *)

#[local] Existing Instance sampleExternal.

(** C1 on a store with no role yet: the first RPC of the grant fails, the
    call is an error and neither the tables nor the engine's log moved. *)
Lemma grant_write_failure_rolls_back_witness :
  let w := sampleWorld emptyTables (λ _, true) in
  let m := SetUserResourcePermission (mkStore false) 1 (mkUser 7) sampleCmd None in
  zfault w (zcalls w) = true
  ∧ (∃ e, (m w).1 = Err e) ∧ tables (m w).2 = tables w ∧ zlog (m w).2 = zlog w.
Proof.
  split; [reflexivity|].
  apply (grant_write_failure_rolls_back (mkStore false) 1 (mkUser 7) 3 "Editor" sampleCmd
           None None None (sampleWorld emptyTables (λ _, true))
           (SetUserResourcePermission (mkStore false) 1 (mkUser 7) sampleCmd None)).
  - by left.
  - reflexivity.
Defined.

(** C1 as stated fails when the grant's own write is refused (the second
    RPC, after the assignee tuple of the new role): the caller gets the
    write error, and the tables hold neither the granted permissions nor
    the managed role, while the engine has accepted the assignee tuple. *)
Lemma grant_write_failure_not_committed :
  let w := sampleWorld emptyTables (λ n, bool_decide (n = 1%nat)) in
  let m := SetUserResourcePermission (mkStore false) 1 (mkUser 7) sampleCmd None in
  (m w).1 = Err ErrWrite
  ∧ tbl_permission (tables (m w).2) = []
  ∧ tbl_role (tables (m w).2) = []
  ∧ zlog (m w).2 = [[mkTupleKey "user:7" "assignee" "role:uid0" false]].
Proof. split_and!; by vm_compute. Qed.

(** C3 on the empty store. *)
Lemma grant_twice_is_noop_witness :
  let w := sampleWorld emptyTables (λ _, false) in
  let m := SetUserResourcePermission (mkStore false) 1 (mkUser 7) sampleCmd None in
  FlagAccessActionSets (mkStore false) = false
  ∧ wf_tables (tables w)
  ∧ tables (m (m w).2).2 = tables (m w).2.
Proof.
  split; [reflexivity|]. split; [split; constructor|].
  destruct (SetUserResourcePermission (mkStore false) 1 (mkUser 7) sampleCmd None
              (sampleWorld emptyTables (λ _, false))) as [[p1|e] w1] eqn:E;
    [|vm_compute in E; discriminate].
  apply (grant_twice_is_noop (mkStore false) 1 (mkUser 7) 3 "Editor" sampleCmd
           (sampleWorld emptyTables (λ _, false)) (ManagedUserRoleName 7)
           (SetUserResourcePermission (mkStore false) 1 (mkUser 7) sampleCmd None) p1 w1).
  - reflexivity.
  - split; constructor.
  - by left.
  - exact E.
Defined.

(** C3 as stated fails with the action-set toggle on: the first grant
    stores the two actions and the action set of the permission level, and
    the same grant again deletes the action-set row. *)
Lemma grant_twice_with_action_sets :
  let w := sampleWorld emptyTables (λ _, false) in
  let m := SetUserResourcePermission (mkStore true) 1 (mkUser 7) sampleCmd None in
  rp_Actions <$> (match (m w).1 with Ok p => Some p | Err _ => None end)
  = Some ["dashboards:write"; "dashboards:read"; "dashboards:edit"]
  ∧ perm_Action <$> tbl_permission (tables (m w).2)
    = ["dashboards:write"; "dashboards:read"; "dashboards:edit"]
  ∧ rp_Actions <$> (match (m (m w).2).1 with Ok p => Some p | Err _ => None end)
    = Some ["dashboards:write"; "dashboards:read"]
  ∧ perm_Action <$> tbl_permission (tables (m (m w).2).2)
    = ["dashboards:write"; "dashboards:read"].
Proof. split_and!; by vm_compute. Qed.

(** C4 on the empty store, where the first identifier drawn is free, and
    on a store whose org already holds roles under uid0, uid1 and uid2. *)
Lemma getOrCreateManagedRole_spec_witness :
  let w := sampleWorld emptyTables (λ _, false) in
  let busy := sampleWorld takenUIDs (λ _, false) in
  noStorageFault w
  ∧ (getOrCreateManagedRole 1 "managed:users:7:permissions" (userAdder 1 7) w).1
    = Ok (mkRole 1 1 "uid0" "managed:users:7:permissions")
  ∧ noStorageFault busy
  ∧ getOrCreateManagedRole 1 "managed:users:7:permissions" (userAdder 1 7) busy
    = (Err (ErrMsg "failed to generate uid"), consumed 4 3 busy).
Proof.
  split; [by intros n|]. split.
  - destruct (getOrCreateManagedRole_spec 1 "managed:users:7:permissions" (userAdder 1 7)
                (sampleWorld emptyTables (λ _, false)) ltac:(by intros n))
      as (_ & _ & Hfree & _).
    rewrite (Hfree eq_refl 0%nat ltac:(lia) ltac:(intros j Hj; lia) eq_refl).
    by vm_compute.
  - split; [by intros n|].
    destruct (getOrCreateManagedRole_spec 1 "managed:users:7:permissions" (userAdder 1 7)
                (sampleWorld takenUIDs (λ _, false)) ltac:(by intros n))
      as (_ & Hbusy & _).
    apply Hbusy; [reflexivity|].
    intros [|[|[|j]]] Hj; [by vm_compute.. | lia].
Defined.

(** C6 on three membership rows, two of them equal, with every write
    accepted; and on 120 rows, hence 240 tuples in three batches, with
    the second write refused. *)
Lemma syncOrgMembership_spec_witness :
  let t := mkTables [] [] [] [] [] [] []
             [mkMembership 1 1 "Admin"; mkMembership 1 1 "Admin"; mkMembership 1 2 "Viewer"] in
  let w := sampleWorld t (λ _, false) in
  let big := sampleWorld (mkTables [] [] [] [] [] [] [] manyRows)
               (λ n, bool_decide (n = 1%nat)) in
  db_fault w (db_calls w) = false
  ∧ List.length (flattenTuples (collectTuples (tbl_org_user t))) = 4%nat
  ∧ (syncOrgMembership w).1 = Ok tt
  ∧ List.length (zlog (syncOrgMembership w).2) = 1%nat
  ∧ db_fault big (db_calls big) = false
  ∧ (syncOrgMembership big).1 = Err ErrWrite
  ∧ List.length <$> zlog (syncOrgMembership big).2 = [100%nat]
  ∧ zcalls (syncOrgMembership big).2 = 2%nat.
Proof.
  split; [reflexivity|]. split; [by vm_compute|].
  destruct (syncOrgMembership_spec
              (sampleWorld
                 (mkTables [] [] [] [] [] [] []
                    [mkMembership 1 1 "Admin"; mkMembership 1 1 "Admin";
                     mkMembership 1 2 "Viewer"]) (λ _, false)))
    as (_ & _ & _ & _ & _ & _ & Hrun).
  destruct (Hrun eq_refl) as [Hok _]. rewrite Hok by done.
  split; [reflexivity|]. split; [by vm_compute|]. split; [reflexivity|].
  destruct (syncOrgMembership_spec
              (sampleWorld (mkTables [] [] [] [] [] [] [] manyRows)
                 (λ n, bool_decide (n = 1%nat))))
    as (_ & _ & _ & _ & Hcount & _ & Hbig).
  destruct (Hbig eq_refl) as [_ Hfail].
  rewrite (Hfail 1%nat).
  - split_and!; by vm_compute.
  - rewrite Hcount. vm_compute. lia.
  - intros [|j] Hj; [reflexivity | lia].
  - reflexivity.
Defined.

(** C8: the single call refuses the Grafana admin role. *)
Lemma builtin_role_validation_witness :
  let w := sampleWorld emptyTables (λ _, false) in
  RoleGrafanaAdmin = "Grafana Admin"
  ∧ SetBuiltInResourcePermission (mkStore false) 1 "Grafana Admin" sampleCmd None w
    = (Err (ErrMsg "invalid role: Grafana Admin"), w).
Proof.
  split; [reflexivity|].
  destruct (builtin_role_validation (mkStore false) 1 "Grafana Admin" sampleCmd None noHooks
              (sampleWorld emptyTables (λ _, false))) as (Hsingle & _ & _).
  apply Hsingle. by right.
Defined.

(** C8 as stated fails in the batch call: a command for the Grafana admin
    role is granted, and a command whose role name is not valid is let
    through without an error. *)
Lemma batch_grants_grafana_admin :
  let w := sampleWorld emptyTables (λ _, false) in
  let granted :=
    SetResourcePermissions (mkStore false) 1
      [mkCmds (mkUser 0) 0 "Grafana Admin" sampleCmd] noHooks w in
  let skipped :=
    SetResourcePermissions (mkStore false) 1
      [mkCmds (mkUser 0) 0 "Superuser" sampleCmd] noHooks w in
  granted.1.2 = Ok tt
  ∧ rp_BuiltInRole <$> granted.1.1 = ["Grafana Admin"]
  ∧ perm_Action <$> tbl_permission (tables granted.2) = ["dashboards:write"; "dashboards:read"]
  ∧ br_Role <$> tbl_builtin_role (tables granted.2) = ["Grafana Admin"]
  ∧ skipped = (([], Ok tt), w).
Proof. split_and!; by vm_compute. Qed.

(** C9 on a store with two roles of org 1 and one of org 2. *)
Lemma DeleteResourcePermissions_spec_witness :
  let t := mkTables
             [mkRole 1 1 "a" "managed:users:1:permissions"; mkRole 2 1 "b" "custom";
              mkRole 3 2 "c" "other"]
             [mkPermission 1 1 "read" "dashboards:uid:abc" "" "" "";
              mkPermission 2 2 "write" "dashboards:uid:abc" "" "" "";
              mkPermission 3 3 "read" "dashboards:uid:abc" "" "" "";
              mkPermission 4 1 "read" "dashboards:uid:xyz" "" "" ""]
             [] [] [] [] [] [] in
  let w := sampleWorld t (λ _, false) in
  let r := DeleteResourcePermissions 1 (mkDeleteCmd "dashboards" "uid" "abc") w in
  r.1 = Ok tt
  ∧ NoDup (perm_ID <$> tbl_permission t)
  ∧ perm_ID <$> tbl_permission (tables r.2) = [3; 4]
  ∧ tbl_role (tables r.2) = tbl_role t.
Proof.
  set (t := mkTables _ _ _ _ _ _ _ _). intros t0 w r. subst t0.
  assert (NoDup (perm_ID <$> tbl_permission t)) as Hnd
    by (apply (bool_decide_unpack _); by vm_compute).
  assert (r.1 = Ok tt) as Hok by (by vm_compute).
  destruct (DeleteResourcePermissions_spec 1 (mkDeleteCmd "dashboards" "uid" "abc") w)
    as ((Hroles & _) & _ & Hdel & _).
  split_and!; [done | done | | done].
  fold r in Hdel. rewrite (Hdel Hok Hnd). by vm_compute.
Defined.

(** C10: a command naming nothing but an unknown role is skipped. *)
Lemma SetResourcePermissions_skips_unmatched_witness :
  let w := sampleWorld emptyTables (λ _, false) in
  let cmd := mkCmds (mkUser 0) 0 "Superuser" sampleCmd in
  noSubject cmd
  ∧ SetResourcePermissions (mkStore false) 1 [cmd] noHooks w = (([], Ok tt), w).
Proof.
  assert (noSubject (mkCmds (mkUser 0) 0 "Superuser" sampleCmd)) as Hcmd.
  { split_and!; [done | done | by vm_compute | done]. }
  split; [exact Hcmd|].
  apply (SetResourcePermissions_skips_unmatched (mkStore false) 1 [] []
           (mkCmds (mkUser 0) 0 "Superuser" sampleCmd) noHooks
           (sampleWorld emptyTables (λ _, false)) Hcmd).
Defined.

(** * Further closed examples *)

(** X1: stored as Dashboards and Edit, read back as dashboards and EDIT. *)
Lemma StoreActionSet_GetActionSet_witness :
  let s := StoreActionSet NewActionSetService "Dashboards" "Edit"
             ["dashboards:read"; "dashboards:write"] in
  ToLower "Dashboards" = ToLower "dashboards"
  ∧ ToLower "Edit" = ToLower "EDIT"
  ∧ GetActionSet s (GetActionSetName "dashboards" "EDIT")
    = ["dashboards:read"; "dashboards:write"].
Proof.
  split; [reflexivity|]. split; [reflexivity|].
  apply (StoreActionSet_GetActionSet NewActionSetService "Dashboards" "Edit"
           "dashboards" "EDIT" ["dashboards:read"; "dashboards:write"]); reflexivity.
Defined.

(** X8: user 7 deleted from org 1. *)
Lemma DeleteUserPermissions_spec_witness :
  let w := sampleWorld sampleStore (λ _, false) in
  let out := DeleteUserPermissions 1 7 w in
  out.1 = Ok tt
  ∧ tbl_user_role (tables out.2) = [mkUserRole 1 8 2]
  ∧ role_ID <$> tbl_role (tables out.2) = [2; 3]
  ∧ perm_ID <$> tbl_permission (tables out.2) = [3; 4; 5].
Proof.
  intros w out.
  assert (DeleteUserPermissions 1 7 w = (Ok tt, out.2)) as Hrun by (by vm_compute).
  destruct (DeleteUserPermissions_spec 1 7 w tt out.2 Hrun) as (Hur & Hr & Hp & _).
  split; [by vm_compute|]. rewrite Hur, Hr, Hp. split_and!; by vm_compute.
Defined.

(** X9: team 3 deleted from org 1. *)
Lemma DeleteTeamPermissions_spec_witness :
  let w := sampleWorld sampleStore (λ _, false) in
  let out := DeleteTeamPermissions 1 3 w in
  out.1 = Ok tt
  ∧ tbl_team_role (tables out.2) = [mkTeamRole 1 4 2]
  ∧ role_ID <$> tbl_role (tables out.2) = [1; 2]
  ∧ perm_ID <$> tbl_permission (tables out.2) = [1; 2; 3].
Proof.
  intros w out.
  assert (DeleteTeamPermissions 1 3 w = (Ok tt, out.2)) as Hrun by (by vm_compute).
  destruct (DeleteTeamPermissions_spec 1 3 w tt out.2 Hrun) as (Htr & Hr & Hp & _).
  split; [by vm_compute|]. rewrite Htr, Hr, Hp. split_and!; by vm_compute.
Defined.

(** X10: the second statement fails. *)
Lemma delete_subject_permissions_partial_witness :
  let w := faultyWorld sampleStore (λ n, bool_decide (n = 1%nat)) in
  db_fault w (db_calls w) = false
  ∧ (DeleteUserPermissions 1 7 w).1 = Err ErrStorage
  ∧ tbl_user_role (tables (DeleteUserPermissions 1 7 w).2) = [mkUserRole 1 8 2]
  ∧ tbl_role (tables (DeleteUserPermissions 1 7 w).2) = tbl_role sampleStore.
Proof.
  intros w. split; [reflexivity|].
  destruct (delete_subject_permissions_partial 1 7 w eq_refl) as (Hur & _ & Hr & _).
  split; [by vm_compute|]. rewrite Hur. split; [by vm_compute|].
  apply (Hr ErrStorage). by vm_compute.
Defined.

(** X11: one action and, the toggle being on, the action set. *)
Lemma createPermissions_spec_witness :
  let w := sampleWorld sampleStore (λ _, false) in
  let out := createPermissions (mkStore true) 1 "dashboards" "abc" "uid"
               {["dashboards:write"]} "Edit" w in
  out.1 = Ok tt
  ∧ db_calls out.2 = 1%nat
  ∧ tbl_role (tables out.2) = tbl_role sampleStore.
Proof.
  intros w out.
  assert (createPermissions (mkStore true) 1 "dashboards" "abc" "uid"
            {["dashboards:write"]} "Edit" w = (Ok tt, out.2)) as Hrun by (by vm_compute).
  destruct (createPermissions_spec _ _ _ _ _ _ _ _ _ _ Hrun) as (Hcalls & (Hr & _) & _).
  split; [by vm_compute|]. rewrite Hcalls, Hr. split; by vm_compute.
Defined.

(** X12: the first grant to user 7 on the empty store. *)
Lemma grant_engine_log_witness :
  let w := sampleWorld emptyTables (λ _, false) in
  let g := userGrant (mkStore false) 1 (mkUser 7) sampleCmd in
  g ∈ grants (mkStore false) 1 (mkUser 7) 3 "Editor" sampleCmd
  ∧ (∃ p, (g_run g w).1 = Ok p)
  ∧ zlog (g_run g w).2
    = [[mkTupleKey "user:7" "assignee" "role:uid0" false];
       [mkTupleKey "role:uid0" "dashboards:read" "dashboards:uid:abc" true;
        mkTupleKey "role:uid0" "dashboards:write" "dashboards:uid:abc" true]].
Proof.
  intros w g.
  assert (g ∈ grants (mkStore false) 1 (mkUser 7) 3 "Editor" sampleCmd) as Hg by (by left).
  destruct (g_run g w) as [[p|e] w'] eqn:Hrun; [|vm_compute in Hrun; discriminate].
  split; [done|]. split; [by exists p|].
  destruct (grant_engine_log _ _ _ _ _ _ _ _ _ _ Hg Hrun) as (role & Hget & Hz & _).
  assert (w' = (g_run g w).2) as Hw by (by rewrite Hrun).
  rewrite Hw in Hget. vm_compute in Hget. injection Hget as <-.
  simpl. rewrite Hz. by vm_compute.
Defined.

(** X13: the first grant to user 7 on the empty store creates the role. *)
Lemma grant_role_and_assignment_witness :
  let w := sampleWorld emptyTables (λ _, false) in
  let g := userGrant (mkStore false) 1 (mkUser 7) sampleCmd in
  g ∈ grants (mkStore false) 1 (mkUser 7) 3 "Editor" sampleCmd
  ∧ (∃ p, (g_run g w).1 = Ok p)
  ∧ ∃ role, role_OrgID role = 1 ∧ tbl_role (tables (g_run g w).2) = [role].
Proof.
  intros w g.
  assert (g ∈ grants (mkStore false) 1 (mkUser 7) 3 "Editor" sampleCmd) as Hg by (by left).
  destruct (g_run g w) as [[p|e] w'] eqn:Hrun; [|vm_compute in Hrun; discriminate].
  split; [done|]. split; [by exists p|].
  pose proof (grant_role_and_assignment _ _ _ _ _ _ _ _ _ _ Hg Hrun) as Hthm.
  change (get_role_by_name 1 (g_roleName g) (tables w)) with (@None Role) in Hthm.
  destruct Hthm as (role & Horg & _ & _ & _ & Hroles & _). exists role. by split.
Defined.

(** X14: user 7 held read and delete on dashboard abc and is granted read
    and write. *)
Lemma grant_replaces_actions_witness :
  let w := sampleWorld sampleStore (λ _, false) in
  let g := userGrant (mkStore false) 1 (mkUser 7) sampleCmd in
  g ∈ grants (mkStore false) 1 (mkUser 7) 3 "Editor" sampleCmd
  ∧ wf_tables (tables w)
  ∧ (∃ p, (g_run g w).1 = Ok p)
  ∧ wf_tables (tables (g_run g w).2)
  ∧ perm_ID <$> storedElsewhere 1 "dashboards:uid:abc" (tables (g_run g w).2) = [3; 4; 5].
Proof.
  intros w g.
  assert (g ∈ grants (mkStore false) 1 (mkUser 7) 3 "Editor" sampleCmd) as Hg by (by left).
  assert (wf_tables (tables w)) as Hwf
    by (split; apply (bool_decide_unpack _); by vm_compute).
  destruct (g_run g w) as [[p|e] w'] eqn:Hrun; [|vm_compute in Hrun; discriminate].
  split; [done|]. split; [done|]. split; [by exists p|].
  destruct (grant_replaces_actions _ _ _ _ _ _ _ _ _ _ Hg Hwf Hrun)
    as (role & Hget & Hwf' & Hframe & _).
  assert (w' = (g_run g w).2) as Hw by (by rewrite Hrun).
  rewrite Hw in Hget. vm_compute in Hget. injection Hget as <-.
  simpl. split; [done|]. change (Scope _) with "dashboards:uid:abc" in Hframe. simpl in Hframe.
  rewrite Hframe. by vm_compute.
Defined.

(** X17: the permissions of dashboard abc deleted twice. *)
Lemma DeleteResourcePermissions_idempotent_witness :
  let w := sampleWorld sampleStore (λ _, false) in
  let cmd := mkDeleteCmd "dashboards" "uid" "abc" in
  let out := DeleteResourcePermissions 1 cmd w in
  NoDup (perm_ID <$> tbl_permission (tables w))
  ∧ out.1 = Ok tt
  ∧ tables (DeleteResourcePermissions 1 cmd out.2).2 = tables out.2.
Proof.
  intros w cmd out.
  assert (NoDup (perm_ID <$> tbl_permission (tables w))) as Hnd
    by (apply (bool_decide_unpack _); by vm_compute).
  assert (DeleteResourcePermissions 1 cmd w = (Ok tt, out.2)) as Hrun by (by vm_compute).
  split; [done|]. split; [by vm_compute|].
  apply (DeleteResourcePermissions_idempotent 1 cmd w tt out.2 Hnd Hrun).
Defined.

(** X18: the permissions of the managed role of user 7 on dashboard abc. *)
Lemma getPermissions_rows_witness :
  let w := sampleWorld sampleStore (λ _, false) in
  let out := getPermissions "dashboards" "abc" "uid" 1 w in
  (∃ rows, out.1 = Ok rows ∧ frp_UserId <$> rows = [7; 7])
  ∧ tables out.2 = tables w.
Proof.
  intros w out.
  destruct out as [[rows|e] w'] eqn:Hrun; [|vm_compute in Hrun; discriminate].
  split.
  - exists rows. split; [done|]. vm_compute in Hrun. by injection Hrun as <- _.
  - apply (getPermissions_rows "dashboards" "abc" "uid" 1 w rows w' Hrun).
Defined.

(** X19: the lookup fails on the empty store and every later statement
    goes through. *)
Lemma grant_lookup_fault_witness :
  let w := faultyWorld emptyTables (λ n, bool_decide (n = 0%nat)) in
  let out := SetUserResourcePermission (mkStore false) 1 (mkUser 7) sampleCmd None w in
  db_fault w (db_calls w) = true
  ∧ out.1 = Err ErrStorage
  ∧ tables out.2 = tables w
  ∧ zlog out.2 = [[mkTupleKey "user:7" "assignee" "role:uid0" false]].
Proof.
  intros w out. split; [reflexivity|].
  destruct (grant_lookup_fault (mkStore false) 1 (mkUser 7) sampleCmd None w)
    as (Herr & Ht & Hz & _).
  - done.
  - reflexivity.
  - intros [|n] Hn; [simpl in Hn; lia | reflexivity].
  - reflexivity.
  - by vm_compute.
  - constructor.
  - split; [done|]. split; [done|]. fold out in Hz. rewrite Hz. by vm_compute.
Defined.

(** X21: user 7 held read and delete on dashboard abc and is granted read
    and write. *)
Lemma grant_returns_requested_actions_witness :
  let w := sampleWorld sampleStore (λ _, false) in
  let g := userGrant (mkStore false) 1 (mkUser 7) sampleCmd in
  g ∈ grants (mkStore false) 1 (mkUser 7) 3 "Editor" sampleCmd
  ∧ FlagAccessActionSets (mkStore false) = false
  ∧ wf_tables (tables w)
  ∧ ∃ p, (g_run g w).1 = Ok p
         ∧ ∀ a, a ∈ rp_Actions p ↔ a ∈ ["dashboards:read"; "dashboards:write"].
Proof.
  intros w g.
  assert (g ∈ grants (mkStore false) 1 (mkUser 7) 3 "Editor" sampleCmd) as Hg by (by left).
  assert (wf_tables (tables w)) as Hwf
    by (split; apply (bool_decide_unpack _); by vm_compute).
  destruct (g_run g w) as [[p|e] w'] eqn:Hrun; [|vm_compute in Hrun; discriminate].
  split; [done|]. split; [done|]. split; [done|]. exists p. split; [done|].
  apply (grant_returns_requested_actions _ _ _ _ _ _ _ _ _ _ Hg eq_refl Hwf Hrun).
Defined.
